(** * fminer: a shallow embedding of the scraping pipeline

    The repository has four Python programs:
    - [fminer.py], the link-discovery crawler;
    - [game_miner_parallel.py], the per-match detail extractor;
    - [post_processing.py], the address parser and Vienna filter;
    - [create_martiball_json.py], the JSON emitter.

    Each program is embedded in a module of its own, named after the
    file, after a common prelude that models the Python values the
    programs compute with. *)

From Stdlib Require Import ZArith NArith List String Ascii Lia Bool.
From Stdlib Require Import Floats.PrimFloat.
From Stdlib Require Import DecimalString.
From Stdlib Require DecimalPos.
From Stdlib Require Import Sorting.Permutation.
From stdpp Require Import base option list gmap.
Import ListNotations.

Set Warnings "-inexact-float,-register-all,-abstract-large-number".
Set Warnings "-clear-no-such-hyp".

(* ================================================================= *)
(** * Python strings *)
(* ================================================================= *)

(** A Python [str] is a sequence of Unicode code points. *)
Abbreviation pystr := (list N) (only parsing).

Module Utf8.
(** String literals of this file are UTF-8 byte strings; [decode]
    turns them into code points, so that ["ß"] is the one code point
    223 that Python sees. *)
Definition cont (b : N) : N := N.land b 63.

Fixpoint decode_bytes (bs : list N) : pystr :=
  match bs with
  | [] => []
  | b :: rest =>
    if (b <? 128)%N then b :: decode_bytes rest
    else if (b <? 224)%N then
      match rest with
      | b2 :: rest' =>
        (N.shiftl (N.land b 31) 6 + cont b2)%N :: decode_bytes rest'
      | [] => [b]
      end
    else if (b <? 240)%N then
      match rest with
      | b2 :: b3 :: rest' =>
        (N.shiftl (N.land b 15) 12 + N.shiftl (cont b2) 6 + cont b3)%N
          :: decode_bytes rest'
      | _ => [b]
      end
    else
      match rest with
      | b2 :: b3 :: b4 :: rest' =>
        (N.shiftl (N.land b 7) 18 + N.shiftl (cont b2) 12
         + N.shiftl (cont b3) 6 + cont b4)%N :: decode_bytes rest'
      | _ => [b]
      end
  end.

Definition decode (s : string) : pystr :=
  decode_bytes (map N_of_ascii (list_ascii_of_string s)).
End Utf8.

(** [py "text"] is the Python string written ["text"] in the sources. *)
Definition py (s : string) : pystr := Utf8.decode s.

Definition pystr_eqb (a b : pystr) : bool := bool_decide (a = b).

(** ** The Unicode character database

    [str.strip], [str.lower], [int] and the classes [\d], [\s], [\w],
    [\b] of [re] consult CPython's Unicode tables, which are not part of
    the repository.  The programs are embedded over an arbitrary table;
    [latin1] is the table restricted to the code points below 256, where
    it is CPython's. *)
Record Unicode : Type := {
  isspace : N -> bool;          (* Py_UNICODE_ISSPACE *)
  todecimal : N -> option Z;    (* Py_UNICODE_TODECIMAL, None for -1 *)
  isalnum : N -> bool;          (* Py_UNICODE_ISALNUM *)
  lower : pystr -> pystr;       (* str.lower *)
  lower1 : N -> N               (* Py_UNICODE_TOLOWER, used by re.IGNORECASE *)
}.

Definition in_range (lo hi c : N) : bool := ((lo <=? c) && (c <=? hi))%N.

Definition latin1_isspace (c : N) : bool :=
  in_range 9 13 c || in_range 28 32 c || (c =? 133)%N || (c =? 160)%N.

Definition latin1_todecimal (c : N) : option Z :=
  if in_range 48 57 c then Some (Z.of_N c - 48)%Z else None.

Definition latin1_isalnum (c : N) : bool :=
  in_range 48 57 c || in_range 65 90 c || in_range 97 122 c
  || (c =? 170)%N || (c =? 178)%N || (c =? 179)%N || (c =? 181)%N
  || (c =? 185)%N || (c =? 186)%N || in_range 188 190 c
  || in_range 192 214 c || in_range 216 246 c || in_range 248 255 c.

Definition latin1_lower1 (c : N) : N :=
  if in_range 65 90 c || in_range 192 214 c || in_range 216 222 c
  then (c + 32)%N else c.

Definition latin1 : Unicode := {|
  isspace := latin1_isspace;
  todecimal := latin1_todecimal;
  isalnum := latin1_isalnum;
  lower := map latin1_lower1;
  lower1 := latin1_lower1
|}.

(** ** String methods *)
Module Str.
Section WithUnicode.
Context (U : Unicode).

(** [s.lstrip()], [s.rstrip()], [s.strip()] with no argument. *)
Fixpoint lstrip (s : pystr) : pystr :=
  match s with
  | c :: s' => if isspace U c then lstrip s' else s
  | [] => []
  end.

Definition rstrip (s : pystr) : pystr := rev (lstrip (rev s)).

Definition strip (s : pystr) : pystr := rstrip (lstrip s).
End WithUnicode.

(** [s.split(sep)] for a one-character separator. *)
Fixpoint split (sep : N) (s : pystr) : list pystr :=
  match s with
  | [] => [[]]
  | c :: s' =>
    if (c =? sep)%N then [] :: split sep s'
    else match split sep s' with
         | h :: t => (c :: h) :: t
         | [] => [[c]]
         end
  end.

(** [s.startswith(p)] *)
Fixpoint startswith (p s : pystr) : bool :=
  match p, s with
  | [], _ => true
  | a :: p', b :: s' => (a =? b)%N && startswith p' s'
  | _ :: _, [] => false
  end.

(** [sub in s] *)
Fixpoint contains (sub s : pystr) : bool :=
  startswith sub s ||
  match s with
  | [] => false
  | _ :: s' => contains sub s'
  end.

(** The [count] argument of [replace]: [None] is "all occurrences". *)
Definition exhausted (count : option nat) : bool :=
  match count with Some O => true | _ => false end.

Definition one_less (count : option nat) : option nat :=
  match count with Some n => Some (Nat.pred n) | None => None end.

(** [s.replace(old, new, count)] for a non-empty [old]: occurrences
    are found left to right and do not overlap.  [skip] counts the
    characters of the occurrence just replaced that are still to be
    passed over. *)
Fixpoint replace_go (old new : pystr) (count : option nat) (skip : nat)
         (s : pystr) : pystr :=
  match s with
  | [] => []
  | c :: s' =>
    match skip with
    | S k => replace_go old new count k s'
    | O =>
      if exhausted count then s
      else if startswith old s
           then new ++ replace_go old new (one_less count)
                                  (Nat.pred (length old)) s'
           else c :: replace_go old new count 0 s'
    end
  end.

(** With an empty [old], Python inserts [new] before every character
    and at the end. *)
Fixpoint replace_empty (new : pystr) (count : option nat) (s : pystr)
  : pystr :=
  if exhausted count then s
  else new ++ match s with
              | [] => []
              | c :: s' => c :: replace_empty new (one_less count) s'
              end.

Definition replace (old new : pystr) (count : option nat) (s : pystr)
  : pystr :=
  match old with
  | [] => replace_empty new count s
  | _ :: _ => replace_go old new count 0 s
  end.

(** [s.splitlines()]: the line boundaries of [str.splitlines]; a CR
    followed by LF is one boundary, and there is no empty last line. *)
Definition linebreak (c : N) : bool :=
  in_range 10 13 c || in_range 28 30 c || (c =? 133)%N
  || (c =? 8232)%N || (c =? 8233)%N.

Fixpoint splitlines_go (skip_lf : bool) (cur : pystr) (s : pystr)
  : list pystr :=
  match s with
  | [] => match cur with [] => [] | _ :: _ => [rev cur] end
  | c :: s' =>
    if skip_lf && (c =? 10)%N then splitlines_go false cur s'
    else if linebreak c then rev cur :: splitlines_go (c =? 13)%N [] s'
    else splitlines_go false (c :: cur) s'
  end.

Definition splitlines (s : pystr) : list pystr := splitlines_go false [] s.

(** [sep.join(items)] *)
Fixpoint join (sep : pystr) (items : list pystr) : pystr :=
  match items with
  | [] => []
  | [x] => x
  | x :: rest => x ++ sep ++ join sep rest
  end.

(** Truth value of a string: non-empty. *)
Definition truthy (s : pystr) : bool :=
  match s with [] => false | _ :: _ => true end.
End Str.

(* ================================================================= *)
(** * Exceptions *)
(* ================================================================= *)

(** The exception classes the programs raise, catch or let through.
    [OtherException] is any other subclass of [Exception]. *)
Inductive exn_class : Type :=
| WebDriverException
| TimeoutException
| StaleElementReferenceException
| NoSuchElementException
| JavascriptException
| IndexError
| KeyError
| OtherException.

(** An exception object; [exn_msg] is what [str(e)] returns. *)
Record exn : Type := { exn_cls : exn_class; exn_msg : pystr }.

(** [isinstance(e, WebDriverException)]: the Selenium classes derive
    from it. *)
Definition is_webdriver (e : exn) : bool :=
  match exn_cls e with
  | WebDriverException | TimeoutException | StaleElementReferenceException
  | NoSuchElementException | JavascriptException => true
  | _ => false
  end.

Definition is_class (c : exn_class) (e : exn) : bool :=
  match c, exn_cls e with
  | WebDriverException, _ => is_webdriver e
  | TimeoutException, TimeoutException
  | StaleElementReferenceException, StaleElementReferenceException
  | NoSuchElementException, NoSuchElementException
  | JavascriptException, JavascriptException
  | IndexError, IndexError
  | KeyError, KeyError
  | OtherException, OtherException => true
  | _, _ => false
  end.

(** The outcome of a call: a value, or an exception on its way up. *)
Inductive result (A : Type) : Type :=
| Ok (a : A)
| Raise (e : exn).
Arguments Ok {A} a.
Arguments Raise {A} e.

#[global] Instance result_ret : MRet result := fun A a => Ok a.
#[global] Instance result_bind : MBind result := fun A B f m =>
  match m with Ok a => f a | Raise e => Raise e end.

(* ================================================================= *)
(** * Regular expressions *)
(* ================================================================= *)

(** The one pattern the repository compiles is a sequence of word
    boundaries and greedy repetitions of a character class, some of them
    capturing.  [Re] is a backtracking matcher for such sequences, with
    the leftmost-first, greedy semantics of [re.search]. *)
Module Re.
Inductive atom : Type :=
| WordBoundary                       (* \b *)
| Rep (cls : N -> bool) (lo : nat) (hi : option nat) (capture : bool).
                                     (* cls{lo,hi}, in a group or not *)

Abbreviation pattern := (list atom) (only parsing).

(** A match object: the span of the match and of each group. *)
Record match_obj : Type := {
  m_span : nat * nat;
  m_groups : list (nat * nat)
}.

(** Length of the longest prefix of [s] inside the class. *)
Fixpoint run (cls : N -> bool) (s : pystr) : nat :=
  match s with
  | c :: s' => if cls c then S (run cls s') else 0
  | [] => 0
  end.

(** Greedy choice with backtracking: the counts [n], [n-1], ..., [lo]
    are tried in this order. *)
Fixpoint try_down {A} (k : nat -> option A) (lo n : nat) : option A :=
  if n <? lo then None
  else match k n with
       | Some r => Some r
       | None => match n with
                 | O => None
                 | S n' => try_down k lo n'
                 end
       end.

Section WithUnicode.
Context (U : Unicode).

(** [\w]: alphanumeric or underscore. *)
Definition word (c : N) : bool := isalnum U c || (c =? 95)%N.
(** [\d] *)
Definition digit (c : N) : bool := bool_decide (is_Some (todecimal U c)).
(** [\s] *)
Definition space (c : N) : bool := isspace U c.

Definition word_at (s : pystr) (i : nat) : bool :=
  match s !! i with Some c => word c | None => false end.

(** [\b] at position [i]: exactly one side is a word character; the
    outside of the string is not. *)
Definition boundary (s : pystr) (i : nat) : bool :=
  xorb (match i with O => false | S j => word_at s j end) (word_at s i).

Fixpoint match_here (p : pattern) (s : pystr) (i : nat)
         (caps : list (nat * nat)) : option (nat * list (nat * nat)) :=
  match p with
  | [] => Some (i, rev caps)
  | WordBoundary :: p' =>
    if boundary s i then match_here p' s i caps else None
  | Rep cls lo hi capture :: p' =>
    let avail := run cls (drop i s) in
    let top := match hi with Some h => Nat.min h avail | None => avail end in
    try_down
      (fun n => match_here p' s (i + n)
                  (if capture then (i, i + n) :: caps else caps))
      lo top
  end.

(** Start positions are tried from left to right. *)
Fixpoint search_from (p : pattern) (s : pystr) (fuel i : nat)
  : option match_obj :=
  match match_here p s i [] with
  | Some (e, gs) => Some {| m_span := (i, e); m_groups := gs |}
  | None => match fuel with
            | O => None
            | S fuel' => search_from p s fuel' (S i)
            end
  end.

(** [re.search(p, s)] *)
Definition search (p : pattern) (s : pystr) : option match_obj :=
  search_from p s (length s) 0.

(** Under [re.IGNORECASE] a lower-case literal [ch] matches [c] when
    the lower case of [c] is [ch] or one of the extra cases that
    [re._casefix] lists for [ch]; among the ASCII letters these exist
    for [i] (dotless i) and [s] (long s). *)
Definition extra_cases (ch : N) : list N :=
  if (ch =? 105)%N then [305%N]
  else if (ch =? 115)%N then [383%N]
  else [].

Definition ci_char (ch c : N) : bool :=
  bool_decide (lower1 U c ∈ ch :: extra_cases ch).

Fixpoint ci_startswith (lit s : pystr) : bool :=
  match lit, s with
  | [], _ => true
  | ch :: lit', c :: s' => ci_char ch c && ci_startswith lit' s'
  | _ :: _, [] => false
  end.

(** [re.search(lit, s, re.IGNORECASE) is not None] for a pattern [lit]
    of lower-case ASCII letters. *)
Fixpoint ci_contains (lit s : pystr) : bool :=
  ci_startswith lit s ||
  match s with
  | [] => false
  | _ :: s' => ci_contains lit s'
  end.
End WithUnicode.

(** Every position of [a, b) holds a character of the class. *)
Definition all_in (cls : N -> bool) (s : pystr) (a b : nat) : Prop :=
  forall j, a <= j < b -> exists c, s !! j = Some c /\ cls c = true.

Definition slice (s : pystr) (span : nat * nat) : pystr :=
  take (snd span - fst span) (drop (fst span) s).

(** [m.group(k)] for [k >= 1], on the string [s] that was searched. *)
Definition group (s : pystr) (m : match_obj) (k : nat) : pystr :=
  match m_groups m !! (k - 1) with
  | Some span => slice s span
  | None => []
  end.
End Re.

(* ================================================================= *)
(** * post_processing.py *)
(* ================================================================= *)

Module post_processing.

Record address_parts : Type := {
  Strasse : option pystr;
  PLZ : option pystr;
  Ort : option pystr
}.

(** A data frame: the rows with their index labels, in order. *)
Abbreviation frame row := (list (nat * row)) (only parsing).

(** The class [[A-Za-zÄÖÜäöüß\.\- ]] of the pattern. *)
Definition city_char (c : N) : bool :=
  in_range 65 90 c || in_range 97 122 c
  || bool_decide (c ∈ py "ÄÖÜäöüß.- ").

Section WithUnicode.
Context (U : Unicode).

(** [pat = r"\b(\d{4,5})\s+([A-Za-zÄÖÜäöüß\.\- ]+)\b"] *)
Definition pat : Re.pattern :=
  [ Re.WordBoundary;
    Re.Rep (Re.digit U) 4 (Some 5) true;
    Re.Rep (Re.space U) 1 None false;
    Re.Rep city_char 1 None true;
    Re.WordBoundary ].

Definition comma : N := 44.

(** [[p.strip() for p in addr.split(",") if p.strip()]] *)
Definition parts_of (addr : pystr) : list pystr :=
  List.filter Str.truthy (map (Str.strip U) (Str.split comma addr)).

(** Line 21: where the postal code and the city are looked for first. *)
Definition plz_ort_source (addr : pystr) : pystr :=
  let parts := parts_of addr in
  let street := head parts in
  match parts !! 1 with
  | Some p => p
  | None =>
    match street with
    | Some ((_ :: _) as st) => Str.replace st [] (Some 1) addr
    | _ => addr
    end
  end.

(** Lines 26-36 on a string that was searched with success. *)
Definition plz_ort_of (source : pystr) (m : Re.match_obj)
  : option pystr * option pystr :=
  (Some (Str.strip U (Re.group source m 1)),
   Some (Str.strip U (Re.group source m 2))).

(** [extract_address_parts]; [None] stands for a [None] or NaN cell. *)
Definition extract_address_parts (addr : option pystr) : address_parts :=
  match addr with
  | None => {| Strasse := None; PLZ := None; Ort := None |}
  | Some addr =>
    let street := head (parts_of addr) in
    let source := plz_ort_source addr in
    let '(plz, ort) :=
      match Re.search U pat source with
      | Some m => plz_ort_of source m
      | None =>
        match Re.search U pat addr with
        | Some m2 => plz_ort_of addr m2
        | None => (None, None)
        end
      end in
    {| Strasse := street; PLZ := plz; Ort := ort |}
  end.

(** The parser as the specification words it, for comparison: the
    comma segments are trimmed and none is left out, the street is
    segment 0 and the preferred source is segment 1 if present, else
    the address with the street removed once. *)
Definition trimmed_segments (addr : pystr) : list pystr :=
  map (Str.strip U) (Str.split comma addr).

Definition extract_address_parts_as_worded (addr : pystr) : address_parts :=
  let segments := trimmed_segments addr in
  let street := head segments in
  let source :=
    match segments !! 1 with
    | Some p => p
    | None => Str.replace (default [] street) [] (Some 1) addr
    end in
  let '(plz, ort) :=
    match Re.search U pat source with
    | Some m => plz_ort_of source m
    | None =>
      match Re.search U pat addr with
      | Some m2 => plz_ort_of addr m2
      | None => (None, None)
      end
    end in
  {| Strasse := street; PLZ := plz; Ort := ort |}.

(** *** What a match is

    The matches of the pattern, said without the matcher. *)
(** What a match of the pattern of [extract_address_parts] is: the
    digits lie in [i, b), white space in [b, c), the city in [c, e),
    with a word boundary at both ends. *)
Record plz_ort_match (s : pystr) (i b c e : nat) : Prop := {
  pm_start : Re.boundary U s i = true;
  pm_count : 4 <= b - i <= 5;
  pm_digits : Re.all_in (Re.digit U) s i b;
  pm_space : b < c /\ Re.all_in (Re.space U) s b c;
  pm_city : c < e /\ Re.all_in city_char s c e;
  pm_end : Re.boundary U s e = true
}.

(** The first match of the pattern in [s] gives [plz] and [ort]: the
    match starts at the leftmost position where the pattern matches, and
    the two groups are trimmed. *)
Definition first_match (s plz ort : pystr) : Prop :=
  exists m i b c e,
    Re.search U pat s = Some m /\
    Re.m_groups m = [(i, b); (c, e)] /\
    plz_ort_match s i b c e /\
    (forall i' b' c' e', i' < i -> ~ plz_ort_match s i' b' c' e') /\
    plz = Str.strip U (Re.slice s (i, b)) /\
    ort = Str.strip U (Re.slice s (c, e)).

(** The pattern matches nowhere in [s]. *)
Definition no_match (s : pystr) : Prop :=
  forall i b c e, ~ plz_ort_match s i b c e.

(** *** The data frames of [main]

    A row of the extractor's CSV as [read_csv] returns it: a text cell
    is a string or NaN ([None]), a coordinate is a float (NaN when the
    cell is empty).  A column that the CSV lacks reads as a column of
    NA: this is what the guards [in df.columns] and [ensure_columns]
    amount to. *)
Record in_row : Type := {
  in_Datum : option pystr;
  in_Liga : option pystr;
  in_Typ : option pystr;
  in_Runde : option pystr;
  in_Heim : option pystr;
  in_Gast : option pystr;
  in_Heim_Link : option pystr;
  in_Gast_Link : option pystr;
  in_Spielort_Name : option pystr;
  in_Adresse : option pystr;
  in_Latitude : float;
  in_Longitude : float;
  in_Quelle : option pystr;
  in_link : option pystr;
  in_error : option pystr
}.

(** A row of the output frames, with the columns [wanted_cols]. *)
Record out_row : Type := {
  Datum : option Z;                  (* a timestamp, or NaT *)
  Liga : option pystr;
  Typ : option pystr;
  Runde : option pystr;
  Heim : option pystr;
  Gast : option pystr;
  Spielort_Name : option pystr;
  o_Strasse : option pystr;
  o_PLZ : option pystr;
  o_Ort : option pystr;
  Latitude : float;
  Longitude : float;
  Quelle : option pystr
}.

(** [pd.read_csv]: the index is [0 .. n-1]. *)
Definition read_csv (rows : list in_row) : frame in_row :=
  zip (seq 0 (length rows)) rows.

(** [Series.replace(mapping)]: a cell equal to a key becomes its
    value. *)
Fixpoint replace_cell (mapping : list (pystr * pystr)) (cell : option pystr)
  : option pystr :=
  match cell, mapping with
  | Some v, (k, v') :: rest =>
    if pystr_eqb v k then Some v' else replace_cell rest cell
  | _, _ => cell
  end.

Definition liga_map : list (pystr * pystr) :=
  [ (py "Österreichische Fußball-Bundesliga", py "ADMIRAL Bundesliga") ].

Definition typ_map : list (pystr * pystr) :=
  [ (py "Mann", py "Männer"); (py "Frau", py "Frauen") ].

Definition normalize (r : in_row) : in_row :=
  {| in_Datum := in_Datum r;
     in_Liga := replace_cell liga_map (in_Liga r);
     in_Typ := replace_cell typ_map (in_Typ r);
     in_Runde := in_Runde r; in_Heim := in_Heim r; in_Gast := in_Gast r;
     in_Heim_Link := in_Heim_Link r; in_Gast_Link := in_Gast_Link r;
     in_Spielort_Name := in_Spielort_Name r; in_Adresse := in_Adresse r;
     in_Latitude := in_Latitude r; in_Longitude := in_Longitude r;
     in_Quelle := in_Quelle r; in_link := in_link r;
     in_error := in_error r |}.

(** [df["Ort"].str.contains("wien", case=False, na=False)] on a cell. *)
Definition contains_wien (ort : option pystr) : bool :=
  match ort with
  | Some o => Re.ci_contains U (py "wien") o
  | None => false
  end.

Definition isna (f : float) : bool := PrimFloat.is_nan f.

(** The manual correction of line 107. *)
Definition gersthof_lat : float := 48.225324870552456%float.
Definition gersthof_lon : float := 16.328420452719126%float.

(** [df_out["Heim"] == "Gersthofer SV"] on a row. *)
Definition mask_gersthof (r : out_row) : bool :=
  match Heim r with
  | Some h => pystr_eqb h (py "Gersthofer SV")
  | None => false
  end.

Definition set_coordinates (lat lon : float) (r : out_row) : out_row :=
  {| Datum := Datum r; Liga := Liga r; Typ := Typ r; Runde := Runde r;
     Heim := Heim r; Gast := Gast r; Spielort_Name := Spielort_Name r;
     o_Strasse := o_Strasse r; o_PLZ := o_PLZ r; o_Ort := o_Ort r;
     Latitude := lat; Longitude := lon; Quelle := Quelle r |}.

(** The two libraries' functions that [main] leaves to pandas:
    [pd.to_datetime(column, errors="coerce")], which may look at the
    whole column to choose a format and gives one timestamp or NaT per
    cell, and [DataFrame.sort_values("Datum")]. *)
Context (to_datetime : list (option pystr) -> option pystr -> option Z).
Context (sort_values : frame out_row -> frame out_row).

(** [df_wien[wanted_cols]] of a row with its parsed address, and the
    conversion of its [Datum] cell. *)
Definition project (datum_column : list (option pystr))
           (r : in_row * address_parts) : out_row :=
  {| Datum := to_datetime datum_column (in_Datum r.1);
     Liga := in_Liga r.1; Typ := in_Typ r.1; Runde := in_Runde r.1;
     Heim := in_Heim r.1; Gast := in_Gast r.1;
     Spielort_Name := in_Spielort_Name r.1;
     o_Strasse := Strasse r.2; o_PLZ := PLZ r.2; o_Ort := Ort r.2;
     Latitude := in_Latitude r.1; Longitude := in_Longitude r.1;
     Quelle := in_Quelle r.1 |}.

(** Lines 104-107. *)
Definition korrekturen (df_out : frame out_row) : frame out_row :=
  if existsb (fun ir => mask_gersthof ir.2) df_out
  then map (fun ir =>
              if mask_gersthof ir.2
              then (ir.1, set_coordinates gersthof_lat gersthof_lon ir.2)
              else ir) df_out
  else df_out.

(** The two frames that [main] writes: [(df_out, df_nan)].

    On a CSV without data rows [Series.apply] returns an empty Series
    instead of a frame with the three address columns, and
    [df["Ort"]] raises [KeyError]. *)
Definition main (rows : list in_row)
  : result (frame out_row * frame out_row) :=
  let df := read_csv rows in
  let df := map (fun ir => (ir.1, normalize ir.2)) df in
  match df with
  | [] => Raise {| exn_cls := KeyError; exn_msg := py "'Ort'" |}
  | _ :: _ =>
    let df := map (fun ir =>
                     (ir.1, (ir.2, extract_address_parts (in_Adresse ir.2))))
                  df in
    let df_wien := List.filter (fun ir => contains_wien (Ort ir.2.2)) df in
    let datum_column := map (fun ir => in_Datum ir.2.1) df_wien in
    let df_out := map (fun ir => (ir.1, project datum_column ir.2)) df_wien in
    let df_out := sort_values df_out in
    let df_out := korrekturen df_out in
    let df_nan :=
      List.filter (fun ir => isna (Latitude ir.2) && isna (Longitude ir.2))
                  df_out in
    Ok (df_out, df_nan)
  end.

(** *** The parts of [main], named

    The frame after address parsing (line 85), the filter of line 89,
    the correction of one row and the test of line 110. *)
Definition parsed (rows : list in_row) : frame (in_row * address_parts) :=
  map (fun ir => (ir.1, (ir.2, extract_address_parts (in_Adresse ir.2))))
      (map (fun ir => (ir.1, normalize ir.2)) (read_csv rows)).

Definition in_wien (ir : nat * (in_row * address_parts)) : bool :=
  contains_wien (Ort ir.2.2).

Definition corrected (ir : nat * out_row) : nat * out_row :=
  if mask_gersthof ir.2
  then (ir.1, set_coordinates gersthof_lat gersthof_lon ir.2)
  else ir.

Definition no_coordinates (ir : nat * out_row) : bool :=
  isna (Latitude ir.2) && isna (Longitude ir.2).

(** The rows kept by the filter of line 89, the [Datum] column that
    [to_datetime] is given, and the output row of an input row. *)
Definition wien_rows (rows : list in_row) : frame (in_row * address_parts) :=
  List.filter in_wien (parsed rows).

Definition datum_column (rows : list in_row) : list (option pystr) :=
  map (fun ir => in_Datum ir.2.1) (wien_rows rows).

Definition output_row (rows : list in_row) (row0 : in_row) : out_row :=
  project (datum_column rows)
          (normalize row0, extract_address_parts (in_Adresse row0)).

End WithUnicode.

(** A stable sort by [Datum] with NaT last, the order of
    [sort_values("Datum")] up to the order of rows with equal dates. *)
Definition datum_le (a b : option Z) : bool :=
  match a, b with
  | Some x, Some y => (x <=? y)%Z
  | Some _, None => true
  | None, Some _ => false
  | None, None => true
  end.

Fixpoint insert_by_Datum (x : nat * out_row) (l : frame out_row)
  : frame out_row :=
  match l with
  | [] => [x]
  | y :: l' =>
    if datum_le (Datum x.2) (Datum y.2) then x :: l
    else y :: insert_by_Datum x l'
  end.

Definition sort_by_Datum (l : frame out_row) : frame out_row :=
  foldr insert_by_Datum [] l.

(** ** [ensure_columns]

    A frame as [ensure_columns] sees it: the number of rows and the
    columns in order, each with its label and its cells. *)
Inductive cell : Type :=
| NA                                 (* pd.NA *)
| Value (v : pystr).






End post_processing.

(* ================================================================= *)
(** * create_martiball_json.py *)
(* ================================================================= *)

Module create_martiball_json.

(** The values a cell of a row can hold after [read_csv] and the date
    conversion of [main]: [None] (also what [row.get] gives for a
    column the CSV lacks), a string, an integer, a float (NaN for an
    empty cell) or a timestamp ([PyTimestamp None] is NaT). *)
Inductive pyval : Type :=
| PyNone
| PyStr (s : pystr)
| PyInt (z : Z)
| PyFloat (f : float)
| PyTimestamp (t : option Z).

(** A row: a [Series] indexed by column name. *)
Abbreviation row := (gmap string pyval) (only parsing).

(** [row.get(col)] *)
Definition get (r : row) (col : string) : pyval := default PyNone (r !! col).

(** [bool(v)]: NaN is not zero, hence true. *)
Definition truthy (v : pyval) : bool :=
  match v with
  | PyNone => false
  | PyStr s => Str.truthy s
  | PyInt z => negb (z =? 0)%Z
  | PyFloat f => negb (PrimFloat.eqb f 0%float)
  | PyTimestamp _ => true
  end.

(** [v or ""] *)
Definition or_empty (v : pyval) : pyval :=
  if truthy v then v else PyStr [].

(** [pd.isna(v)] on a scalar. *)
Definition isna (v : pyval) : bool :=
  match v with
  | PyNone => true
  | PyFloat f => PrimFloat.is_nan f
  | PyTimestamp None => true
  | _ => false
  end.

(** The record built for one row. *)
Record record : Type := {
  Spieldatum : option pystr;
  Heimmannschaft : pystr;
  Gastmannschaft : pystr;
  Typ : pystr;
  Liga : pystr;
  Spielort : pystr;
  Spielort_Strasse : pystr;
  Spielort_PLZ : option Z;
  Spielort_Ort : pystr;
  Latitude : option float;
  Longitude : option float
}.

Section WithRuntime.
Context (U : Unicode).
(** Conversions of the Python and pandas runtime that the emitter
    calls: [repr] of a float that is not NaN, [str] of a timestamp,
    [float] of an integer and of a string (failing with an
    exception), [pd.to_datetime(v, errors="coerce")] and
    [strftime("%Y-%m-%dT%H:%M:%S")]. *)
Context (float_repr : float -> pystr).
Context (timestamp_str : option Z -> pystr).
Context (float_of_int : Z -> option float).
Context (float_of_str : pystr -> option float).
Context (to_datetime : pyval -> option Z).
Context (strftime : Z -> pystr).

(** [str(v)] *)
Definition str (v : pyval) : pystr :=
  match v with
  | PyNone => py "None"
  | PyStr s => s
  | PyInt z => py (DecimalString.NilZero.string_of_int (Z.to_int z))
  | PyFloat f => if PrimFloat.is_nan f then py "nan" else float_repr f
  | PyTimestamp t => timestamp_str t
  end.

(** The digits of [int(s)]: decimal digits, single underscores
    between them. *)
Fixpoint int_digits (acc : Z) (after_digit : bool) (s : pystr) : option Z :=
  match s with
  | [] => if after_digit then Some acc else None
  | c :: s' =>
    match todecimal U c with
    | Some d => int_digits (acc * 10 + d)%Z true s'
    | None =>
      if (c =? 95)%N && after_digit then
        match s' with
        | [] => None
        | _ :: _ => int_digits acc false s'
        end
      else None
    end
  end.

(** [int(s)]; [None] when it raises [ValueError]. *)
Definition int_of_str (s : pystr) : option Z :=
  match Str.strip U s with
  | 43%N :: ds => int_digits 0 false ds
  | 45%N :: ds => Z.opp <$> int_digits 0 false ds
  | ds => int_digits 0 false ds
  end.

Definition to_float_or_none (v : pyval) : option float :=
  let x := match v with
           | PyFloat f => Some f
           | PyInt z => float_of_int z
           | PyStr s => float_of_str s
           | PyNone | PyTimestamp _ => None
           end in
  match x with
  | Some f => if PrimFloat.is_nan f then None else Some f
  | None => None
  end.

Definition to_int_or_none (v : pyval) : option Z :=
  if isna v then None
  else int_of_str (Str.strip U (str v)).

(** [(row.get(c) or "") if isinstance(row.get(c), str)
     else str(row.get(c) or "")] *)
Definition text_field (r : row) (col : string) : pystr :=
  match get r col with
  | PyStr s => if Str.truthy s then s else []
  | v => str (or_empty v)
  end.

Definition build_record (r : row) : record :=
  let dt := to_datetime (get r "Datum") in
  {| Spieldatum := strftime <$> dt;
     Heimmannschaft := text_field r "Heim";
     Gastmannschaft := text_field r "Gast";
     Typ := text_field r "Typ";
     Liga := text_field r "Liga";
     Spielort := text_field r "Spielort_Name";
     Spielort_Strasse := text_field r "Straße";
     Spielort_PLZ := to_int_or_none (get r "PLZ");
     Spielort_Ort := text_field r "Ort";
     Latitude := to_float_or_none (get r "Latitude");
     Longitude := to_float_or_none (get r "Longitude") |}.
End WithRuntime.

End create_martiball_json.

(* ================================================================= *)
(** * game_miner_parallel.py *)
(* ================================================================= *)

Module game_miner_parallel.

(** ** The in-page data *)

(** A JavaScript value, as far as the two scripts look at it. *)
Inductive jsval : Type :=
| JUndefined
| JNull
| JBool (b : bool)
| JNumber (f : float)
| JString (s : pystr)
| JArray (items : list jsval)
| JObject (props : list (pystr * jsval)).   (* in enumeration order *)

(** What a script finds at [window.SG.container]: [None] when [SG] or
    [SG.container] is missing, else the value of [appPreloads]. *)
Abbreviation page := (option jsval) (only parsing).

(** [!!v] *)
Definition js_truthy (v : jsval) : bool :=
  match v with
  | JUndefined | JNull => false
  | JBool b => b
  | JNumber f => negb (PrimFloat.eqb f 0%float || PrimFloat.is_nan f)
  | JString s => Str.truthy s
  | JArray _ | JObject _ => true
  end.

(** [v.name] on a value that is neither null nor undefined. *)
Definition prop (name : pystr) (v : jsval) : jsval :=
  match v with
  | JObject props =>
    match List.find (fun kv => pystr_eqb kv.1 name) props with
    | Some kv => kv.2
    | None => JUndefined
    end
  | _ => JUndefined
  end.

(** The values [ap[k]] that [for (const k in ap)] visits. *)
Definition for_in (ap : jsval) : list jsval :=
  match ap with
  | JObject props => map snd props
  | JArray items => items
  | JString s => map (fun c => JString [c]) s
  | _ => []
  end.

(** [Array.isArray(v) ? v : [v]] *)
Definition as_array (v : jsval) : list jsval :=
  match v with
  | JArray items => items
  | _ => [v]
  end.

(** [window.SG?.container?.appPreloads] *)
Definition optional_chain (p : page) : jsval := default JUndefined p.

(** The test of lines 33-34 and 46-47 on one [obj]: both coordinates
    are numbers and they are not both zero.  The pair is
    [(latitude, longitude)]. *)
Definition coordinates_of (obj : jsval) : option (float * float) :=
  if js_truthy obj then
    match prop (py "longitude") obj, prop (py "latitude") obj with
    | JNumber lon, JNumber lat =>
      if negb (PrimFloat.eqb lon 0%float && PrimFloat.eqb lat 0%float)
      then Some (lat, lon) else None
    | _, _ => None
    end
  else None.

(** The first [Some] that [f] gives along a list: a loop left by
    [return]. *)
Fixpoint first_some {A B} (f : A -> option B) (l : list A) : option B :=
  match l with
  | [] => None
  | x :: l' => match f x with Some y => Some y | None => first_some f l' end
  end.

(** The script of the wait, lines 27-39. *)
Definition coordinates_ready (p : page) : bool :=
  let ap := optional_chain p in
  if negb (js_truthy ap) then false
  else bool_decide (is_Some
         (first_some (fun v => first_some coordinates_of (as_array v))
                     (for_in ap))).

(** The script of lines 41-54; [None] is [null]. *)
Definition read_coordinates (p : page) : option (float * float) :=
  let ap := optional_chain p in
  let ap := if js_truthy ap then ap else JObject [] in
  first_some (fun v => first_some coordinates_of (as_array v)) (for_in ap).

(** The coordinate entries of a page: the pairs [(latitude, longitude)]
    of the visited objects that have both as numbers. *)
Definition numeric_pair (obj : jsval) : option (float * float) :=
  match prop (py "latitude") obj, prop (py "longitude") obj with
  | JNumber lat, JNumber lon => Some (lat, lon)
  | _, _ => None
  end.

Definition coordinate_entries (p : page) : list (float * float) :=
  flat_map (fun v => omap numeric_pair (as_array v))
           (for_in (optional_chain p)).

(** The pair is exactly (0, 0), as [===] sees it. *)
Definition origin (latlon : float * float) : bool :=
  PrimFloat.eqb latlon.1 0%float && PrimFloat.eqb latlon.2 0%float.

(** All the coordinate entries of the page are (0, 0). *)
Definition only_origin (p : page) : bool :=
  forallb origin (coordinate_entries p).

(** ECMAScript white space and line terminators, for [trim]. *)
Definition js_space (c : N) : bool :=
  in_range 9 13 c || (c =? 32)%N || (c =? 160)%N || (c =? 5760)%N
  || in_range 8192 8202 c || (c =? 8232)%N || (c =? 8233)%N
  || (c =? 8239)%N || (c =? 8287)%N || (c =? 12288)%N || (c =? 65279)%N.

(** [typeof obj.bewerb === 'string' && obj.bewerb.trim()] *)
Definition bewerb_of (obj : jsval) : option pystr :=
  if js_truthy obj then
    match prop (py "bewerb") obj with
    | JString b => if forallb js_space b then None else Some b
    | _ => None
    end
  else None.

(** ** The browser session

    What one browser session does while [mine_game] drives it.  Every
    Selenium call can raise; its entry is the value it returns or the
    exception it raises. *)
Record anchor : Type := {
  a_title : result (option pystr);     (* get_attribute("title") *)
  a_text : result pystr;               (* .text *)
  a_href : result (option pystr)       (* get_attribute("href") *)
}.

Record place_block : Type := {
  b_h4 : result pystr;                 (* find_element(h4).text *)
  b_h5 : result pystr;                 (* find_element(h5.highlight).text *)
  b_text : result pystr                (* .text *)
}.

Record session : Type := {
  s_open : result unit;                (* open_driver *)
  s_get : nat -> result unit;          (* driver.get, i-th attempt *)
  s_container : result unit;           (* wait for the detail container *)
  s_round : result pystr;              (* find_element(".round").text *)
  s_date : result pystr;               (* find_element(".date").text *)
  s_teams_first : result (list anchor);
  s_teams_wait : result unit;          (* wait for two team links *)
  s_teams_second : result (list anchor);
  s_spielbeginn : result pystr;        (* the span after "Spielbeginn:" *)
  s_place_blocks : result (list place_block);
  s_script : nat -> result page;       (* n-th execute_script of the session *)
  s_polls_bewerb : nat;                (* further polls of a 20 s wait *)
  s_polls_coordinates : nat;
  s_quit : result unit                 (* driver.quit *)
}.

Definition timeout : exn :=
  {| exn_cls := TimeoutException; exn_msg := py "Message: " |}.

(** [WebDriverWait(driver, t).until(cond)] over the scripts: [cond] is
    evaluated at once and then up to [polls] more times until the
    clock runs out.  [n] counts the scripts run so far.  The wait
    ignores [NoSuchElementException] and lets any other through. *)
Fixpoint until (s : session) (cond : page -> bool) (polls n : nat)
  : result unit * nat :=
  let again :=
    match polls with
    | O => (Raise timeout, S n)
    | S polls' => until s cond polls' (S n)
    end in
  match s_script s n with
  | Ok p => if cond p then (Ok tt, S n) else again
  | Raise e =>
    if is_class NoSuchElementException e then again else (Raise e, S n)
  end.

(** [get_coordinates]: everything after [driver = container.parent] is
    inside [try ... except Exception: return None, None]. *)
Definition get_coordinates (s : session) (n : nat)
  : (option float * option float) * nat :=
  match until s coordinates_ready (s_polls_coordinates s) n with
  | (Ok _, n1) =>
    match s_script s n1 with
    | Ok p =>
      match read_coordinates p with
      | Some (lat, lon) => ((Some lat, Some lon), S n1)
      | None => ((None, None), S n1)
      end
    | Raise _ => ((None, None), S n1)
    end
  | (Raise _, n1) => ((None, None), n1)
  end.

(** The session that goes like [s] until [n] scripts have run, and
    whose later scripts and coordinate polls are [scripts] and [polls]. *)
Definition with_coordinate_scripts (s : session) (n : nat)
           (scripts : nat -> result page) (polls : nat) : session :=
  {| s_open := s_open s; s_get := s_get s; s_container := s_container s;
     s_round := s_round s; s_date := s_date s;
     s_teams_first := s_teams_first s; s_teams_wait := s_teams_wait s;
     s_teams_second := s_teams_second s; s_spielbeginn := s_spielbeginn s;
     s_place_blocks := s_place_blocks s;
     s_script := fun k => if k <? n then s_script s k else scripts k;
     s_polls_bewerb := s_polls_bewerb s;
     s_polls_coordinates := polls;
     s_quit := s_quit s |}.

Definition javascript_error : exn :=
  {| exn_cls := JavascriptException;
     exn_msg := py "Message: javascript error" |}.

(** [get_bewerb]: nothing is caught here. *)
Definition get_bewerb (s : session) (n : nat)
  : result (option pystr) * nat :=
  match until s (fun p => js_truthy (optional_chain p))
              (s_polls_bewerb s) n with
  | (Ok _, n1) =>
    match s_script s n1 with
    | Ok (Some ap) =>
      let ap := if js_truthy ap then ap else JObject [] in
      (Ok (first_some (fun v => first_some bewerb_of (as_array v))
                      (for_in ap)), S n1)
    | Ok None => (Raise javascript_error, S n1)
    | Raise e => (Raise e, S n1)
    end
  | (Raise e, n1) => (Raise e, n1)
  end.

(** [safe_get]: attempts [i], [i+1], ...; [left] are still allowed. *)
Fixpoint safe_get_from (s : session) (left i : nat) : result unit :=
  match left with
  | O => Ok tt
  | S left' =>
    match s_get s i with
    | Ok _ => Ok tt
    | Raise e =>
      if is_webdriver e then
        match left' with
        | O => Raise e
        | S _ => safe_get_from s left' (S i)
        end
      else Raise e
    end
  end.

Definition safe_get (s : session) (attempts : nat) : result unit :=
  safe_get_from s attempts 1.

(** [normalize_link] *)
Definition normalize_link (u : pystr) : pystr :=
  Str.replace (py "/Spielbericht/") (py "/") None u.

(** A row of the result list. A key that the dictionary lacks and a
    key bound to [None] both read [None]. *)
Record row : Type := {
  Datum : option Z;
  Liga : option pystr;
  Typ : option pystr;
  Runde : option pystr;
  Heim : option pystr;
  Gast : option pystr;
  Heim_Link : option pystr;
  Gast_Link : option pystr;
  Spielort_Name : option pystr;
  Adresse : option pystr;
  Latitude : option float;
  Longitude : option float;
  Quelle : pystr;
  link : pystr;
  error : option pystr
}.

(** The dictionary of lines 202-208. *)
Definition error_record (weblink : pystr) (e : exn) : row :=
  {| Datum := None; Liga := None; Typ := None; Runde := None;
     Heim := None; Gast := None; Heim_Link := None; Gast_Link := None;
     Spielort_Name := None; Adresse := None;
     Latitude := None; Longitude := None;
     Quelle := weblink;
     link := Str.replace (py "/Spielbericht/") (py "/") None weblink;
     error := Some (exn_msg e) |}.

(** What lines 122-175 have read when [get_coordinates] is called. *)
Record fields : Type := {
  f_runde : pystr;
  f_datum : pystr;
  f_heim_name : pystr;
  f_gast_name : pystr;
  f_heim_link : pystr;
  f_gast_link : pystr;
  f_liga : pystr;
  f_spielbeginn : pystr;
  f_spielort_name : pystr;
  f_adresse : pystr
}.

Section WithUnicode.
Context (U : Unicode).
(** [pd.to_datetime(text, format="%d.%m.%Y %H:%M", errors="coerce")];
    [None] is NaT. *)
Context (to_datetime : pystr -> option Z).

(** [get_text_safe] on the text of an element that was found. *)
Definition get_text_safe (text : pystr) : pystr := Str.strip U text.

(** [a.get_attribute("title") or get_text_safe(a)] *)
Definition team_name (a : anchor) : result pystr :=
  title ← a_title a;
  match title with
  | Some ((_ :: _) as t) => Ok t
  | _ => text ← a_text a; Ok (get_text_safe text)
  end.

(** [a.get_attribute("href") or ""] *)
Definition team_link (a : anchor) : result pystr :=
  href ← a_href a;
  Ok (default [] href).

(** Lines 154-175: the venue block; whatever is raised is dropped. *)
Fixpoint scan_place_blocks (blocks : list place_block) : pystr * pystr :=
  match blocks with
  | [] => ([], [])
  | blk :: rest =>
    match b_h4 blk with
    | Raise _ => scan_place_blocks rest
    | Ok t =>
      let h4 := lower U (Str.strip U t) in
      if Str.contains (py "adresse") h4 && Str.contains (py "anfahrt") h4
      then
        let spielort_name :=
          match b_h5 blk with Ok t5 => Str.strip U t5 | Raise _ => [] end in
        match b_text blk with
        | Raise _ => (spielort_name, [])
        | Ok text =>
          let lines :=
            List.filter Str.truthy
                        (map (Str.strip U) (Str.splitlines text)) in
          let lines :=
            match lines with
            | l0 :: tl =>
              if Str.startswith (py "adresse") (lower U l0) then tl
              else lines
            | [] => lines
            end in
          let lines :=
            match lines with
            | l0 :: tl =>
              if Str.truthy spielort_name && pystr_eqb l0 spielort_name
              then tl else lines
            | [] => lines
            end in
          (spielort_name, Str.join (py ", ") lines)
        end
      else scan_place_blocks rest
    end
  end.

Definition spielort_adresse (s : session) : pystr * pystr :=
  match s_place_blocks s with
  | Ok blocks => scan_place_blocks blocks
  | Raise _ => ([], [])
  end.

Definition index_error : exn :=
  {| exn_cls := IndexError; exn_msg := py "list index out of range" |}.

(** Lines 122-175 of the [try] block.  The number is the count of
    scripts run, for [get_coordinates]. *)
Definition read_fields (s : session) : result (fields * nat) :=
  _ ← safe_get s 3;
  _ ← s_container s;
  round_text ← s_round s;
  date_text ← s_date s;
  team_links ← s_teams_first s;
  team_links ←
    (if length team_links <? 2
     then _ ← s_teams_wait s; s_teams_second s
     else Ok team_links);
  match team_links with
  | heim_a :: gast_a :: _ =>
    heim_name ← team_name heim_a;
    gast_name ← team_name gast_a;
    heim_link ← team_link heim_a;
    gast_link ← team_link gast_a;
    match get_bewerb s 0 with
    | (Ok bewerb, n) =>
      let spielbeginn :=
        match s_spielbeginn s with
        | Ok t => Str.strip U t
        | Raise _ => []
        end in
      let '(spielort_name, adresse) := spielort_adresse s in
      Ok ({| f_runde := get_text_safe round_text;
             f_datum := get_text_safe date_text;
             f_heim_name := heim_name; f_gast_name := gast_name;
             f_heim_link := heim_link; f_gast_link := gast_link;
             f_liga := default [] bewerb;
             f_spielbeginn := spielbeginn;
             f_spielort_name := spielort_name;
             f_adresse := adresse |}, n)
    | (Raise e, _) => Raise e
    end
  | _ => Raise index_error
  end.

(** Lines 177-199: the coordinates, the date and the row. *)
Definition build_row (weblink : pystr) (s : session) (f : fields) (n : nat)
  : row :=
  let '(lat, lon) := (get_coordinates s n).1 in
  let datetime_str :=
    Str.strip U (f_datum f ++ py " " ++ f_spielbeginn f) in
  {| Datum := to_datetime datetime_str;
     Liga := Some (f_liga f);
     Typ := Some (if Str.contains (py "Frau") (f_liga f)
                  then py "Frau" else py "Mann");
     Runde := Some (f_runde f);
     Heim := Some (f_heim_name f);
     Gast := Some (f_gast_name f);
     Heim_Link := Some (f_heim_link f);
     Gast_Link := Some (f_gast_link f);
     Spielort_Name := Some (f_spielort_name f);
     Adresse := Some (f_adresse f);
     Latitude := lat;
     Longitude := lon;
     Quelle := weblink;
     link := Str.replace (py "/Spielbericht/") (py "/") None weblink;
     error := None |}.

(** [mine_game]: [open_driver] is called before the [try]; the
    [finally] clause quits the driver and suppresses what that
    raises, so it changes no result. *)
Definition mine_game (weblink : pystr) (s : session) : result row :=
  _ ← s_open s;
  match read_fields s with
  | Ok (f, n) => Ok (build_row weblink s f n)
  | Raise e => Ok (error_record weblink e)
  end.

(** ** The controller *)

(** The row that [run_parallel] makes up when a future raises. *)
Definition future_exception_row (lnk : pystr) (e : exn) : row :=
  {| Datum := None; Liga := None; Typ := None; Runde := None;
     Heim := None; Gast := None; Heim_Link := None; Gast_Link := None;
     Spielort_Name := None; Adresse := None;
     Latitude := None; Longitude := None;
     Quelle := lnk; link := lnk;
     error := Some (py "FutureException: " ++ exn_msg e) |}.

(** The variables of [run_parallel] that the loop over the completed
    futures updates, and the output file ([None]: not there). *)
Record pool : Type := {
  results : list row;
  have : gset pystr;
  completed_since_flush : nat;
  out_csv : option (list row)
}.

(** Lines 268-271: the row of the future of [lnk]. *)
Definition row_of_future (lnk : pystr) (fut : result row) : row :=
  match fut with
  | Ok r => r
  | Raise e => future_exception_row lnk e
  end.

(** One turn of the loop of lines 266-280, for the future of [lnk]. *)
Definition completed (flush_every : nat) (st : pool) (lnk : pystr)
           (fut : result row) : pool :=
  let r := row_of_future lnk fut in
  let results' := results st ++ [r] in
  let have' := have st ∪ {[ link r ]} in
  let n := S (completed_since_flush st) in
  if flush_every <=? n
  then {| results := results'; have := have';
          completed_since_flush := 0; out_csv := Some results' |}
  else {| results := results'; have := have';
          completed_since_flush := n; out_csv := out_csv st |}.

(** [run_parallel]: [hrefs] is the column of the input CSV, [file] the
    rows that [pd.read_csv] has made of the output file found at the
    start ([None]: there is no file; the read itself is [read_output]
    below), [install] the outcome of installing the driver, [site i]
    the browser session of the [i]-th task submitted and
    [as_completed] the order in which the futures complete.  The value
    is the list [results] at the end: the rows that the output file is
    written from (lines 251 and 275) or, when there is nothing to do
    and the file is there, the rows read from it, the file being left
    alone. *)
Definition have_of (file : option (list row)) : gset pystr :=
  match file with
  | Some rows => list_to_set (map link rows)
  | None => ∅
  end.

Definition todo_of (hrefs : list pystr) (file : option (list row))
  : list pystr :=
  let links_all := map normalize_link hrefs in
  List.filter (fun l => bool_decide (l ∉ have_of file)) links_all.

Definition run_parallel (hrefs : list pystr) (file : option (list row))
           (install : result unit) (site : nat -> session)
           (as_completed : list (nat * pystr) -> list (nat * pystr))
           (flush_every : nat) : result (option (list row)) :=
  let have0 := have_of file in
  let results0 := default [] file in
  let todo := todo_of hrefs file in
  match todo with
  | [] => Ok (Some results0)
  | _ :: _ =>
    _ ← install;
    let futures := zip (seq 0 (length todo)) todo in
    let st :=
      fold_left
        (fun st task => completed flush_every st task.2
                                  (mine_game task.2 (site task.1)))
        (as_completed futures)
        {| results := results0; have := have0;
           completed_since_flush := 0; out_csv := file |} in
    Ok (Some (results st))
  end.

(** Line 238 on what is on disk.  [run_parallel] above starts from the
    frame [file] that [pd.read_csv] has returned; the output file as
    the program leaves it is read here.  A file written from an empty
    list of results, as line 251 does when there is neither a link to
    do nor a file, has no columns, and [pd.read_csv] raises
    [EmptyDataError] on it; a file written from rows is read back as
    these rows. *)
Definition empty_data_error : exn :=
  {| exn_cls := OtherException;
     exn_msg := py "No columns to parse from file" |}.

Definition read_output (on_disk : option (list row))
  : result (option (list row)) :=
  match on_disk with
  | Some [] => Raise empty_data_error
  | Some (r :: rows) => Ok (Some (r :: rows))
  | None => Ok None
  end.

(** [run_parallel] on the output file that an earlier run has left. *)
Definition run_parallel_on (hrefs : list pystr)
           (on_disk : option (list row))
           (install : result unit) (site : nat -> session)
           (as_completed : list (nat * pystr) -> list (nat * pystr))
           (flush_every : nat) : result (option (list row)) :=
  file ← read_output on_disk;
  run_parallel hrefs file install site as_completed flush_every.
End WithUnicode.

End game_miner_parallel.

(* ================================================================= *)
(** * fminer.py *)
(* ================================================================= *)

Module fminer.

(** The crawler is embedded as one process working on its output file:
    the lock file, which only delays the start, and failures of the
    writes are left out.  The CSV file is the list of its records. *)

(** An [a[href]] element of the schedule table: what
    [get_attribute("href")] and [.text] return. *)
Record link_element : Type := {
  el_href : option pystr;
  el_text : option pystr
}.

(** What the site does while the crawler works on one listing URL.
    [l_links n] is the outcome of looking up the anchors of the table
    once the "load more" button has been clicked [n] times;
    [l_button] lists the outcomes of the successive attempts to wait
    for the button and click it, after which the button is gone and
    the wait times out. *)
Record listing : Type := {
  l_url : pystr;
  l_get : nat -> result unit;
  l_table : result unit;
  l_links : nat -> result (list link_element);
  l_button : list (result unit);
  l_now : nat -> pystr      (* the clock at the k-th collection *)
}.

(** A CSV file: its records, the header line first. *)
Abbreviation csv_record := (list pystr) (only parsing).
Record csv_file : Type := {
  f_readable : bool;        (* reading it back does not raise *)
  f_records : list csv_record
}.

(** The lines that the crawler prints about what it does to the page
    and to the file. *)
Inductive event : Type :=
| SCRAPE                    (* [SCRAPE] Sammle Links von Seite *)
| WRITE (href : pystr)      (* [WRITE] Neuer Eintrag *)
| CLICK (clicks : nat).     (* [CLICK] 'Mehr'-Button geklickt *)

(** The state that the crawler works on: the global seen-set, the
    records appended through the file handle, and the printed
    lines. *)
Record world : Type := {
  seen : gset pystr;
  appended : list csv_record;
  printed : list event
}.

Definition empty_world (seen0 : gset pystr) : world :=
  {| seen := seen0; appended := []; printed := [] |}.

Definition print (e : event) (w : world) : world :=
  {| seen := seen w; appended := appended w;
     printed := printed w ++ [e] |}.

(** An item of [collect_links_from_page]:
    [(text, href, source_url, now_iso)]. *)
Abbreviation item := (pystr * pystr * pystr * pystr)%type (only parsing).

Definition header : csv_record :=
  [py "href"; py "source_url"; py "first_seen_utc"].

Section WithUnicode.
Context (U : Unicode).

(** The loop of [collect_links_from_page] over the elements. *)
Fixpoint collect_loop (source_url now_iso : pystr) (seen_local : gset pystr)
         (els : list link_element) : list item :=
  match els with
  | [] => []
  | el :: rest =>
    let href := default [] (el_href el) in
    let href := Str.replace (py "/Spielbericht/") (py "/") None href in
    let text := Str.strip U (default [] (el_text el)) in
    if negb (Str.truthy href) || bool_decide (href ∈ seen_local)
    then collect_loop source_url now_iso seen_local rest
    else if Str.contains (py "verein") (lower U href)
    then collect_loop source_url now_iso seen_local rest
    else if negb (Str.contains (py "oefb.at") href)
    then collect_loop source_url now_iso seen_local rest
    else (text, href, source_url, now_iso)
           :: collect_loop source_url now_iso (seen_local ∪ {[ href ]}) rest
  end.

(** [collect_links_from_page] on the page after [clicks] clicks; it is
    the [k]-th collection on this listing. *)
Definition collect_links_from_page (l : listing) (clicks k : nat)
           (w : world) : result (list item) * world :=
  let w := print SCRAPE w in
  match l_links l clicks with
  | Ok els => (Ok (collect_loop (l_url l) (l_now l k) ∅ els), w)
  | Raise e => (Raise e, w)
  end.

(** [row.get(key)] on the dictionary that [csv.DictReader] makes of a
    record: the fields under the names of the first line, then the
    names that the record is too short for, bound to [None]; of two
    bindings of a name the later one counts.  [None] is a key that is
    missing or bound to [None]; the fields beyond the names are under a
    key that is no string. *)
Definition dict_get (fieldnames : csv_record) (rec : csv_record)
           (key : pystr) : option pystr :=
  match List.find (fun kv => pystr_eqb kv.1 key)
                  (rev (zip fieldnames (map Some rec)
                        ++ map (fun k => (k, None))
                               (drop (length rec) fieldnames))) with
  | Some kv => kv.2
  | None => None
  end.

(** [load_existing_hrefs]; a file that cannot be read gives the empty
    set. *)
Definition load_existing_hrefs (file : option csv_file) : gset pystr :=
  match file with
  | None => ∅
  | Some f =>
    if f_readable f then
      match f_records f with
      | [] => ∅
      | fieldnames :: rows =>
        list_to_set
          (List.filter Str.truthy
             (map (fun rec =>
                     Str.strip U (default [] (dict_get fieldnames rec
                                                       (py "href"))))
                  (List.filter (fun rec => negb (bool_decide (rec = [])))
                               rows)))
      end
    else ∅
  end.
End WithUnicode.

(** [ensure_csv_with_header]: a missing or empty file gets the header
    line. *)
Definition ensure_csv_with_header (file : option csv_file) : csv_file :=
  match file with
  | None => {| f_readable := true; f_records := [header] |}
  | Some f =>
    match f_records f with
    | [] => {| f_readable := true; f_records := [header] |}
    | _ :: _ => f
    end
  end.

(** [append_row_immediate] *)
Definition append_row_immediate (row : csv_record) (w : world) : world :=
  print (WRITE (default [] (head row)))
        {| seen := seen w; appended := appended w ++ [row];
           printed := printed w |}.

(** [safe_get] *)
Fixpoint safe_get_from (l : listing) (left i : nat) : result unit :=
  match left with
  | O => Ok tt
  | S left' =>
    match l_get l i with
    | Ok _ => Ok tt
    | Raise e =>
      if is_webdriver e then
        match left' with
        | O => Raise e
        | S _ => safe_get_from l left' (S i)
        end
      else Raise e
    end
  end.

Definition safe_get (l : listing) (attempts : nat) : result unit :=
  safe_get_from l attempts 1.

(** [click_more_until_stable]: the loop runs while
    [clicks < max_clicks]; [button] lists the outcomes still to come.
    The value is the number of clicks made, which is the state the page
    is left in. *)
Fixpoint click_more_until_stable (max_clicks clicks : nat)
         (button : list (result unit)) (w : world) : result nat * world :=
  if max_clicks <=? clicks then (Ok clicks, w)
  else
    match button with
    | [] => (Ok clicks, w)
    | Ok _ :: button' =>
      click_more_until_stable max_clicks (S clicks) button'
                              (print (CLICK (S clicks)) w)
    | Raise e :: button' =>
      if is_class TimeoutException e then (Ok clicks, w)
      else if is_class StaleElementReferenceException e
      then click_more_until_stable max_clicks clicks button' w
      else (Raise e, w)
    end.

(** The default of [max_clicks]. *)
Definition max_clicks : nat := 10000.

(** The two [for] loops of [stream_links_from_url] that write the
    items not seen before; the number counts the rows written. *)
Fixpoint write_new (items : list item)
         (w : world) : nat * world :=
  match items with
  | [] => (0, w)
  | (text, href, src, ts) :: rest =>
    if bool_decide (href ∈ seen w) then write_new rest w
    else
      let w := {| seen := seen w ∪ {[ href ]}; appended := appended w;
                  printed := printed w |} in
      let w := append_row_immediate [href; src; ts] w in
      let '(n, w) := write_new rest w in
      (S n, w)
  end.

Section WithUnicode.
Context (U : Unicode).

(** [stream_links_from_url]: [(total_found, total_new)], or the
    exception that ends the work on this URL. *)
Definition stream_links_from_url (l : listing) (w : world)
  : result (nat * nat) * world :=
  match safe_get l 3 with
  | Raise e => (Raise e, w)
  | Ok _ =>
    match l_table l with
    | Raise e => (Raise e, w)
    | Ok _ =>
      match collect_links_from_page U l 0 0 w with
      | (Raise e, w) => (Raise e, w)
      | (Ok items, w) =>
        let total_found := length items in
        let '(total_new, w) := write_new items w in
        match click_more_until_stable max_clicks 0 (l_button l) w with
        | (Raise e, w) => (Raise e, w)
        | (Ok clicks, w) =>
          match collect_links_from_page U l clicks 1 w with
          | (Raise e, w) => (Raise e, w)
          | (Ok items, w) =>
            let total_found := Nat.max total_found (length items) in
            let '(new_round, w) := write_new items w in
            (Ok (total_found, total_new + new_round), w)
          end
        end
      end
    end
  end.

(** The loop of [scrape_multiple_urls_streaming] over the URLs: an
    exception ends the work on one URL and the loop goes on. *)
Fixpoint scrape_loop (urls : list listing) (w : world) : world :=
  match urls with
  | [] => w
  | l :: rest => scrape_loop rest (stream_links_from_url l w).2
  end.

(** [scrape_multiple_urls_streaming]: the file at the end and the
    lines printed.  [make_driver] is called after the header is
    ensured and before the file is opened for appending. *)
Definition scrape_multiple_urls_streaming (urls : list listing)
           (outfile : option csv_file) (make_driver : result unit)
           (already_seen : gset pystr) : result (list event) * csv_file :=
  let file := ensure_csv_with_header outfile in
  match make_driver with
  | Raise e => (Raise e, file)
  | Ok _ =>
    let w := scrape_loop urls (empty_world already_seen) in
    (Ok (printed w),
     {| f_readable := f_readable file;
        f_records := f_records file ++ appended w |})
  end.

(** The entry point: [--fresh] removes the file and starts from the
    empty set, otherwise the hrefs of the file seed the seen-set. *)
Definition crawl (fresh : bool) (urls : list listing)
           (outfile : option csv_file) (make_driver : result unit)
  : result (list event) * csv_file :=
  if fresh
  then scrape_multiple_urls_streaming urls None make_driver ∅
  else scrape_multiple_urls_streaming urls outfile make_driver
                                      (load_existing_hrefs U outfile).
End WithUnicode.

(** ** Reading the outcome *)

(** The [href] of a record and the [href] column of a file written by
    the crawler: the first field, under the header line. *)
Definition href_of (rec : csv_record) : pystr := default [] (head rec).

Definition hrefs (f : csv_file) : list pystr :=
  map href_of (tail (f_records f)).

Definition item_href (it : item) : pystr := it.1.1.2.

(** The record written for an item. *)
Definition record_of (it : item) : csv_record :=
  [it.1.1.2; it.1.2; it.2].

(** The items that the loops of lines 248-252 and 258-263 write: those
    whose href is neither in the seen-set nor earlier in the list. *)
Fixpoint unseen (seen : gset pystr) (items : list item) : list item :=
  match items with
  | [] => []
  | it :: rest =>
    if bool_decide (item_href it ∈ seen) then unseen seen rest
    else it :: unseen (seen ∪ {[ item_href it ]}) rest
  end.

(** An attempt that lets the click loop go on: a click, or a stale
    element. *)
Definition goes_on (a : result unit) : bool :=
  match a with
  | Ok _ => true
  | Raise e => negb (is_class TimeoutException e)
               && is_class StaleElementReferenceException e
  end.

Definition clicked (a : result unit) : bool :=
  match a with Ok _ => true | Raise _ => false end.

(** The button is gone or cannot be clicked: no attempt is left, or the
    next one times out. *)
Definition button_gone (button : list (result unit)) : bool :=
  match button with
  | [] => true
  | Ok _ :: _ => false
  | Raise e :: _ => is_class TimeoutException e
  end.

(** In the printed lines a collection follows every click, before the
    next click: what "after each click, re-run steps 3-4" says. *)
Fixpoint scrape_comes_next (log : list event) : bool :=
  match log with
  | [] => false
  | SCRAPE :: _ => true
  | CLICK _ :: _ => false
  | WRITE _ :: rest => scrape_comes_next rest
  end.

Fixpoint scrape_after_each_click (log : list event) : bool :=
  match log with
  | [] => true
  | CLICK _ :: rest => scrape_comes_next rest && scrape_after_each_click rest
  | _ :: rest => scrape_after_each_click rest
  end.


(** Collecting and clicking leave the seen-set and the file alone. *)
Definition same_file (w w' : world) : Prop :=
  seen w' = seen w /\ appended w' = appended w.

Section WithUnicode.
Context (U : Unicode).
(** A data line as the crawler writes it: the href comes first, is not
    empty and has no white space around it. *)
Definition stored (rec : csv_record) : Prop :=
  exists h rest, rec = h :: rest /\ h <> [] /\ Str.strip U h = h.

(** A prior output of the crawler that can be read back. *)
Definition prior_output (f : csv_file) : Prop :=
  f_readable f = true
  /\ exists rows, f_records f = header :: rows /\ Forall stored rows.

(** The hrefs that the pages of a listing show are URLs: once the path
    infix is removed they have no white space around them. *)
Definition shows_urls (l : listing) : Prop :=
  forall n els el h,
    l_links l n = Ok els -> el ∈ els -> el_href el = Some h ->
    let href := Str.replace (py "/Spielbericht/") (py "/") None h in
    Str.strip U href = href.

(** The items that the two collections on a listing return, one list
    after the other, on a run that gets that far: what the listing
    offers, whatever was seen before.  The click loop reads the world
    only to print, so that any world will do here. *)
Definition offered (l : listing) : list item :=
  match safe_get l 3, l_table l, l_links l 0 with
  | Ok _, Ok _, Ok els0 =>
    collect_loop U (l_url l) (l_now l 0) ∅ els0
    ++ match (click_more_until_stable max_clicks 0 (l_button l)
                                      (empty_world ∅)).1 with
       | Ok clicks =>
         match l_links l clicks with
         | Ok elsn => collect_loop U (l_url l) (l_now l 1) ∅ elsn
         | Raise _ => []
         end
       | Raise _ => []
       end
  | _, _, _ => []
  end.
End WithUnicode.

(** ** [file_lock]

    The lock protocol among the crawler processes that share an output
    file.  The lock file holds the process that wrote it last and has a
    modification time; times are in seconds.  A process is at one of
    the places of [file_lock]: in the [while] loop, which it entered at
    [start]; before the write of the lock file; at [yield], where the
    caller's block runs; in the [finally] clause; or past it.

    One step is the entry, one turn of the loop, the write, the block
    or the release, taken at the time [now] by one process and not
    interrupted by another: every run here is a run of the processes,
    and the runs in which the calls of one turn are interleaved with
    those of another process, or in which a call on the lock file
    raises, are left out. *)
Inductive lock_pc : Type :=
| Waiting (start : Z)
| Writing
| InBody
| Releasing
| Finished.

Record lock_world : Type := {
  lock_file : option (nat * Z);       (* (pid, st_mtime), or no file *)
  procs : gmap nat lock_pc
}.

(** The default of [wait_secs], and the age after which a lock file is
    taken for abandoned. *)
Definition wait_secs : Z := 30.
Definition stale_after : Z := 3600.

Definition at_pc (pid : nat) (pc : lock_pc) (lock : option (nat * Z))
           (w : lock_world) : lock_world :=
  {| lock_file := lock; procs := <[pid := pc]> (procs w) |}.

Definition lock_step (pid : nat) (now : Z) (w : lock_world) : lock_world :=
  match procs w !! pid with
  | None => at_pc pid (Waiting now) (lock_file w) w
  | Some (Waiting start) =>
    match lock_file w with
    | None => at_pc pid Writing None w
    | Some (_, mtime) =>
      if (wait_secs <? now - start)%Z && (stale_after <? now - mtime)%Z
      then at_pc pid Writing None w
      else w
    end
  | Some Writing => at_pc pid InBody (Some (pid, now)) w
  | Some InBody => at_pc pid Releasing (lock_file w) w
  | Some Releasing => at_pc pid Finished None w
  | Some Finished => w
  end.

(** A run: the steps of a schedule, each with the process that takes it
    and the time. *)
Definition lock_run (schedule : list (nat * Z)) (w : lock_world)
  : lock_world :=
  fold_left (fun w step => lock_step step.1 step.2 w) schedule w.

Definition no_lock : lock_world := {| lock_file := None; procs := ∅ |}.

(** The process has left the [while] loop. *)
Definition past_the_wait (pc : lock_pc) : Prop :=
  match pc with Waiting _ => False | _ => True end.

End fminer.

(* ================================================================= *)
(** * Sample data *)
(* ================================================================= *)

Module samples.
Import post_processing.

(** A detail CSV of four rows: a Vienna match of Gersthofer SV without
    coordinates, a match outside Vienna, a Vienna match without
    coordinates and a Vienna match with a latitude only. *)
Definition detail_row (heim adresse : pystr) (lat lon : float) : in_row :=
  {| in_Datum := None; in_Liga := Some (py "Wiener Stadtliga");
     in_Typ := Some (py "Mann"); in_Runde := Some (py "1. Runde");
     in_Heim := Some heim; in_Gast := Some (py "Gast");
     in_Heim_Link := None; in_Gast_Link := None;
     in_Spielort_Name := None; in_Adresse := Some adresse;
     in_Latitude := lat; in_Longitude := lon;
     in_Quelle := None; in_link := None; in_error := None |}.

Definition detail_csv : list in_row :=
  [ detail_row (py "Gersthofer SV") (py "Hauptstraße 1, 1010 Wien")
               PrimFloat.nan PrimFloat.nan;
    detail_row (py "SV Musterdorf") (py "Sportplatzweg, 2345 Musterdorf")
               48.1%float 16.2%float;
    detail_row (py "Wiener Sport-Club") (py "Alszeile 19, 1170 WIEN")
               PrimFloat.nan PrimFloat.nan;
    detail_row (py "FC Stadlau") (py "Erzherzog-Karl-Straße 108, 1220 Wien")
               48.2%float PrimFloat.nan ].

(** A page whose only coordinate entry is (0, 0), and a browser
    session that shows it to every script. *)
Definition loading_page : game_miner_parallel.page :=
  Some (game_miner_parallel.JObject
          [(py "spielort",
            game_miner_parallel.JObject
              [(py "bewerb",
                game_miner_parallel.JString (py "Wiener Stadtliga"));
               (py "latitude", game_miner_parallel.JNumber 0%float);
               (py "longitude", game_miner_parallel.JNumber 0%float)])]).

Definition team (name href : pystr) : game_miner_parallel.anchor :=
  {| game_miner_parallel.a_title := Ok (Some name);
     game_miner_parallel.a_text := Ok name;
     game_miner_parallel.a_href := Ok (Some href) |}.

Definition match_session : game_miner_parallel.session :=
  {| game_miner_parallel.s_open := Ok tt;
     game_miner_parallel.s_get := fun _ => Ok tt;
     game_miner_parallel.s_container := Ok tt;
     game_miner_parallel.s_round := Ok (py " 1. Runde ");
     game_miner_parallel.s_date := Ok (py "01.08.2025");
     game_miner_parallel.s_teams_first :=
       Ok [team (py "Gersthofer SV") (py "https://vereine.oefb.at/a");
           team (py "FC Stadlau") (py "https://vereine.oefb.at/b")];
     game_miner_parallel.s_teams_wait := Ok tt;
     game_miner_parallel.s_teams_second := Ok [];
     game_miner_parallel.s_spielbeginn := Ok (py "18:00");
     game_miner_parallel.s_place_blocks := Ok [];
     game_miner_parallel.s_script := fun _ => Ok loading_page;
     game_miner_parallel.s_polls_bewerb := 3;
     game_miner_parallel.s_polls_coordinates := 3;
     game_miner_parallel.s_quit := Ok tt |}.

(** A session whose page never shows the detail container. *)
Definition broken_session : game_miner_parallel.session :=
  {| game_miner_parallel.s_open := Ok tt;
     game_miner_parallel.s_get := fun _ => Ok tt;
     game_miner_parallel.s_container := Raise game_miner_parallel.timeout;
     game_miner_parallel.s_round := Ok [];
     game_miner_parallel.s_date := Ok [];
     game_miner_parallel.s_teams_first := Ok [];
     game_miner_parallel.s_teams_wait := Ok tt;
     game_miner_parallel.s_teams_second := Ok [];
     game_miner_parallel.s_spielbeginn := Ok [];
     game_miner_parallel.s_place_blocks := Ok [];
     game_miner_parallel.s_script := fun _ => Ok None;
     game_miner_parallel.s_polls_bewerb := 0;
     game_miner_parallel.s_polls_coordinates := 0;
     game_miner_parallel.s_quit := Ok tt |}.

(** A listing whose table shows one match link at a time: link [n]
    after [n] clicks.  The button can be clicked twice. *)
Definition match_link (n : nat) : fminer.link_element :=
  {| fminer.el_href :=
       Some (py "https://www.oefb.at/bewerbe/Spiel/Spielbericht/"
             ++ [(48 + N.of_nat n)%N]);
     fminer.el_text := Some (py "Spiel") |}.

Definition paged_listing : fminer.listing :=
  {| fminer.l_url := py "https://www.oefb.at/bewerbe/Bewerb/Spielplan/226635";
     fminer.l_get := fun _ => Ok tt;
     fminer.l_table := Ok tt;
     fminer.l_links := fun n => Ok [match_link n];
     fminer.l_button := [Ok tt; Ok tt];
     fminer.l_now := fun _ => py "2025-08-01T10:00:00Z" |}.

(** A prior output with the link that [paged_listing] shows first. *)
Definition prior_csv : fminer.csv_file :=
  {| fminer.f_readable := true;
     fminer.f_records :=
       [ fminer.header;
         [ py "https://www.oefb.at/bewerbe/Spiel/0";
           py "https://www.oefb.at/bewerbe/Bewerb/Spielplan/226635";
           py "2025-07-31T10:00:00Z" ] ] |}.

(** A listing whose table shows, next to a match link, the same link
    without the path infix, a club page, a page of another site and an
    anchor without href; the browser opens it at the third attempt. *)
Definition mixed_listing : fminer.listing :=
  {| fminer.l_url := py "https://www.oefb.at/bewerbe/Bewerb/Spielplan/226510";
     fminer.l_get := fun i =>
       if i <? 3
       then Raise {| exn_cls := TimeoutException; exn_msg := py "timeout" |}
       else Ok tt;
     fminer.l_table := Ok tt;
     fminer.l_links := fun _ =>
       Ok [ match_link 7;
            {| fminer.el_href := Some (py "https://www.oefb.at/bewerbe/Spiel/7");
               fminer.el_text := Some (py " Spiel 7 ") |};
            {| fminer.el_href := Some (py "https://vereine.oefb.at/Verein/1");
               fminer.el_text := Some (py "Verein") |};
            {| fminer.el_href := Some (py "https://example.org/spiel");
               fminer.el_text := None |};
            {| fminer.el_href := None; fminer.el_text := Some (py "leer") |} ];
     fminer.l_button := [];
     fminer.l_now := fun _ => py "2025-08-01T10:00:00Z" |}.


(** A listing that the browser cannot open. *)
Definition unreachable_listing : fminer.listing :=
  {| fminer.l_url := py "https://www.oefb.at/bewerbe/Bewerb/Spielplan/0";
     fminer.l_get := fun _ =>
       Raise {| exn_cls := WebDriverException; exn_msg := py "unreachable" |};
     fminer.l_table := Ok tt;
     fminer.l_links := fun n => Ok [match_link n];
     fminer.l_button := [];
     fminer.l_now := fun _ => py "2025-08-01T10:00:00Z" |}.

(** The venue block of a match page: the heading, the name of the
    venue and two address lines. *)
Definition venue_block : game_miner_parallel.place_block :=
  {| game_miner_parallel.b_h4 := Ok (py "Adresse & Anfahrt");
     game_miner_parallel.b_h5 := Ok (py "Sportclub-Platz");
     game_miner_parallel.b_text :=
       Ok (py "Adresse & Anfahrt" ++ [10%N] ++ py "Sportclub-Platz"
           ++ [10%N] ++ py " Alszeile 19 " ++ [10%N; 10%N]
           ++ py "1170 Wien") |}.

(** A date parser that knows no format. *)
Definition no_dates (column : list (option pystr)) (cell : option pystr)
  : option Z := None.

Definition no_date (text : pystr) : option Z := None.

End samples.

(* ================================================================= *)
(** * The matcher finds the leftmost match *)
(* ================================================================= *)

Section regex_facts.
Import Re.
Context (U : Unicode).
Local Abbreviation plz_ort_match := (post_processing.plz_ort_match U).

Lemma try_down_Some {A} (k : nat -> option A) lo n r :
  try_down k lo n = Some r ->
  exists j, lo <= j <= n /\ k j = Some r /\
            forall j', j < j' <= n -> k j' = None.
Proof.
  induction n as [|n IH]; simpl.
  - destruct (0 <? lo) eqn:E; [discriminate|].
    apply Nat.ltb_ge in E.
    destruct (k 0) eqn:K; [|discriminate].
    intros [= ->]. exists 0.
    split; [lia|]. split; [assumption|]. intros; lia.
  - destruct (S n <? lo) eqn:E; [discriminate|].
    apply Nat.ltb_ge in E. destruct (k (S n)) eqn:K.
    + intros [= ->]. exists (S n).
      split; [lia|]. split; [assumption|]. intros; lia.
    + intros H. apply IH in H as (j & ? & ? & Hmax).
      exists j. split; [lia|]. split; [assumption|].
      intros j' Hj'. destruct (decide (j' = S n)) as [->|]; [assumption|].
      apply Hmax; lia.
Qed.

Lemma try_down_None {A} (k : nat -> option A) lo n :
  try_down k lo n = None -> forall j, lo <= j <= n -> k j = None.
Proof.
  induction n as [|n IH]; simpl.
  - destruct (0 <? lo) eqn:E.
    + apply Nat.ltb_lt in E. intros; lia.
    + destruct (k 0) eqn:K; [discriminate|].
      intros _ j Hj. replace j with 0 by lia. assumption.
  - destruct (S n <? lo) eqn:E.
    + apply Nat.ltb_lt in E. intros; lia.
    + destruct (k (S n)) eqn:K; [discriminate|].
      intros H j Hj. destruct (decide (j = S n)) as [->|]; [assumption|].
      apply IH; [assumption|lia].
Qed.

Lemma run_all cls (s : pystr) j :
  j < run cls s -> exists c, s !! j = Some c /\ cls c = true.
Proof.
  revert j. induction s as [|c s IH]; simpl; intros j Hj; [lia|].
  destruct (cls c) eqn:E; [|lia].
  destruct j as [|j]; [exists c; auto|]. apply IH. lia.
Qed.

Lemma run_max cls (s : pystr) n :
  (forall j, j < n -> exists c, s !! j = Some c /\ cls c = true) ->
  n <= run cls s.
Proof.
  revert n. induction s as [|c s IH]; simpl; intros n H.
  - destruct n; [lia|]. destruct (H 0) as (? & ? & _); [lia|discriminate].
  - destruct n as [|n]; [lia|].
    destruct (H 0) as (c' & Hc & Hcls); [lia|]. simpl in Hc.
    injection Hc as <-. rewrite Hcls.
    apply le_n_S, IH. intros j Hj. apply (H (S j)). lia.
Qed.

Lemma run_drop_all cls (s : pystr) i n :
  n <= run cls (drop i s) -> all_in cls s i (i + n).
Proof.
  intros Hn j Hj.
  destruct (run_all cls (drop i s) (j - i)) as (c & Hc & Hcls); [lia|].
  rewrite lookup_drop in Hc. replace (i + (j - i)) with j in Hc by lia.
  eauto.
Qed.

Lemma all_in_run_drop cls (s : pystr) i b :
  i <= b -> all_in cls s i b -> b - i <= run cls (drop i s).
Proof.
  intros Hib H. apply run_max. intros j Hj.
  rewrite lookup_drop. apply H. lia.
Qed.

Lemma match_here_sound (s : pystr) i e gs :
  match_here U (post_processing.pat U) s i [] = Some (e, gs) ->
  exists b c, gs = [(i, b); (c, e)] /\ plz_ort_match s i b c e.
Proof.
  unfold post_processing.pat. cbn [match_here].
  destruct (boundary U s i) eqn:Hb; [|discriminate].
  intros H. apply try_down_Some in H as (n1 & Hn1 & H & _).
  apply try_down_Some in H as (n2 & Hn2 & H & _).
  apply try_down_Some in H as (n3 & Hn3 & H & _).
  destruct (boundary U s (i + n1 + n2 + n3)) eqn:He; [|discriminate].
  injection H as <- <-.
  exists (i + n1), (i + n1 + n2). split; [reflexivity|].
  constructor.
  - assumption.
  - lia.
  - apply run_drop_all. lia.
  - split; [lia|]. apply run_drop_all. lia.
  - split; [lia|]. apply run_drop_all. lia.
  - assumption.
Qed.

Lemma try_down_complete {A} (k : nat -> option A) lo n j :
  lo <= j <= n -> k j <> None -> try_down k lo n <> None.
Proof.
  intros Hj Hk H. apply Hk. eapply try_down_None; eassumption.
Qed.

Lemma match_here_complete (s : pystr) i b c e :
  plz_ort_match s i b c e ->
  match_here U (post_processing.pat U) s i [] <> None.
Proof.
  intros [Hb Hcount Hd [Hbc Hs] [Hce Hc] He].
  unfold post_processing.pat. cbn [match_here]. rewrite Hb.
  apply (try_down_complete _ _ _ (b - i)).
  { pose proof (all_in_run_drop _ s i b ltac:(lia) Hd). lia. }
  replace (i + (b - i)) with b by lia.
  apply (try_down_complete _ _ _ (c - b)).
  { pose proof (all_in_run_drop _ s b c ltac:(lia) Hs). lia. }
  replace (b + (c - b)) with c by lia.
  apply (try_down_complete _ _ _ (e - c)).
  { pose proof (all_in_run_drop _ s c e ltac:(lia) Hc). lia. }
  replace (c + (e - c)) with e by lia.
  rewrite He. discriminate.
Qed.

Lemma search_from_Some p (s : pystr) fuel i0 m :
  search_from U p s fuel i0 = Some m ->
  exists i e, m_span m = (i, e) /\ i0 <= i <= i0 + fuel /\
    match_here U p s i [] = Some (e, m_groups m) /\
    forall i', i0 <= i' < i -> match_here U p s i' [] = None.
Proof.
  revert i0. induction fuel as [|fuel IH]; intros i0; simpl.
  - destruct (match_here U p s i0 []) as [[e gs]|] eqn:E; [|discriminate].
    intros [= <-]. exists i0, e. simpl.
    split; [reflexivity|]. split; [lia|]. split; [assumption|].
    intros; lia.
  - destruct (match_here U p s i0 []) as [[e gs]|] eqn:E.
    + intros [= <-]. exists i0, e. simpl.
      split; [reflexivity|]. split; [lia|]. split; [assumption|].
      intros; lia.
    + intros H. apply IH in H as (i & e & ? & ? & ? & Hleft).
      exists i, e.
      split; [assumption|]. split; [lia|]. split; [assumption|].
      intros i' Hi'. destruct (decide (i' = i0)) as [->|]; [assumption|].
      apply Hleft. lia.
Qed.

Lemma search_from_None p (s : pystr) fuel i0 :
  search_from U p s fuel i0 = None ->
  forall i, i0 <= i <= i0 + fuel -> match_here U p s i [] = None.
Proof.
  revert i0. induction fuel as [|fuel IH]; intros i0; simpl.
  - destruct (match_here U p s i0 []) as [[e gs]|] eqn:E; [discriminate|].
    intros _ i Hi. replace i with i0 by lia. assumption.
  - destruct (match_here U p s i0 []) as [[e gs]|] eqn:E; [discriminate|].
    intros H i Hi. destruct (decide (i = i0)) as [->|]; [assumption|].
    apply (IH (S i0)); [assumption|lia].
Qed.

Lemma plz_ort_match_inside (s : pystr) i b c e :
  plz_ort_match s i b c e -> i <= length s.
Proof.
  intros [_ Hcount Hd _ _ _].
  destruct (Hd i) as (ch & Hch & _); [lia|].
  apply lookup_lt_Some in Hch. lia.
Qed.

(** [search] returns the leftmost match of the pattern. *)
Lemma search_leftmost (s : pystr) m :
  search U (post_processing.pat U) s = Some m ->
  exists i b c e,
    m_span m = (i, e) /\ m_groups m = [(i, b); (c, e)] /\
    plz_ort_match s i b c e /\
    forall i' b' c' e', i' < i -> ~ plz_ort_match s i' b' c' e'.
Proof.
  unfold search. intros H.
  apply search_from_Some in H as (i & e & Hspan & _ & Hm & Hleft).
  apply match_here_sound in Hm as (b & c & Hg & Hpm).
  exists i, b, c, e.
  split; [assumption|]. split; [assumption|]. split; [assumption|].
  intros i' b' c' e' Hi' Hpm'.
  apply match_here_complete in Hpm'. apply Hpm', Hleft. lia.
Qed.

(** [search] fails only when the pattern matches nowhere. *)
Lemma search_None (s : pystr) :
  search U (post_processing.pat U) s = None ->
  forall i b c e, ~ plz_ort_match s i b c e.
Proof.
  unfold search. intros H i b c e Hpm.
  pose proof (plz_ort_match_inside _ _ _ _ _ Hpm) as Hi.
  apply match_here_complete in Hpm. apply Hpm.
  eapply search_from_None; [eassumption|lia].
Qed.
End regex_facts.

(* ================================================================= *)
(** * The address parser *)
(* ================================================================= *)

Section address_parser.
Import post_processing.
Context (U : Unicode).
Local Abbreviation plz_ort_match := (post_processing.plz_ort_match U).
Local Abbreviation first_match := (post_processing.first_match U).
Local Abbreviation no_match := (post_processing.no_match U).

Lemma search_first_match (s : pystr) m :
  Re.search U (pat U) s = Some m ->
  exists plz ort,
    plz_ort_of U s m = (Some plz, Some ort) /\ first_match s plz ort.
Proof.
  intros H.
  destruct (search_leftmost U s m H) as (i & b & c & e & _ & Hg & Hpm & Hl).
  eexists _, _. split; [reflexivity|].
  exists m, i, b, c, e. unfold Re.group. rewrite Hg. simpl.
  repeat (split; [assumption || reflexivity|]). reflexivity.
Qed.

Lemma no_match_search (s : pystr) :
  no_match s <-> Re.search U (pat U) s = None.
Proof.
  split.
  - intros Hno. destruct (Re.search U (pat U) s) as [m|] eqn:E; [|reflexivity].
    destruct (search_leftmost U s m E) as (i & b & c & e & _ & _ & Hpm & _).
    destruct (Hno i b c e Hpm).
  - intros H i b c e. exact (search_None U s H i b c e).
Qed.

Lemma parts_of_nonempty (addr : pystr) (p : pystr) :
  p ∈ parts_of U addr -> p <> [].
Proof.
  unfold parts_of. rewrite list_elem_of_In, filter_In.
  intros [_ H] ->. discriminate.
Qed.

(** C1 (amended): on "Hauptstraße 1, 1010 Wien" the parser returns
    "Hauptstraße 1", "1010" and "Wien".  In general the street is the
    first comma segment that is not blank, trimmed (null when all are
    blank); the preferred source is the second such segment if there is
    one, else the address with the street removed once, else the
    address; the postal code and the city are the trimmed groups of the
    first match of the pattern in the preferred source, or else of its
    first match in the whole address, and both are null exactly when
    the pattern matches in neither. *)
Theorem extract_address_parts_tiers :
  extract_address_parts latin1 (Some (py "Hauptstraße 1, 1010 Wien"))
  = {| Strasse := Some (py "Hauptstraße 1");
       PLZ := Some (py "1010");
       Ort := Some (py "Wien") |}
  /\ forall addr : pystr,
      let r := extract_address_parts U (Some addr) in
      let parts := parts_of U addr in
      let source := plz_ort_source U addr in
      Strasse r = head parts
      /\ source = match parts with
                  | _ :: p :: _ => p
                  | [street] => Str.replace street [] (Some 1) addr
                  | [] => addr
                  end
      /\ ((exists plz ort, first_match source plz ort
                           /\ PLZ r = Some plz /\ Ort r = Some ort)
          \/ (no_match source
              /\ exists plz ort, first_match addr plz ort
                                 /\ PLZ r = Some plz /\ Ort r = Some ort)
          \/ (no_match source /\ no_match addr
              /\ PLZ r = None /\ Ort r = None))
      /\ ((PLZ r = None \/ Ort r = None)
          <-> (no_match source /\ no_match addr)).
Proof.
  split; [vm_compute; reflexivity|].
  intros addr r parts source.
  assert (Hsrc : source = match parts with
                          | _ :: p :: _ => p
                          | [street] => Str.replace street [] (Some 1) addr
                          | [] => addr
                          end).
  { subst source parts. unfold plz_ort_source.
    pose proof (parts_of_nonempty addr) as Hne.
    destruct (parts_of U addr) as [|st [|p rest]]; simpl; try reflexivity.
    destruct st; [|reflexivity].
    exfalso. apply (Hne []); [left|reflexivity]. }
  split.
  { subst r parts. unfold extract_address_parts.
    repeat case_match; reflexivity. }
  split; [exact Hsrc|].
  subst r. unfold extract_address_parts. fold source.
  destruct (Re.search U (pat U) source) as [m|] eqn:E1.
  - destruct (search_first_match source m E1) as (plz & ort & -> & Hfm).
    simpl. split.
    + left. exists plz, ort. auto.
    + split; [intros [?|?]; discriminate|].
      intros [Hno _]. apply no_match_search in Hno. congruence.
  - pose proof (proj2 (no_match_search source) E1) as Hno1.
    destruct (Re.search U (pat U) addr) as [m2|] eqn:E2.
    + destruct (search_first_match addr m2 E2) as (plz & ort & -> & Hfm).
      simpl. split.
      * right; left. split; [assumption|]. exists plz, ort. auto.
      * split; [intros [?|?]; discriminate|].
        intros [_ Hno]. apply no_match_search in Hno. congruence.
    + pose proof (proj2 (no_match_search addr) E2) as Hno2.
      simpl. split.
      * right; right.
        split; [assumption|]. split; [assumption|]. split; reflexivity.
      * split; [intros _; split; assumption|].
        intros _. left. reflexivity.
Qed.

(** C1 as worded fails: a blank first segment is not the street.  The
    code skips it, and the segments that follow move up by one. *)
Lemma blank_segment_is_not_the_street :
  let addr := py ",1010 Wien, 1020 Graz" in
  Strasse (extract_address_parts latin1 (Some addr))
    <> head (trimmed_segments latin1 addr)
  /\ extract_address_parts latin1 (Some addr)
     = {| Strasse := Some (py "1010 Wien");
          PLZ := Some (py "1020"); Ort := Some (py "Graz") |}
  /\ extract_address_parts_as_worded latin1 addr
     = {| Strasse := Some [];
          PLZ := Some (py "1010"); Ort := Some (py "Wien") |}.
Proof.
  cbn zeta. split; [|split].
  - vm_compute. discriminate.
  - vm_compute. reflexivity.
  - vm_compute. reflexivity.
Qed.
End address_parser.

(* ================================================================= *)
(** * The post-processor: Vienna filter, corrections, fails *)
(* ================================================================= *)

Section post_processor.
Import post_processing.
Context (U : Unicode).
Context (to_datetime : list (option pystr) -> option pystr -> option Z).
Context (sort_values : frame out_row -> frame out_row).

(** Sorting moves rows and neither adds, drops nor changes one. *)
Hypothesis sort_values_permutation : forall l, sort_values l ≡ₚ l.

Local Abbreviation parsed := (post_processing.parsed U).
Local Abbreviation in_wien := (post_processing.in_wien U).
Local Abbreviation wien_rows := (post_processing.wien_rows U).
Local Abbreviation datum_column := (post_processing.datum_column U).
Local Abbreviation output_row := (post_processing.output_row U to_datetime).

Lemma korrekturen_map (l : frame out_row) : korrekturen l = map corrected l.
Proof.
  unfold korrekturen.
  destruct (existsb _ l) eqn:E; [reflexivity|].
  induction l as [|ir l IH]; [reflexivity|].
  simpl in E. apply orb_false_elim in E as [E1 E2].
  simpl. rewrite <- IH by assumption.
  unfold corrected. rewrite E1. reflexivity.
Qed.

(** How the two frames come out of the input. *)
Lemma main_Ok (rows : list in_row) clean fails :
  main U to_datetime sort_values rows = Ok (clean, fails) ->
  clean = map corrected
              (sort_values
                 (map (fun ir => (ir.1, project to_datetime
                                                (datum_column rows) ir.2))
                      (wien_rows rows)))
  /\ fails = List.filter no_coordinates clean.
Proof.
  unfold main, datum_column, wien_rows, parsed.
  destruct (map _ (read_csv rows)) as [|ir0 df] eqn:E; [discriminate|].
  intros [= <- <-]. rewrite korrekturen_map. split; reflexivity.
Qed.

Lemma insert_by_Datum_permutation (x : nat * out_row) (l : frame out_row) :
  insert_by_Datum x l ≡ₚ x :: l.
Proof.
  induction l as [|y l IH]; simpl; [reflexivity|].
  destruct (datum_le _ _); [reflexivity|].
  rewrite IH. apply Permutation_swap.
Qed.

Lemma sort_by_Datum_permutation (l : frame out_row) : sort_by_Datum l ≡ₚ l.
Proof.
  induction l as [|x l IH]; simpl; [reflexivity|].
  rewrite insert_by_Datum_permutation, IH. reflexivity.
Qed.

(** [main] writes its two files whenever the CSV has a data row. *)
Lemma main_returns (rows : list in_row) :
  rows <> [] ->
  exists clean fails,
    main U to_datetime sort_values rows = Ok (clean, fails).
Proof.
  intros Hne. unfold main.
  destruct rows as [|r rows]; [contradiction|].
  simpl. eexists _, _. reflexivity.
Qed.

Lemma elem_of_read_csv (rows : list in_row) i row :
  (i, row) ∈ read_csv rows <-> rows !! i = Some row.
Proof.
  unfold read_csv. rewrite list_elem_of_lookup. split.
  - intros [j Hj]. rewrite lookup_zip_with in Hj.
    destruct (seq 0 (length rows) !! j) as [i'|] eqn:Hs; [|discriminate].
    apply lookup_seq in Hs as [-> _]. simpl in Hj.
    destruct (rows !! j) eqn:Hr; [|discriminate]. simpl in Hj. congruence.
  - intros Hr. exists i. rewrite lookup_zip_with.
    rewrite lookup_seq_lt by (eapply lookup_lt_Some; eassumption).
    simpl. rewrite Hr. reflexivity.
Qed.

Lemma elem_of_parsed (rows : list in_row) i row parts :
  (i, (row, parts)) ∈ parsed rows <->
  exists row0, rows !! i = Some row0 /\ row = normalize row0
               /\ parts = extract_address_parts U (in_Adresse row0).
Proof.
  unfold parsed. rewrite map_map. rewrite list_elem_of_fmap. split.
  - intros [[j r0] [Heq Hin]]. simpl in Heq. injection Heq as -> -> ->.
    apply elem_of_read_csv in Hin. exists r0. auto.
  - intros (row0 & Hr & -> & ->). exists (i, row0). split; [reflexivity|].
    apply elem_of_read_csv. assumption.
Qed.

Lemma corrected_keeps (ir : nat * out_row) :
  (corrected ir).1 = ir.1
  /\ o_Ort (corrected ir).2 = o_Ort ir.2
  /\ Heim (corrected ir).2 = Heim ir.2.
Proof.
  unfold corrected. destruct (mask_gersthof ir.2); auto.
Qed.

(** The rows of the clean frame are the rows of the input whose parsed
    city contains "wien", projected and corrected. *)
Lemma elem_of_clean (rows : list in_row) clean fails i r :
  main U to_datetime sort_values rows = Ok (clean, fails) ->
  (i, r) ∈ clean <->
  exists row0,
    rows !! i = Some row0
    /\ contains_wien U (Ort (extract_address_parts U (in_Adresse row0))) = true
    /\ (i, r) = corrected (i, output_row rows row0).
Proof.
  intros Hmain. apply main_Ok in Hmain as [-> _].
  rewrite list_elem_of_fmap. split.
  - intros [[j r1] [Heq Hin]].
    rewrite sort_values_permutation in Hin.
    apply list_elem_of_fmap in Hin as [[k [row parts]] [Heq' Hin]].
    simpl in Heq'. injection Heq' as -> ->.
    apply list_elem_of_In, filter_In in Hin as [Hin Hw].
    apply list_elem_of_In, elem_of_parsed in Hin as (row0 & Hr & -> & ->).
    pose proof (corrected_keeps
                  (k, project to_datetime (datum_column rows)
                        (normalize row0,
                         extract_address_parts U (in_Adresse row0))))
      as [Hk _].
    rewrite <- Heq in Hk. simpl in Hk. subst k.
    exists row0. split; [exact Hr|]. split; [exact Hw|]. exact Heq.
  - intros (row0 & Hr & Hw & Heq).
    exists (i, output_row rows row0). split; [exact Heq|].
    rewrite sort_values_permutation.
    apply list_elem_of_fmap.
    exists (i, (normalize row0, extract_address_parts U (in_Adresse row0))).
    split; [reflexivity|].
    apply list_elem_of_In, filter_In. split; [|exact Hw].
    apply list_elem_of_In, elem_of_parsed. exists row0. auto.
Qed.

Lemma elem_of_fails (rows : list in_row) clean fails ir :
  main U to_datetime sort_values rows = Ok (clean, fails) ->
  ir ∈ fails <-> ir ∈ clean /\ no_coordinates ir = true.
Proof.
  intros Hmain. apply main_Ok in Hmain as [_ ->].
  rewrite !list_elem_of_In, filter_In. reflexivity.
Qed.

(** C2: every row of the clean output has a parsed city that is not
    null and contains "wien" whatever the case of its letters; an input
    row whose parsed city is null or does not contain it is in neither
    output; and every other input row is in the clean output. *)
Theorem clean_rows_are_in_wien (rows : list in_row) clean fails :
  main U to_datetime sort_values rows = Ok (clean, fails) ->
  (forall i r, (i, r) ∈ clean ->
     exists ort, o_Ort r = Some ort
                 /\ Re.ci_contains U (py "wien") ort = true)
  /\ (forall i row0, rows !! i = Some row0 ->
       let ort := Ort (extract_address_parts U (in_Adresse row0)) in
       (ort = None
        \/ exists o, ort = Some o
                     /\ Re.ci_contains U (py "wien") o = false) ->
       (i ∉ clean.*1) /\ (i ∉ fails.*1))
  /\ (forall i row0, rows !! i = Some row0 ->
       contains_wien U (Ort (extract_address_parts U (in_Adresse row0)))
       = true ->
       i ∈ clean.*1).
Proof.
  intros Hmain. split; [|split].
  - intros i r Hin.
    apply (elem_of_clean rows clean fails i r Hmain) in Hin
      as (row0 & _ & Hw & Heq).
    pose proof (corrected_keeps (i, output_row rows row0)) as (_ & Ho & _).
    rewrite <- Heq in Ho. simpl in Ho. rewrite Ho.
    unfold contains_wien in Hw.
    destruct (Ort _) as [o|]; [|discriminate]. exists o. auto.
  - intros i row0 Hr ort Hort.
    assert (Hnot : contains_wien U ort = false).
    { destruct Hort as [-> | (o & -> & Ho)]; [reflexivity|exact Ho]. }
    assert (Hclean : i ∉ clean.*1).
    { intros Hin. apply list_elem_of_fmap in Hin as [[j r] [Hj Hin]].
      simpl in Hj. subst j.
      apply (elem_of_clean rows clean fails i r Hmain) in Hin
        as (row1 & Hr1 & Hw & _).
      subst ort. congruence. }
    split; [exact Hclean|].
    intros Hin. apply Hclean.
    apply list_elem_of_fmap in Hin as [ir [Hi Hin]].
    apply (elem_of_fails rows clean fails ir Hmain) in Hin as [Hin _].
    apply list_elem_of_fmap. exists ir. auto.
  - intros i row0 Hr Hw.
    apply list_elem_of_fmap.
    exists (corrected (i, output_row rows row0)). split.
    + symmetry. apply corrected_keeps.
    + destruct (corrected (i, output_row rows row0)) as [j r] eqn:E.
      pose proof (corrected_keeps (i, output_row rows row0)) as (Hj & _).
      rewrite E in Hj. simpl in Hj. subst j.
      apply (elem_of_clean rows clean fails i r Hmain).
      exists row0. rewrite E. auto.
Qed.

(** C5: the fails output is the clean output restricted to the rows
    whose latitude and longitude are both null; a row with one of them
    is not in it; a row of it stays in the clean output, and is a
    Vienna row. *)
Theorem fails_are_the_clean_rows_without_coordinates
        (rows : list in_row) clean fails :
  main U to_datetime sort_values rows = Ok (clean, fails) ->
  fails = List.filter
            (fun ir => isna (Latitude ir.2) && isna (Longitude ir.2)) clean
  /\ (forall ir, ir ∈ fails <->
                 ir ∈ clean /\ isna (Latitude ir.2) = true
                 /\ isna (Longitude ir.2) = true)
  /\ (forall ir, ir ∈ clean ->
                 isna (Latitude ir.2) = false
                 \/ isna (Longitude ir.2) = false ->
                 ir ∉ fails)
  /\ (forall i r, (i, r) ∈ fails ->
                  exists ort, o_Ort r = Some ort
                              /\ Re.ci_contains U (py "wien") ort = true).
Proof.
  intros Hmain. split; [|split; [|split]].
  - apply main_Ok in Hmain as [_ ->]. reflexivity.
  - intros ir. rewrite (elem_of_fails rows clean fails ir Hmain).
    unfold no_coordinates. rewrite andb_true_iff. tauto.
  - intros ir _ Hone Hin.
    apply (elem_of_fails rows clean fails ir Hmain) in Hin as [_ Hno].
    unfold no_coordinates in Hno. apply andb_true_iff in Hno as [H1 H2].
    destruct Hone; congruence.
  - intros i r Hin.
    apply (elem_of_fails rows clean fails _ Hmain) in Hin as [Hin _].
    apply (elem_of_clean rows clean fails i r Hmain) in Hin
      as (row0 & _ & Hw & Heq).
    pose proof (corrected_keeps (i, output_row rows row0)) as (_ & Ho & _).
    rewrite <- Heq in Ho. simpl in Ho. rewrite Ho.
    unfold contains_wien in Hw.
    destruct (Ort _) as [o|]; [|discriminate]. exists o. auto.
Qed.

(** C6: in the clean output a row whose home team is exactly
    "Gersthofer SV" has the two hard-coded coordinates, and every
    Vienna row of the input with that home team is there with them,
    whatever coordinates were scraped. *)
Theorem gersthofer_rows_have_the_fixed_coordinates
        (rows : list in_row) clean fails :
  main U to_datetime sort_values rows = Ok (clean, fails) ->
  (forall i r, (i, r) ∈ clean ->
     Heim r = Some (py "Gersthofer SV") ->
     Latitude r = 48.225324870552456%float
     /\ Longitude r = 16.328420452719126%float)
  /\ (forall i row0, rows !! i = Some row0 ->
       in_Heim row0 = Some (py "Gersthofer SV") ->
       contains_wien U (Ort (extract_address_parts U (in_Adresse row0)))
       = true ->
       exists r, (i, r) ∈ clean
                 /\ Heim r = Some (py "Gersthofer SV")
                 /\ Latitude r = 48.225324870552456%float
                 /\ Longitude r = 16.328420452719126%float).
Proof.
  intros Hmain. split.
  - intros i r Hin Hheim.
    apply (elem_of_clean rows clean fails i r Hmain) in Hin
      as (row0 & _ & _ & Heq).
    pose proof (corrected_keeps (i, output_row rows row0)) as (_ & _ & Hh).
    rewrite <- Heq in Hh. simpl in Hh. rewrite Hheim in Hh.
    unfold corrected, mask_gersthof in Heq. simpl in Heq.
    rewrite <- Hh in Heq. unfold pystr_eqb in Heq.
    rewrite bool_decide_eq_true_2 in Heq by reflexivity.
    injection Heq as ->. split; reflexivity.
  - intros i row0 Hr Hheim Hw.
    assert (Hm : mask_gersthof (output_row rows row0) = true).
    { unfold mask_gersthof, output_row. simpl. rewrite Hheim.
      apply bool_decide_eq_true_2. reflexivity. }
    exists (set_coordinates gersthof_lat gersthof_lon (output_row rows row0)).
    split.
    + apply (elem_of_clean rows clean fails i _ Hmain).
      exists row0. split; [exact Hr|]. split; [exact Hw|].
      unfold corrected. simpl. rewrite Hm. reflexivity.
    + simpl. auto.
Qed.
End post_processor.

(** On the sample CSV the clean output holds rows 0, 2 and 3, and row 1,
    of Musterdorf, is in neither output. *)
Lemma clean_rows_are_in_wien_witness :
  exists clean fails,
    post_processing.main latin1 samples.no_dates post_processing.sort_by_Datum
                         samples.detail_csv = Ok (clean, fails)
    /\ clean.*1 = [0; 2; 3]
    /\ (1 ∉ clean.*1) /\ (1 ∉ fails.*1).
Proof.
  eexists _, _. split; [reflexivity|]. split; [reflexivity|].
  refine (proj1 (proj2 (clean_rows_are_in_wien
                          latin1 samples.no_dates post_processing.sort_by_Datum
                          sort_by_Datum_permutation samples.detail_csv _ _
                          eq_refl))
                1 _ eq_refl _).
  right. eexists. split; reflexivity.
Defined.

(** On the sample CSV only row 2 is in the fails output: row 0 is
    corrected and row 3 has a latitude. *)
Lemma fails_are_the_clean_rows_without_coordinates_witness :
  exists clean fails,
    post_processing.main latin1 samples.no_dates post_processing.sort_by_Datum
                         samples.detail_csv = Ok (clean, fails)
    /\ clean.*1 = [0; 2; 3] /\ fails.*1 = [2]
    /\ fails = List.filter
                 (fun ir => post_processing.isna (post_processing.Latitude ir.2)
                            && post_processing.isna
                                 (post_processing.Longitude ir.2)) clean.
Proof.
  eexists _, _. split; [reflexivity|]. split; [reflexivity|].
  split; [reflexivity|].
  exact (proj1 (fails_are_the_clean_rows_without_coordinates
                  latin1 samples.no_dates post_processing.sort_by_Datum
                  sort_by_Datum_permutation samples.detail_csv _ _ eq_refl)).
Defined.

(** Row 0 of the sample CSV, scraped without coordinates, gets the
    two fixed ones. *)
Lemma gersthofer_rows_have_the_fixed_coordinates_witness :
  exists clean fails r,
    post_processing.main latin1 samples.no_dates post_processing.sort_by_Datum
                         samples.detail_csv = Ok (clean, fails)
    /\ post_processing.in_Latitude <$> samples.detail_csv !! 0
       = Some PrimFloat.nan
    /\ (0, r) ∈ clean
    /\ post_processing.Latitude r = 48.225324870552456%float
    /\ post_processing.Longitude r = 16.328420452719126%float.
Proof.
  destruct (proj2 (gersthofer_rows_have_the_fixed_coordinates
                     latin1 samples.no_dates post_processing.sort_by_Datum
                     sort_by_Datum_permutation samples.detail_csv _ _ eq_refl)
                  0 _ eq_refl eq_refl eq_refl)
    as (r & Hin & _ & Hlat & Hlon).
  eexists _, _, r. split; [reflexivity|]. split; [reflexivity|].
  split; [exact Hin|]. split; assumption.
Defined.

(* ================================================================= *)
(** * The JSON emitter: integers and text defaults *)
(* ================================================================= *)

Section json_emitter.
Import create_martiball_json.
Context (float_repr : float -> pystr) (timestamp_str : option Z -> pystr).
Context (float_of_int : Z -> option float).
Context (float_of_str : pystr -> option float).
Context (to_datetime : pyval -> option Z) (strftime : Z -> pystr).

Local Abbreviation build U :=
  (build_record U float_repr timestamp_str float_of_int float_of_str
                to_datetime strftime).

(** The text ["1190"] and the integer 1190 that [read_csv] makes of
    a column of such cells both give the integer 1190. *)
Lemma plz_text_is_integer (r : row) :
  get r "PLZ" = PyStr (py "1190") ->
  Spielort_PLZ (build latin1 r) = Some 1190%Z.
Proof.
  intros H. unfold build, build_record. rewrite H. reflexivity.
Qed.

Lemma plz_integer_is_integer (r : row) :
  get r "PLZ" = PyInt 1190 ->
  Spielort_PLZ (build latin1 r) = Some 1190%Z.
Proof.
  intros H. unfold build, build_record. rewrite H. reflexivity.
Qed.

(** A column that the CSV lacks, a [None] and an empty string give the
    empty string. *)
Lemma absent_text_is_empty (r : row) (col : string) :
  get r col = PyNone \/ get r col = PyStr [] ->
  text_field float_repr timestamp_str r col = [].
Proof.
  unfold text_field. intros [-> | ->]; reflexivity.
Qed.

(** C9 (code defect): a row whose [Spielort_Name] cell is empty in
    the CSV holds NaN there, NaN is true for [or], and the field
    "Spielort" of the record is the text ["nan"] instead of the empty
    string; its "Spielort PLZ" is the integer 1190. *)
Theorem nan_spielort_is_emitted_as_text (U : Unicode) :
  let r : row := {[ "Spielort_Name"%string := PyFloat PrimFloat.nan;
                    "PLZ"%string := PyStr (py "1190") ]} in
  Spielort (build U r) = py "nan"
  /\ Spielort (build U r) <> []
  /\ Spielort_PLZ (build latin1 r) = Some 1190%Z.
Proof.
  cbn zeta. split; [|split].
  - reflexivity.
  - discriminate.
  - reflexivity.
Qed.
End json_emitter.

(* ================================================================= *)
(** * The extractor: coordinates, error records, the batch *)
(* ================================================================= *)

Section extractor.
Import game_miner_parallel.

Lemma first_some_Some {A B} (f : A -> option B) (l : list A) y :
  first_some f l = Some y -> exists x, x ∈ l /\ f x = Some y.
Proof.
  induction l as [|x l IH]; simpl; [discriminate|].
  destruct (f x) eqn:E.
  - intros [= ->]. exists x. split; [left|assumption].
  - intros H. destruct (IH H) as (x' & Hin & Hx').
    exists x'. split; [right; assumption|assumption].
Qed.

(** What the test of lines 33-34 and 46-47 accepts is a coordinate
    entry of the page, and it is not (0, 0). *)
Lemma coordinates_of_Some (obj : jsval) latlon :
  coordinates_of obj = Some latlon ->
  numeric_pair obj = Some latlon /\ origin latlon = false.
Proof.
  unfold coordinates_of, numeric_pair, origin.
  destruct (js_truthy obj); [|discriminate].
  destruct (prop (py "longitude") obj) as [| | |lon| | |]; try discriminate.
  destruct (prop (py "latitude") obj) as [| | |lat| | |]; try discriminate.
  destruct (PrimFloat.eqb lon 0 && PrimFloat.eqb lat 0) eqn:E;
    [discriminate|].
  intros [= <-]. split; [reflexivity|]. simpl.
  rewrite andb_comm. exact E.
Qed.

Lemma found_is_an_entry (ap : jsval) latlon :
  first_some (fun v => first_some coordinates_of (as_array v)) (for_in ap)
  = Some latlon ->
  latlon ∈ flat_map (fun v => omap numeric_pair (as_array v)) (for_in ap)
  /\ origin latlon = false.
Proof.
  intros H. apply first_some_Some in H as (v & Hv & H).
  apply first_some_Some in H as (obj & Hobj & H).
  apply coordinates_of_Some in H as [Hpair Hnot]. split; [|exact Hnot].
  apply list_elem_of_In, in_flat_map. exists v.
  split; [apply list_elem_of_In; exact Hv|].
  apply list_elem_of_In, list_elem_of_omap. exists obj. auto.
Qed.

Lemma read_coordinates_Some (p : page) latlon :
  read_coordinates p = Some latlon -> origin latlon = false.
Proof.
  unfold read_coordinates. intros H.
  apply found_is_an_entry in H as [_ H]. exact H.
Qed.

Lemma only_origin_not_ready (p : page) :
  only_origin p = true -> coordinates_ready p = false.
Proof.
  unfold only_origin, coordinates_ready, coordinate_entries. intros Hall.
  destruct (js_truthy (optional_chain p)); [|reflexivity]. simpl.
  apply bool_decide_eq_false_2. intros [latlon H].
  apply found_is_an_entry in H as [Hin Hnot].
  rewrite forallb_forall in Hall.
  apply list_elem_of_In, Hall in Hin. congruence.
Qed.

(** A wait whose condition never holds ends with an exception. *)
Lemma until_never (s : session) (cond : page -> bool) polls n :
  (forall k, n <= k ->
     match s_script s k with Ok p => cond p = false | Raise _ => True end) ->
  exists e n1, until s cond polls n = (Raise e, n1).
Proof.
  revert n. induction polls as [|polls IH]; intros n H; cbn [until].
  - specialize (H n (le_n n)).
    destruct (s_script s n) as [p|e].
    + rewrite H. eauto.
    + destruct (is_class NoSuchElementException e); eauto.
  - pose proof (H n (le_n n)) as Hn.
    assert (Hnext : exists e n1, until s cond polls (S n) = (Raise e, n1)).
    { apply IH. intros k Hk. apply H. lia. }
    destruct (s_script s n) as [p|e].
    + rewrite Hn. exact Hnext.
    + destruct (is_class NoSuchElementException e); [exact Hnext|eauto].
Qed.

Lemma get_coordinates_never (s : session) n :
  (forall k, n <= k ->
     match s_script s k with
     | Ok p => coordinates_ready p = false
     | Raise _ => True
     end) ->
  (get_coordinates s n).1 = (None, None).
Proof.
  intros H. unfold get_coordinates.
  destruct (until_never s coordinates_ready (s_polls_coordinates s) n H)
    as (e & n1 & ->).
  reflexivity.
Qed.

Lemma only_origin_reads_nothing (p : page) :
  only_origin p = true -> read_coordinates p = None.
Proof.
  intros Hall. unfold read_coordinates.
  destruct (first_some _ _) as [latlon|] eqn:E; [|reflexivity].
  exfalso. apply found_is_an_entry in E as [Hin Hnot].
  unfold only_origin, coordinate_entries in Hall.
  rewrite forallb_forall in Hall.
  destruct (js_truthy (optional_chain p)).
  - apply list_elem_of_In, Hall in Hin. congruence.
  - inversion Hin.
Qed.

(** A wait whose condition fails on every page that its scripts see
    runs all its polls and ends with the timeout. *)
Lemma until_runs_out (s : session) (cond : page -> bool) polls n :
  (forall k, n <= k <= n + polls ->
     exists p, s_script s k = Ok p /\ cond p = false) ->
  until s cond polls n = (Raise timeout, n + polls + 1).
Proof.
  revert n. induction polls as [|polls IH]; intros n H; cbn [until].
  - destruct (H n ltac:(lia)) as (p & -> & ->). f_equal. lia.
  - destruct (H n ltac:(lia)) as (p & -> & ->).
    rewrite IH by (intros k Hk; apply H; lia). f_equal. lia.
Qed.

(** C4: [get_coordinates] returns [(None, None)] or a pair that is not
    (0, 0).  A page whose coordinate entries are all (0, 0) is not yet
    loaded: the condition of the wait is false on it and the script
    that reads the coordinates returns null on it.  When the scripts of
    the wait all see such pages, the wait runs all its polls and ends
    with the timeout, and [get_coordinates] returns [(None, None)]
    without running the second script. *)
Theorem get_coordinates_is_never_the_origin (s : session) (n : nat) :
  ((get_coordinates s n).1 = (None, None)
   \/ exists lat lon, (get_coordinates s n).1 = (Some lat, Some lon)
                      /\ (PrimFloat.eqb lat 0 && PrimFloat.eqb lon 0) = false)
  /\ ((forall k p, s_script s k = Ok p -> only_origin p = true) ->
      (get_coordinates s n).1 = (None, None))
  /\ (forall p, only_origin p = true ->
        coordinates_ready p = false /\ read_coordinates p = None)
  /\ ((forall k, n <= k <= n + s_polls_coordinates s ->
         exists p, s_script s k = Ok p /\ only_origin p = true) ->
      until s coordinates_ready (s_polls_coordinates s) n
      = (Raise timeout, n + s_polls_coordinates s + 1)
      /\ get_coordinates s n
         = ((None, None), n + s_polls_coordinates s + 1)).
Proof.
  split; [|split; [|split]].
  - unfold get_coordinates.
    destruct (until s coordinates_ready (s_polls_coordinates s) n)
      as [[[]|e] n1]; [|left; reflexivity].
    destruct (s_script s n1) as [p|e]; [|left; reflexivity].
    destruct (read_coordinates p) as [[lat lon]|] eqn:E; [|left; reflexivity].
    right. exists lat, lon. split; [reflexivity|].
    exact (read_coordinates_Some p (lat, lon) E).
  - intros H. apply get_coordinates_never. intros k _.
    destruct (s_script s k) as [p|e] eqn:E; [|exact I].
    apply only_origin_not_ready. exact (H k p E).
  - intros p Hp. split.
    + apply only_origin_not_ready. exact Hp.
    + apply only_origin_reads_nothing. exact Hp.
  - intros H.
    assert (Hwait : until s coordinates_ready (s_polls_coordinates s) n
                    = (Raise timeout, n + s_polls_coordinates s + 1)).
    { apply until_runs_out. intros k Hk.
      destruct (H k Hk) as (p & Hs & Hp). exists p.
      split; [exact Hs|]. apply only_origin_not_ready. exact Hp. }
    split; [exact Hwait|]. unfold get_coordinates. rewrite Hwait.
    reflexivity.
Qed.

(** ** One link, and the batch *)

Context (U : Unicode) (to_datetime : pystr -> option Z).

Lemma mine_game_Quelle (weblink : pystr) (s : session) r :
  mine_game U to_datetime weblink s = Ok r -> Quelle r = weblink.
Proof.
  unfold mine_game. destruct (s_open s); [|discriminate]. simpl.
  destruct (read_fields U s) as [[f n]|e]; intros [= <-]; [|reflexivity].
  unfold build_row. destruct (get_coordinates s n).1. reflexivity.
Qed.

Lemma row_of_future_Quelle (lnk : pystr) (s : session) :
  Quelle (row_of_future lnk (mine_game U to_datetime lnk s)) = lnk.
Proof.
  destruct (mine_game U to_datetime lnk s) as [r|e] eqn:E; simpl.
  - eapply mine_game_Quelle. exact E.
  - reflexivity.
Qed.

(** The loop over the completed futures appends one row per future. *)
Lemma completed_results flush_every (site : nat -> session)
      (tasks : list (nat * pystr)) (st : pool) :
  results
    (fold_left
       (fun st task => completed flush_every st task.2
                                 (mine_game U to_datetime task.2 (site task.1)))
       tasks st)
  = results st
    ++ map (fun task => row_of_future
                          task.2
                          (mine_game U to_datetime task.2 (site task.1)))
           tasks.
Proof.
  revert st. induction tasks as [|task tasks IH]; intros st; simpl.
  - rewrite app_nil_r. reflexivity.
  - rewrite IH. unfold completed.
    destruct (flush_every <=? _); simpl; rewrite <- app_assoc; reflexivity.
Qed.

(** The batch runs to its end whatever the sessions do: the output is
    the rows found at the start followed by one row per link to do. *)
Lemma run_parallel_all_links (hrefs : list pystr) (file : option (list row))
      (site : nat -> session)
      (as_completed : list (nat * pystr) -> list (nat * pystr))
      (flush_every : nat) :
  (forall l, as_completed l ≡ₚ l) ->
  exists new,
    run_parallel U to_datetime hrefs file (Ok tt) site as_completed flush_every
    = Ok (Some (default [] file ++ new))
    /\ map Quelle new ≡ₚ todo_of hrefs file.
Proof.
  intros Hperm. unfold run_parallel.
  destruct (todo_of hrefs file) as [|l todo] eqn:E.
  - exists []. rewrite app_nil_r. split; reflexivity.
  - rewrite <- E. simpl. eexists. split.
    + rewrite completed_results. simpl. reflexivity.
    + rewrite map_map.
      erewrite map_ext; [|intros task; apply row_of_future_Quelle].
      change (map (fun task : nat * pystr => task.2)
                  (as_completed (zip (seq 0 (length (todo_of hrefs file)))
                                     (todo_of hrefs file))))
        with ((as_completed (zip (seq 0 (length (todo_of hrefs file)))
                                 (todo_of hrefs file))).*2).
      rewrite Hperm, snd_zip by (rewrite length_seq; reflexivity).
      reflexivity.
Qed.

(** C3: when an exception escapes lines 122-199, [mine_game] returns
    the record with the source link, the normalised link and the
    message, and nothing else; it raises nothing.  Whatever the sessions
    do, [run_parallel] goes through all the links to do. *)
Theorem failing_link_gives_an_error_record
        (weblink : pystr) (s : session) (e : exn)
        (hrefs : list pystr) (file : option (list row))
        (site : nat -> session)
        (as_completed : list (nat * pystr) -> list (nat * pystr))
        (flush_every : nat) :
  s_open s = Ok tt ->
  read_fields U s = Raise e ->
  (forall l, as_completed l ≡ₚ l) ->
  mine_game U to_datetime weblink s
  = Ok {| Datum := None; Liga := None; Typ := None; Runde := None;
          Heim := None; Gast := None; Heim_Link := None; Gast_Link := None;
          Spielort_Name := None; Adresse := None;
          Latitude := None; Longitude := None;
          Quelle := weblink; link := normalize_link weblink;
          error := Some (exn_msg e) |}
  /\ exists new,
      run_parallel U to_datetime hrefs file (Ok tt) site as_completed
                   flush_every
      = Ok (Some (default [] file ++ new))
      /\ map Quelle new ≡ₚ todo_of hrefs file.
Proof.
  intros Hopen Hread Hperm. split.
  - unfold mine_game. rewrite Hopen, Hread. reflexivity.
  - apply run_parallel_all_links. exact Hperm.
Qed.

(** ** Failures of the coordinate polling *)

(** A wait runs at least one script, and looks at no script after the
    ones it counts. *)
Lemma until_agree (s s' : session) (cond : page -> bool) polls n r n1 :
  until s cond polls n = (r, n1) ->
  (forall k, k < n1 -> s_script s' k = s_script s k) ->
  n < n1 /\ until s' cond polls n = (r, n1).
Proof.
  revert n. induction polls as [|polls IH]; intros n; cbn [until].
  - intros H Hs.
    assert (Hn : n < n1).
    { destruct (s_script s n) as [p|e];
        [destruct (cond p)|destruct (is_class NoSuchElementException e)];
        injection H as _ <-; lia. }
    split; [exact Hn|]. rewrite (Hs n Hn). exact H.
  - intros H Hs.
    assert (Hn : n < n1).
    { destruct (s_script s n) as [p|e];
        [destruct (cond p)|destruct (is_class NoSuchElementException e)];
        try (injection H as _ <-; lia);
        apply IH in H as [H _]; try lia; exact Hs. }
    split; [exact Hn|]. rewrite (Hs n Hn).
    destruct (s_script s n) as [p|e];
      [destruct (cond p)|destruct (is_class NoSuchElementException e)];
      try exact H; apply IH in H as [_ H]; assumption.
Qed.

Lemma get_bewerb_agree (s s' : session) n r n1 :
  get_bewerb s n = (r, n1) ->
  s_polls_bewerb s' = s_polls_bewerb s ->
  (forall k, k < n1 -> s_script s' k = s_script s k) ->
  get_bewerb s' n = (r, n1).
Proof.
  unfold get_bewerb. intros H Hpolls Hs. rewrite Hpolls.
  destruct (until s _ (s_polls_bewerb s) n) as [[[]|e] n0] eqn:E.
  - assert (Hn0 : n0 < n1).
    { destruct (s_script s n0) as [[ap|]|e]; injection H as _ <-; lia. }
    destruct (until_agree s s' _ _ _ _ _ E) as [_ ->].
    { intros k Hk. apply Hs. lia. }
    rewrite (Hs n0 Hn0). exact H.
  - injection H as <- <-.
    destruct (until_agree s s' _ _ _ _ _ E) as [_ ->]; [exact Hs|].
    reflexivity.
Qed.

Lemma read_fields_counter (s : session) f n :
  read_fields U s = Ok (f, n) -> exists b, get_bewerb s 0 = (Ok b, n).
Proof.
  unfold read_fields, mbind, result_bind. intros H.
  repeat case_match; simplify_eq; eauto.
Qed.

(** What [read_fields] returns does not depend on the scripts that run
    after it, nor on the number of coordinate polls. *)
Lemma read_fields_agree (s : session) f n scripts polls :
  read_fields U s = Ok (f, n) ->
  read_fields U (with_coordinate_scripts s n scripts polls) = Ok (f, n).
Proof.
  intros H. destruct (read_fields_counter s f n H) as [b Hb].
  rewrite <- H. unfold read_fields.
  rewrite (get_bewerb_agree s (with_coordinate_scripts s n scripts polls)
                            0 (Ok b) n Hb eq_refl).
  - rewrite Hb. reflexivity.
  - intros k Hk. simpl. apply Nat.ltb_lt in Hk. rewrite Hk. reflexivity.
Qed.

(** C10: take a session in which lines 122-175 succeed, and let the
    scripts of the coordinate polling do anything at all.  [mine_game]
    returns a row without error whose fields are the ones read and
    whose coordinates are what [get_coordinates] returns; they are both
    null when every poll raises or finds no coordinates. *)
Theorem coordinate_failure_is_not_an_error
        (weblink : pystr) (s : session) (f : fields) (n : nat)
        (scripts : nat -> result page) (polls : nat) :
  s_open s = Ok tt ->
  read_fields U s = Ok (f, n) ->
  let s' := with_coordinate_scripts s n scripts polls in
  exists r,
    mine_game U to_datetime weblink s' = Ok r
    /\ error r = None
    /\ Quelle r = weblink /\ link r = normalize_link weblink
    /\ Liga r = Some (f_liga f) /\ Runde r = Some (f_runde f)
    /\ Heim r = Some (f_heim_name f) /\ Gast r = Some (f_gast_name f)
    /\ Heim_Link r = Some (f_heim_link f)
    /\ Gast_Link r = Some (f_gast_link f)
    /\ Spielort_Name r = Some (f_spielort_name f)
    /\ Adresse r = Some (f_adresse f)
    /\ (exists typ, Typ r = Some typ)
    /\ (Latitude r, Longitude r) = (get_coordinates s' n).1
    /\ ((forall k, n <= k ->
           match scripts k with
           | Ok p => coordinates_ready p = false
           | Raise _ => True
           end) ->
        Latitude r = None /\ Longitude r = None).
Proof.
  intros Hopen Hread s'.
  pose proof (read_fields_agree s f n scripts polls Hread) as Hread'.
  fold s' in Hread'.
  exists (build_row U to_datetime weblink s' f n). split.
  { unfold mine_game. change (s_open s') with (s_open s).
    rewrite Hopen. simpl. rewrite Hread'. reflexivity. }
  unfold build_row.
  destruct (get_coordinates s' n).1 as [lat lon] eqn:E. simpl.
  do 13 (split; [reflexivity || eauto|]).
  intros Hnever.
  assert (Hnone : (get_coordinates s' n).1 = (None, None)).
  { apply get_coordinates_never. intros k Hk. simpl.
    apply Nat.ltb_ge in Hk. rewrite Hk. apply Hnever.
    apply Nat.ltb_ge. exact Hk. }
  rewrite E in Hnone. injection Hnone as -> ->. split; reflexivity.
Qed.
End extractor.

(** On a session whose page only ever shows (0, 0), with three polls
    left, the wait that starts at the third script runs four scripts
    and times out. *)
Lemma get_coordinates_is_never_the_origin_witness :
  game_miner_parallel.only_origin samples.loading_page = true
  /\ game_miner_parallel.coordinates_ready samples.loading_page = false
  /\ game_miner_parallel.until
       samples.match_session game_miner_parallel.coordinates_ready 3 2
     = (Raise game_miner_parallel.timeout, 6)
  /\ game_miner_parallel.get_coordinates samples.match_session 2
     = ((None, None), 6).
Proof.
  destruct (get_coordinates_is_never_the_origin samples.match_session 2)
    as (_ & _ & Hpage & Hrun).
  split; [reflexivity|].
  split; [exact (proj1 (Hpage samples.loading_page eq_refl))|].
  apply Hrun. intros k _. exists samples.loading_page.
  split; reflexivity.
Defined.

(** A session whose detail container never shows gives the error
    record, and a batch of two such links gives two rows. *)
Lemma failing_link_gives_an_error_record_witness :
  let weblink := py "https://www.oefb.at/bewerbe/Spiel/Spielbericht/3577102" in
  let other := py "https://www.oefb.at/bewerbe/Spiel/3577103" in
  game_miner_parallel.read_fields latin1 samples.broken_session
  = Raise game_miner_parallel.timeout
  /\ game_miner_parallel.normalize_link weblink
     = py "https://www.oefb.at/bewerbe/Spiel/3577102"
  /\ game_miner_parallel.error
       <$> match game_miner_parallel.mine_game
                   latin1 samples.no_date weblink samples.broken_session with
           | Ok r => Some r
           | Raise _ => None
           end
     = Some (Some (py "Message: "))
  /\ exists new,
      game_miner_parallel.run_parallel
        latin1 samples.no_date [weblink; other] None (Ok tt)
        (fun _ => samples.broken_session) (@rev _) 25
      = Ok (Some ([] ++ new))
      /\ map game_miner_parallel.Quelle new
         ≡ₚ game_miner_parallel.todo_of [weblink; other] None.
Proof.
  intros weblink other.
  destruct (failing_link_gives_an_error_record
              latin1 samples.no_date weblink samples.broken_session
              game_miner_parallel.timeout [weblink; other] None
              (fun _ => samples.broken_session) (@rev _) 25
              eq_refl eq_refl
              (fun l => Permutation_sym (Permutation_rev l)))
    as [Hrecord Hbatch].
  split; [reflexivity|]. split; [reflexivity|].
  split; [rewrite Hrecord; reflexivity|]. exact Hbatch.
Defined.

(** The sample match, with every coordinate script raising, gives a
    row with its fields and no coordinates. *)
Lemma coordinate_failure_is_not_an_error_witness :
  let weblink := py "https://www.oefb.at/bewerbe/Spiel/3577102" in
  let s' := game_miner_parallel.with_coordinate_scripts
              samples.match_session 2
              (fun _ => Raise game_miner_parallel.timeout) 5 in
  exists r,
    game_miner_parallel.mine_game latin1 samples.no_date weblink s' = Ok r
    /\ game_miner_parallel.error r = None
    /\ game_miner_parallel.Heim r = Some (py "Gersthofer SV")
    /\ game_miner_parallel.Liga r = Some (py "Wiener Stadtliga")
    /\ game_miner_parallel.Runde r = Some (py "1. Runde")
    /\ game_miner_parallel.Latitude r = None
    /\ game_miner_parallel.Longitude r = None.
Proof.
  intros weblink s'.
  destruct (coordinate_failure_is_not_an_error
              latin1 samples.no_date weblink samples.match_session _ 2
              (fun _ => Raise game_miner_parallel.timeout) 5
              eq_refl eq_refl)
    as (r & Hm & Herr & _ & _ & Hliga & Hrunde & Hheim & _ & _ & _ & _ & _
        & _ & _ & Hnone).
  exists r. split; [exact Hm|]. split; [exact Herr|].
  split; [exact Hheim|]. split; [exact Hliga|]. split; [exact Hrunde|].
  apply Hnone. intros k _. exact I.
Defined.

(* ================================================================= *)
(** * The crawler: unique hrefs, resume, load-more clicks *)
(* ================================================================= *)

Section crawler.
Import fminer.
Context (U : Unicode).

Lemma write_new_unseen (items : list item) (w : world) :
  write_new items w
  = (length (unseen (seen w) items),
     {| seen := seen w ∪ list_to_set (map item_href (unseen (seen w) items));
        appended := appended w ++ map record_of (unseen (seen w) items);
        printed := printed w
                   ++ map (fun it => WRITE (item_href it))
                          (unseen (seen w) items) |}).
Proof.
  revert w. induction items as [|[[[text href] src] ts] items IH]; intros w.
  - simpl. rewrite !app_nil_r, (right_id_L ∅ (∪)). destruct w; reflexivity.
  - assert (Hh : item_href (text, href, src, ts) = href) by reflexivity.
    cbn [write_new unseen]. rewrite Hh.
    destruct (bool_decide (href ∈ seen w)); [apply IH|].
    rewrite IH. unfold append_row_immediate, print.
    cbn [seen appended printed head default length map].
    rewrite Hh, <- !app_assoc, list_to_set_cons, (assoc_L (∪)).
    reflexivity.
Qed.

Lemma unseen_spec (seen0 : gset pystr) (items : list item) :
  NoDup (map item_href (unseen seen0 items))
  /\ forall h, h ∈ map item_href (unseen seen0 items) ->
               (h ∉ seen0) /\ h ∈ map item_href items.
Proof.
  revert seen0. induction items as [|it items IH]; intros seen0; simpl.
  - split; [constructor|]. intros h Hh. inversion Hh.
  - destruct (bool_decide (item_href it ∈ seen0)) eqn:E.
    + destruct (IH seen0) as [Hnd Hin]. split; [exact Hnd|].
      intros h Hh. destruct (Hin h Hh). split; [assumption|].
      right. assumption.
    + apply bool_decide_eq_false in E.
      destruct (IH (seen0 ∪ {[item_href it]})) as [Hnd Hin]. simpl. split.
      * constructor; [|exact Hnd].
        intros Hh. apply Hin in Hh as [Hh _]. set_solver.
      * intros h Hh. apply elem_of_cons in Hh as [->|Hh].
        -- split; [exact E|left].
        -- apply Hin in Hh as [Hh1 Hh2]. split; [set_solver|].
           right. assumption.
Qed.

Lemma href_of_record_of (items : list item) :
  map href_of (map record_of items) = map item_href items.
Proof. rewrite map_map. reflexivity. Qed.



Lemma collect_same_file (l : listing) clicks k (w : world) :
  same_file w (collect_links_from_page U l clicks k w).2.
Proof.
  unfold collect_links_from_page. destruct (l_links l clicks); split;
    reflexivity.
Qed.

Lemma click_more_same_file max clicks button (w : world) :
  same_file w (click_more_until_stable max clicks button w).2.
Proof.
  revert clicks w. induction button as [|a button IH]; intros clicks w;
    cbn [click_more_until_stable].
  - destruct (max <=? clicks); split; reflexivity.
  - destruct (max <=? clicks); [split; reflexivity|].
    destruct a as [[]|e].
    + destruct (IH (S clicks) (print (CLICK (S clicks)) w)) as [H1 H2].
      split; [rewrite H1|rewrite H2]; reflexivity.
    + destruct (is_class TimeoutException e); [split; reflexivity|].
      destruct (is_class StaleElementReferenceException e);
        [apply IH|split; reflexivity].
Qed.

(** What the collections and the click loop leave alone, and the
    writing of collected items keeps, holds all along the work on a
    listing, whichever way it ends. *)
Lemma stream_preserves (Q : world -> Prop) (l : listing) :
  (forall w w', same_file w w' -> Q w -> Q w') ->
  (forall n k els w,
     l_links l n = Ok els -> Q w ->
     Q (write_new (collect_loop U (l_url l) (l_now l k) ∅ els) w).2) ->
  forall w, Q w -> Q (stream_links_from_url U l w).2.
Proof.
  intros Hsame Hwrite w Hw.
  unfold stream_links_from_url, collect_links_from_page.
  destruct (safe_get l 3); [|exact Hw].
  destruct (l_table l); [|exact Hw].
  assert (Hw1 : Q (print SCRAPE w)).
  { apply (Hsame w); [split; reflexivity|exact Hw]. }
  destruct (l_links l 0) as [els0|e] eqn:E0; [|exact Hw1].
  pose proof (Hwrite 0 0 els0 _ E0 Hw1) as Hw2.
  destruct (write_new _ (print SCRAPE w)) as [total_new w2].
  cbn [snd] in Hw2.
  pose proof (click_more_same_file max_clicks 0 (l_button l) w2) as H3.
  destruct (click_more_until_stable max_clicks 0 (l_button l) w2)
    as [[clicks|e] w3];
    cbn [snd] in H3; apply (Hsame _ _ H3) in Hw2; [|exact Hw2].
  assert (Hw4 : Q (print SCRAPE w3)).
  { apply (Hsame w3); [split; reflexivity|exact Hw2]. }
  destruct (l_links l clicks) as [elsn|e] eqn:En; [|exact Hw4].
  pose proof (Hwrite clicks 1 elsn _ En Hw4) as Hw5.
  destruct (write_new _ (print SCRAPE w3)) as [new_round w5].
  exact Hw5.
Qed.




Lemma dict_get_href (h : pystr) (rest : list pystr) :
  dict_get header (h :: rest) (py "href") = Some h.
Proof.
  destruct rest as [|x [|y rest]]; [vm_compute; reflexivity..|].
  unfold dict_get, header.
  rewrite drop_ge by (cbn [length]; lia).
  vm_compute. reflexivity.
Qed.

(** The seen-set of a resumed run holds every href of the prior
    output. *)
Lemma load_existing_hrefs_complete (f : csv_file) (h : pystr) :
  prior_output U f -> h ∈ hrefs f -> h ∈ load_existing_hrefs U (Some f).
Proof.
  intros (Hread & rows & Hrec & Hstored) Hh.
  unfold load_existing_hrefs. rewrite Hread, Hrec.
  unfold hrefs in Hh. rewrite Hrec in Hh. simpl in Hh.
  apply list_elem_of_fmap in Hh as (rec & -> & Hin).
  rewrite Forall_forall in Hstored.
  destruct (Hstored rec Hin) as (h & rest & -> & Hne & Hstrip).
  apply elem_of_list_to_set, list_elem_of_In, filter_In. split.
  - apply in_map_iff. exists (h :: rest). split.
    + rewrite dict_get_href. simpl. exact Hstrip.
    + apply filter_In. split; [apply list_elem_of_In; exact Hin|].
      reflexivity.
  - simpl. destruct h; [contradiction|reflexivity].
Qed.

(** *** The lines written are well-formed *)

Lemma unseen_sublist (seen0 : gset pystr) (items : list item) (it : item) :
  it ∈ unseen seen0 items -> it ∈ items.
Proof.
  revert seen0. induction items as [|it0 items IH]; intros seen0; simpl.
  - intros H. inversion H.
  - destruct (bool_decide (item_href it0 ∈ seen0)).
    + intros H. right. eapply IH. exact H.
    + intros H. apply elem_of_cons in H as [->|H]; [left|].
      right. eapply IH. exact H.
Qed.

Lemma collect_loop_href (source_url now_iso : pystr)
      (seen_local : gset pystr) (els : list link_element) (it : item) :
  it ∈ collect_loop U source_url now_iso seen_local els ->
  item_href it <> []
  /\ exists el h, el ∈ els /\ el_href el = Some h
                  /\ item_href it
                     = Str.replace (py "/Spielbericht/") (py "/") None h.
Proof.
  revert seen_local. induction els as [|el els IH]; intros seen_local;
    cbn [collect_loop].
  - intros H. inversion H.
  - assert (Hrest : forall sl,
               it ∈ collect_loop U source_url now_iso sl els ->
               item_href it <> []
               /\ exists el0 h, el0 ∈ el :: els /\ el_href el0 = Some h
                   /\ item_href it
                      = Str.replace (py "/Spielbericht/") (py "/") None h).
    { intros sl H. destruct (IH sl H) as (Hne & el0 & h & Hin & Hh & Heq).
      split; [exact Hne|]. exists el0, h.
      split; [right; exact Hin|]. split; assumption. }
    destruct (negb _ || _) eqn:E1; [apply Hrest|].
    destruct (Str.contains (py "verein") _); [apply Hrest|].
    destruct (negb (Str.contains (py "oefb.at") _)); [apply Hrest|].
    intros H. apply elem_of_cons in H as [->|H]; [|eapply Hrest; exact H].
    apply orb_false_elim in E1 as [E1 _]. apply negb_false_iff in E1.
    unfold item_href. cbn [fst snd]. split.
    + intros Heq. rewrite Heq in E1. discriminate.
    + destruct (el_href el) as [h|] eqn:Eh.
      * exists el, h. split; [left|]. split; [exact Eh|reflexivity].
      * discriminate.
Qed.

Lemma write_new_stored (l : listing) n k els (w : world) :
  shows_urls U l ->
  l_links l n = Ok els ->
  Forall (stored U) (appended w) ->
  Forall (stored U)
         (appended
            (write_new (collect_loop U (l_url l) (l_now l k) ∅ els) w).2).
Proof.
  intros Hl Hn Hw. rewrite write_new_unseen. cbn [snd appended].
  apply Forall_app. split; [exact Hw|].
  apply Forall_forall. intros rec Hrec.
  apply list_elem_of_fmap in Hrec as (it & -> & Hit).
  apply unseen_sublist, collect_loop_href in Hit
    as (Hne & el & h & Hel & Hh & Heq).
  exists (item_href it), [it.1.2; it.2].
  split; [reflexivity|]. split; [exact Hne|].
  rewrite Heq. exact (Hl n els el h Hn Hel Hh).
Qed.

Lemma scrape_loop_stored (urls : list listing) (w : world) :
  Forall (shows_urls U) urls ->
  Forall (stored U) (appended w) ->
  Forall (stored U) (appended (scrape_loop U urls w)).
Proof.
  revert w. induction urls as [|l urls IH]; intros w Hurls Hw; simpl;
    [exact Hw|].
  apply Forall_cons in Hurls as [Hl Hurls]. apply IH; [exact Hurls|].
  apply (stream_preserves (fun w => Forall (stored U) (appended w))).
  - intros w1 w2 [_ ->]. trivial.
  - intros n k els w1 Hn. apply (write_new_stored l n); assumption.
  - exact Hw.
Qed.


(** ** The load-more clicks *)

(** The click loop, when it ends without an exception: it prints one
    line per click and stops at the ceiling or when the button is gone;
    before that every attempt was a click or a stale element. *)
Lemma click_more_Ok max clicks button (w : world) n w' :
  click_more_until_stable max clicks button w = (Ok n, w') ->
  clicks <= n
  /\ (clicks <= max -> n <= max)
  /\ printed w' = printed w ++ map CLICK (seq (S clicks) (n - clicks))
  /\ exists pre post,
      button = pre ++ post
      /\ forallb goes_on pre = true
      /\ length (List.filter clicked pre) = n - clicks
      /\ (max <= n \/ button_gone post = true).
Proof.
  revert clicks w. induction button as [|a button IH]; intros clicks w;
    cbn [click_more_until_stable].
  - destruct (max <=? clicks) eqn:E; intros [= <- <-].
    + apply Nat.leb_le in E. split; [lia|]. split; [lia|].
      rewrite Nat.sub_diag, app_nil_r. split; [reflexivity|].
      exists [], []. auto.
    + split; [lia|]. split; [lia|].
      rewrite Nat.sub_diag, app_nil_r. split; [reflexivity|].
      exists [], []. auto.
  - destruct (max <=? clicks) eqn:E.
    { intros [= <- <-]. apply Nat.leb_le in E. split; [lia|]. split; [lia|].
      rewrite Nat.sub_diag, app_nil_r. split; [reflexivity|].
      exists [], (a :: button). auto. }
    apply Nat.leb_gt in E. destruct a as [[]|e].
    + intros H. apply IH in H as (Hle & Hmax & Hp & pre & post & -> & Hgo
                                  & Hcount & Hend).
      split; [lia|]. split; [intros _; apply Hmax; lia|]. split.
      * rewrite Hp. unfold print. cbn [printed].
        replace (n - clicks) with (S (n - S clicks)) by lia.
        rewrite <- app_assoc. reflexivity.
      * exists (Ok tt :: pre), post. split; [reflexivity|].
        split; [exact Hgo|]. split; [simpl; lia|exact Hend].
    + destruct (is_class TimeoutException e) eqn:Et.
      { intros [= <- <-]. split; [lia|]. split; [lia|].
        rewrite Nat.sub_diag, app_nil_r. split; [reflexivity|].
        exists [], (Raise e :: button). simpl. auto. }
      destruct (is_class StaleElementReferenceException e) eqn:Es;
        [|discriminate].
      intros H. apply IH in H as (Hle & Hmax & Hp & pre & post & -> & Hgo
                                  & Hcount & Hend).
      split; [lia|]. split; [exact Hmax|]. split; [exact Hp|].
      exists (Raise e :: pre), post. split; [reflexivity|]. split.
      * cbn [forallb goes_on]. rewrite Et, Es. exact Hgo.
      * split; [exact Hcount|exact Hend].
Qed.

(** C8 (amended): on a listing that is worked through without an
    exception, the links are collected and the new ones appended
    before the first click; then the button is clicked, with nothing
    collected in between, until it is gone, times out or the ceiling is
    reached; then the links are collected and the new ones appended
    once more, on the page as the last click left it. *)
Theorem links_are_collected_before_and_after_the_clicks
        (l : listing) (w : world) (r : nat * nat) (w' : world) :
  stream_links_from_url U l w = (Ok r, w') ->
  exists n els0 elsn pre post,
    l_links l 0 = Ok els0 /\ l_links l n = Ok elsn
    /\ let items0 :=
         unseen (seen w) (collect_loop U (l_url l) (l_now l 0) ∅ els0) in
       let itemsn :=
         unseen (seen w ∪ list_to_set (map item_href items0))
                (collect_loop U (l_url l) (l_now l 1) ∅ elsn) in
       printed w'
       = printed w ++ [SCRAPE] ++ map (fun it => WRITE (item_href it)) items0
         ++ map CLICK (seq 1 n)
         ++ [SCRAPE] ++ map (fun it => WRITE (item_href it)) itemsn
       /\ appended w'
          = appended w ++ map record_of items0 ++ map record_of itemsn
       /\ l_button l = pre ++ post
       /\ forallb goes_on pre = true
       /\ length (List.filter clicked pre) = n
       /\ (n = max_clicks \/ button_gone post = true).
Proof.
  unfold stream_links_from_url, collect_links_from_page.
  destruct (safe_get l 3); [|discriminate].
  destruct (l_table l); [|discriminate].
  destruct (l_links l 0) as [els0|e] eqn:E0; [|discriminate].
  rewrite write_new_unseen. cbn [seen appended printed print].
  match goal with
  | |- context [click_more_until_stable _ _ _ ?w1] => set (w1' := w1)
  end.
  destruct (click_more_until_stable max_clicks 0 (l_button l) w1')
    as [[n|e] w2] eqn:Ec; [|discriminate].
  pose proof (click_more_same_file max_clicks 0 (l_button l) w1') as [Hs Ha].
  rewrite Ec in Hs, Ha. cbn [snd] in Hs, Ha.
  apply click_more_Ok in Ec
    as (_ & Hmax & Hp & pre & post & Hb & Hgo & Hcount & Hend).
  destruct (l_links l n) as [elsn|e] eqn:En; [|discriminate].
  rewrite write_new_unseen. cbn [seen appended printed print].
  intros [= _ <-]. cbn [seen appended printed].
  exists n, els0, elsn, pre, post.
  split; [reflexivity|]. split; [exact En|]. cbn zeta.
  rewrite Hs, Ha, Hp. subst w1'. cbn [seen appended printed].
  rewrite Nat.sub_0_r in *. rewrite <- !app_assoc.
  split; [reflexivity|]. split; [reflexivity|]. split; [exact Hb|].
  split; [exact Hgo|]. split; [exact Hcount|].
  destruct Hend as [Hn|Hgone]; [left|right; exact Hgone].
  apply Nat.le_antisymm; [apply Hmax; lia|exact Hn].
Qed.
End crawler.



(** C8 as worded fails: the button is clicked twice in a row and the
    links are collected only after the second click; the link that the
    first click reveals is never written. *)
Lemma no_collection_between_two_clicks :
  let w := (fminer.stream_links_from_url
              latin1 samples.paged_listing (fminer.empty_world ∅)).2 in
  fminer.printed w
  = [ fminer.SCRAPE; fminer.WRITE (py "https://www.oefb.at/bewerbe/Spiel/0");
      fminer.CLICK 1; fminer.CLICK 2;
      fminer.SCRAPE; fminer.WRITE (py "https://www.oefb.at/bewerbe/Spiel/2") ]
  /\ fminer.scrape_after_each_click (fminer.printed w) = false
  /\ (fminer.l_links samples.paged_listing 1
      = Ok [samples.match_link 1])
  /\ py "https://www.oefb.at/bewerbe/Spiel/1"
     ∉ map fminer.href_of (fminer.appended w).
Proof.
  cbn zeta. split; [vm_compute; reflexivity|].
  split; [vm_compute; reflexivity|]. split; [reflexivity|].
  apply (bool_decide_eq_false_1 _). vm_compute. reflexivity.
Qed.

(** On the sample listing the loop ends because the button is gone. *)
Lemma links_are_collected_before_and_after_the_clicks_witness :
  exists n pre post,
    fminer.l_button samples.paged_listing = pre ++ post
    /\ forallb fminer.goes_on pre = true
    /\ length (List.filter fminer.clicked pre) = n
    /\ (n = fminer.max_clicks \/ fminer.button_gone post = true).
Proof.
  destruct (links_are_collected_before_and_after_the_clicks
              latin1 samples.paged_listing (fminer.empty_world ∅)
              (1, 2)
              (fminer.stream_links_from_url
                 latin1 samples.paged_listing (fminer.empty_world ∅)).2)
    as (n & els0 & elsn & pre & post & _ & _ & _ & _ & Hb & Hgo & Hc & Hend).
  { vm_compute. reflexivity. }
  exists n, pre, post. auto.
Defined.
(* ================================================================= *)
(** * The crawler: what a page gives, what a run leaves *)
(* ================================================================= *)

Section crawler_pages.
Import fminer.
Context (U : Unicode).

(** The loop over the anchors keeps an href when it is new to the page
    and passes the three filters, once per page. *)
Lemma collect_loop_spec (source_url now_iso : pystr)
      (seen_local : gset pystr) (els : list link_element) :
  let items := collect_loop U source_url now_iso seen_local els in
  NoDup (map item_href items)
  /\ (forall h,
        h ∈ map item_href items <->
        (h ∉ seen_local) /\ h <> []
        /\ Str.contains (py "verein") (lower U h) = false
        /\ Str.contains (py "oefb.at") h = true
        /\ exists el, el ∈ els
             /\ Str.replace (py "/Spielbericht/") (py "/") None
                            (default [] (el_href el)) = h)
  /\ Forall (fun it : item =>
               exists el, el ∈ els
                 /\ it = (Str.strip U (default [] (el_text el)),
                          Str.replace (py "/Spielbericht/") (py "/") None
                                      (default [] (el_href el)),
                          source_url, now_iso)) items.
Proof.
  cbn zeta. revert seen_local.
  induction els as [|el els IH]; intros seen_local; cbn [collect_loop].
  - split; [constructor|]. split; [|constructor].
    intros h. split; [intros H; inversion H|].
    intros (_ & _ & _ & _ & el & Hel & _). inversion Hel.
  - set (h0 := Str.replace (py "/Spielbericht/") (py "/") None
                           (default [] (el_href el))).
    assert (Hskip :
      (negb (Str.truthy h0) || bool_decide (h0 ∈ seen_local) = true
       \/ Str.contains (py "verein") (lower U h0) = true
       \/ negb (Str.contains (py "oefb.at") h0) = true) ->
      let items := collect_loop U source_url now_iso seen_local els in
      NoDup (map item_href items)
      /\ (forall h,
            h ∈ map item_href items <->
            (h ∉ seen_local) /\ h <> []
            /\ Str.contains (py "verein") (lower U h) = false
            /\ Str.contains (py "oefb.at") h = true
            /\ exists el0, el0 ∈ el :: els
                 /\ Str.replace (py "/Spielbericht/") (py "/") None
                                (default [] (el_href el0)) = h)
      /\ Forall (fun it : item =>
                   exists el0, el0 ∈ el :: els
                     /\ it = (Str.strip U (default [] (el_text el0)),
                              Str.replace (py "/Spielbericht/") (py "/") None
                                          (default [] (el_href el0)),
                              source_url, now_iso))
                (collect_loop U source_url now_iso seen_local els)).
    { intros Hwhy. cbn zeta. destruct (IH seen_local) as (Hnd & Hiff & Hall).
      split; [exact Hnd|]. split.
      - intros h. rewrite Hiff. split.
        + intros (H1 & H2 & H3 & H4 & el0 & Hel0 & Heq).
          do 4 (split; [assumption|]). exists el0. split; [right|]; assumption.
        + intros (H1 & H2 & H3 & H4 & el0 & Hel0 & Heq).
          do 4 (split; [assumption|]).
          apply elem_of_cons in Hel0 as [->|Hel0]; [|eauto].
          exfalso. fold h0 in Heq. subst h.
          destruct Hwhy as [Hwhy|[Hwhy|Hwhy]].
          * apply orb_true_iff in Hwhy as [Hwhy|Hwhy].
            -- destruct h0; [contradiction|discriminate].
            -- apply bool_decide_eq_true in Hwhy. contradiction.
          * congruence.
          * rewrite H4 in Hwhy. discriminate.
      - eapply Forall_impl; [exact Hall|].
        intros it (el0 & Hel0 & Heq). exists el0. split; [right|]; assumption. }
    destruct (negb (Str.truthy h0) || bool_decide (h0 ∈ seen_local)) eqn:E1;
      [apply Hskip; left; reflexivity|].
    destruct (Str.contains (py "verein") (lower U h0)) eqn:E2;
      [apply Hskip; right; left; reflexivity|].
    destruct (negb (Str.contains (py "oefb.at") h0)) eqn:E3;
      [apply Hskip; right; right; reflexivity|].
    clear Hskip. apply orb_false_elim in E1 as [E1 E1'].
    apply negb_false_iff in E1. apply negb_false_iff in E3.
    apply bool_decide_eq_false in E1'.
    destruct (IH (seen_local ∪ {[h0]})) as (Hnd & Hiff & Hall).
    cbn [map]. change (item_href (_, h0, source_url, now_iso)) with h0.
    split; [|split].
    + constructor; [|exact Hnd]. rewrite Hiff. intros (Hno & _). set_solver.
    + intros h. rewrite elem_of_cons, Hiff. split.
      * intros [->|(H1 & H2 & H3 & H4 & el0 & Hel0 & Heq)].
        -- split; [exact E1'|]. split; [intros ->; discriminate|].
           split; [exact E2|]. split; [exact E3|].
           exists el. split; [left|reflexivity].
        -- split; [set_solver|]. do 3 (split; [assumption|]).
           exists el0. split; [right|]; assumption.
      * intros (H1 & H2 & H3 & H4 & el0 & Hel0 & Heq).
        destruct (decide (h = h0)) as [->|Hne]; [left; reflexivity|right].
        split; [set_solver|]. do 3 (split; [assumption|]).
        apply elem_of_cons in Hel0 as [->|Hel0]; [|eauto].
        fold h0 in Heq. congruence.
    + constructor.
      * exists el. split; [left|reflexivity].
      * eapply Forall_impl; [exact Hall|].
        intros it (el0 & Hel0 & Heq). exists el0. split; [right|]; assumption.
Qed.

(** X1: a collection on a page whose anchors can be read returns, for
    each href that is left non-empty by the removal of the path infix,
    has no "verein" in its lower case and holds "oefb.at", exactly one
    item; every item carries the trimmed text of an anchor, the URL of
    the listing and the time of the collection; and the only trace of
    the collection is one printed line. *)
Theorem collected_links_pass_the_filters
        (l : listing) (clicks k : nat) (w : world) (els : list link_element) :
  l_links l clicks = Ok els ->
  exists items,
    collect_links_from_page U l clicks k w = (Ok items, print SCRAPE w)
    /\ NoDup (map item_href items)
    /\ (forall h,
          h ∈ map item_href items <->
          h <> []
          /\ Str.contains (py "verein") (lower U h) = false
          /\ Str.contains (py "oefb.at") h = true
          /\ exists el, el ∈ els
               /\ Str.replace (py "/Spielbericht/") (py "/") None
                              (default [] (el_href el)) = h)
    /\ Forall (fun it : item =>
                 exists el, el ∈ els
                   /\ it = (Str.strip U (default [] (el_text el)),
                            Str.replace (py "/Spielbericht/") (py "/") None
                                        (default [] (el_href el)),
                            l_url l, l_now l k)) items.
Proof.
  intros Hels. unfold collect_links_from_page. rewrite Hels.
  eexists. split; [reflexivity|].
  destruct (collect_loop_spec (l_url l) (l_now l k) ∅ els)
    as (Hnd & Hiff & Hall).
  split; [exact Hnd|]. split; [|exact Hall].
  intros h. rewrite Hiff. split.
  - intros (_ & H). exact H.
  - intros H. split; [set_solver|exact H].
Qed.
End crawler_pages.

Section crawler_runs.
Import fminer.
Context (U : Unicode).

(** The number of clicks does not depend on the world. *)
Lemma click_more_result max clicks button (w w0 : world) :
  (click_more_until_stable max clicks button w).1
  = (click_more_until_stable max clicks button w0).1.
Proof.
  revert clicks w w0. induction button as [|a button IH]; intros clicks w w0;
    cbn [click_more_until_stable].
  - destruct (max <=? clicks); reflexivity.
  - destruct (max <=? clicks); [reflexivity|].
    destruct a as [[]|e]; [apply IH|].
    destruct (is_class TimeoutException e); [reflexivity|].
    destruct (is_class StaleElementReferenceException e);
      [apply IH|reflexivity].
Qed.

Lemma unseen_app (seen0 : gset pystr) (a b : list item) :
  unseen seen0 (a ++ b)
  = unseen seen0 a
    ++ unseen (seen0 ∪ list_to_set (map item_href (unseen seen0 a))) b.
Proof.
  revert seen0. induction a as [|it a IH]; intros seen0; simpl.
  - rewrite (right_id_L ∅ (∪)). reflexivity.
  - destruct (bool_decide (item_href it ∈ seen0)); [apply IH|].
    simpl. rewrite IH, (assoc_L (∪)). reflexivity.
Qed.

(** What the work on one listing does to the seen-set and to the
    file, whichever way it ends. *)
Lemma stream_offered (l : listing) (w : world) :
  let new := unseen (seen w) (offered U l) in
  appended (stream_links_from_url U l w).2 = appended w ++ map record_of new
  /\ seen (stream_links_from_url U l w).2
     = seen w ∪ list_to_set (map item_href new).
Proof.
  cbn zeta. unfold stream_links_from_url, offered, collect_links_from_page.
  assert (Hnil : forall w0 : world,
             appended w0 = appended w0 ++ map record_of (unseen (seen w0) [])
             /\ seen w0
                = seen w0 ∪ list_to_set (map item_href (unseen (seen w0) []))).
  { intros w0. simpl. rewrite app_nil_r, (right_id_L ∅ (∪)). auto. }
  destruct (safe_get l 3); [|apply Hnil].
  destruct (l_table l); [|apply Hnil].
  destruct (l_links l 0) as [els0|e]; [|exact (Hnil w)].
  rewrite unseen_app, write_new_unseen. cbn [seen appended printed print].
  set (items0 := collect_loop U (l_url l) (l_now l 0) ∅ els0).
  match goal with
  | |- context [click_more_until_stable _ _ _ ?w1] => set (w1' := w1)
  end.
  pose proof (click_more_same_file max_clicks 0 (l_button l) w1') as [Hs Ha].
  pose proof (click_more_result max_clicks 0 (l_button l) w1' (empty_world ∅))
    as Hr.
  destruct (click_more_until_stable max_clicks 0 (l_button l) w1')
    as [r w2].
  cbn [fst snd] in Hs, Ha, Hr. rewrite <- Hr. clear Hr.
  subst w1'. cbn [seen appended] in Hs, Ha.
  destruct r as [n|e]; cbn [snd].
  - destruct (l_links l n) as [elsn|e]; cbn [snd].
    + rewrite write_new_unseen. cbn [snd seen appended printed print].
      rewrite Hs, Ha, map_app, map_app, list_to_set_app_L.
      rewrite <- app_assoc, (assoc_L (∪)). auto.
    + cbn [seen appended print]. rewrite Hs, Ha. simpl.
      rewrite !app_nil_r. auto.
  - rewrite Hs, Ha. simpl. rewrite !app_nil_r. auto.
Qed.

Lemma scrape_loop_app (a b : list listing) (w : world) :
  scrape_loop U (a ++ b) w = scrape_loop U b (scrape_loop U a w).
Proof.
  revert w. induction a as [|l a IH]; intros w; simpl; [reflexivity|].
  apply IH.
Qed.

Lemma unseen_covers (seen0 : gset pystr) (items : list item) (it : item) :
  it ∈ items ->
  item_href it ∈ seen0 \/ item_href it ∈ map item_href (unseen seen0 items).
Proof.
  revert seen0. induction items as [|it0 items IH]; intros seen0 Hin;
    [inversion Hin|].
  simpl. destruct (bool_decide (item_href it0 ∈ seen0)) eqn:E.
  - apply elem_of_cons in Hin as [->|Hin]; [|apply IH; exact Hin].
    left. apply bool_decide_eq_true in E. exact E.
  - apply elem_of_cons in Hin as [->|Hin]; [right; left|].
    destruct (IH (seen0 ∪ {[item_href it0]}) Hin) as [H|H].
    + apply elem_of_union in H as [H|H]; [left; exact H|].
      apply elem_of_singleton in H. rewrite H. right. left.
    + right. right. exact H.
Qed.

Lemma unseen_all_seen (seen0 : gset pystr) (items : list item) :
  (forall it, it ∈ items -> item_href it ∈ seen0) -> unseen seen0 items = [].
Proof.
  induction items as [|it items IH]; intros H; [reflexivity|].
  simpl. rewrite bool_decide_eq_true_2 by (apply H; left).
  apply IH. intros it' Hit'. apply H. right. exact Hit'.
Qed.

(** After the loop over the listings, every href that one of them
    offers is in the seen-set. *)
Lemma scrape_loop_effect (urls : list listing) (w : world) :
  exists new,
    appended (scrape_loop U urls w) = appended w ++ new
    /\ seen (scrape_loop U urls w) = seen w ∪ list_to_set (map href_of new)
    /\ forall l it, l ∈ urls -> it ∈ offered U l ->
                    item_href it ∈ seen (scrape_loop U urls w).
Proof.
  revert w. induction urls as [|l urls IH]; intros w; simpl.
  - exists []. rewrite app_nil_r. simpl. rewrite (right_id_L ∅ (∪)).
    split; [reflexivity|]. split; [reflexivity|].
    intros l it Hl. inversion Hl.
  - destruct (stream_offered l w) as [Ha Hs].
    destruct (IH (stream_links_from_url U l w).2) as (new & Ha' & Hs' & Hall).
    exists (map record_of (unseen (seen w) (offered U l)) ++ new).
    split; [rewrite Ha', Ha, <- app_assoc; reflexivity|]. split.
    + rewrite Hs', Hs, map_app, list_to_set_app_L, href_of_record_of.
      rewrite (assoc_L (∪)). reflexivity.
    + intros l' it Hl' Hit. apply elem_of_cons in Hl' as [->|Hl'];
        [|eapply Hall; eassumption].
      rewrite Hs', Hs. apply elem_of_union_l.
      destruct (unseen_covers (seen w) _ it Hit) as [H|H].
      * apply elem_of_union_l. exact H.
      * apply elem_of_union_r, elem_of_list_to_set. exact H.
Qed.

Lemma scrape_loop_nothing_new (urls : list listing) (w : world) :
  (forall l it, l ∈ urls -> it ∈ offered U l -> item_href it ∈ seen w) ->
  appended (scrape_loop U urls w) = appended w
  /\ seen (scrape_loop U urls w) = seen w.
Proof.
  revert w. induction urls as [|l urls IH]; intros w H; simpl;
    [split; reflexivity|].
  destruct (stream_offered l w) as [Ha Hs].
  rewrite unseen_all_seen in Ha, Hs
    by (intros it Hit; apply (H l it); [left|exact Hit]).
  simpl in Ha, Hs. rewrite app_nil_r in Ha. rewrite (right_id_L ∅ (∪)) in Hs.
  destruct (IH (stream_links_from_url U l w).2) as [Ha' Hs'].
  { intros l' it Hl' Hit. rewrite Hs. apply (H l' it); [right|]; assumption. }
  split; congruence.
Qed.

(** X2: whichever way the work on a listing ends, the lines it has
    appended are those of the items that the listing offers and whose
    href was not seen before, each href once and in the order of the
    pages, and the seen-set has grown by exactly these hrefs; so every
    href offered is in the seen-set afterwards. *)
Theorem a_listing_appends_its_unseen_links (l : listing) (w : world) :
  let new := unseen (seen w) (offered U l) in
  let w' := (stream_links_from_url U l w).2 in
  appended w' = appended w ++ map record_of new
  /\ seen w' = seen w ∪ list_to_set (map item_href new)
  /\ NoDup (map item_href new)
  /\ (forall h, h ∈ map item_href new ->
        (h ∉ seen w) /\ h ∈ map item_href (offered U l))
  /\ (forall it, it ∈ offered U l -> item_href it ∈ seen w').
Proof.
  cbn zeta. destruct (stream_offered l w) as [Ha Hs].
  destruct (unseen_spec (seen w) (offered U l)) as [Hnd Hin].
  split; [exact Ha|]. split; [exact Hs|]. split; [exact Hnd|].
  split; [exact Hin|].
  intros it Hit. rewrite Hs.
  destruct (unseen_covers (seen w) _ it Hit) as [H|H].
  - apply elem_of_union_l. exact H.
  - apply elem_of_union_r, elem_of_list_to_set. exact H.
Qed.

Lemma ensure_csv_with_header_records (outfile : option csv_file) :
  exists first rest,
    f_records (ensure_csv_with_header outfile) = first :: rest.
Proof.
  destruct outfile as [f|]; simpl; [|eauto].
  destruct (f_records f) as [|x r] eqn:E; simpl; eauto.
Qed.

(** X3: at the end of a run, every href that a listing of the run
    offers is in the file, unless the run was told that it was known
    already. *)
Theorem offered_links_are_stored_or_known
        (urls : list listing) (outfile : option csv_file)
        (already_seen : gset pystr) (l : listing) (it : item) :
  l ∈ urls ->
  it ∈ offered U l ->
  (item_href it ∈ already_seen)
  \/ item_href it
     ∈ hrefs (scrape_multiple_urls_streaming U urls outfile (Ok tt)
                                             already_seen).2.
Proof.
  intros Hl Hit. unfold scrape_multiple_urls_streaming, hrefs.
  cbn [snd f_records].
  destruct (scrape_loop_effect urls (empty_world already_seen))
    as (new & Ha & Hs & Hall).
  pose proof (Hall l it Hl Hit) as Hin. rewrite Hs in Hin.
  apply elem_of_union in Hin as [Hin|Hin]; [left; exact Hin|right].
  apply elem_of_list_to_set in Hin.
  destruct (ensure_csv_with_header_records outfile) as (first & rest & ->).
  rewrite Ha. simpl. rewrite map_app. apply elem_of_app. right. exact Hin.
Qed.

Lemma unseen_length (seen0 : gset pystr) (items : list item) :
  length (unseen seen0 items) <= length items.
Proof.
  revert seen0. induction items as [|it items IH]; intros seen0; simpl;
    [lia|].
  destruct (bool_decide (item_href it ∈ seen0)); simpl.
  - specialize (IH seen0). lia.
  - specialize (IH (seen0 ∪ {[item_href it]})). lia.
Qed.

(** The clicks made and the rows counted on a listing that is worked
    through. *)
Lemma stream_Ok (l : listing) (w : world) found new w' :
  stream_links_from_url U l w = (Ok (found, new), w') ->
  new = length (unseen (seen w) (offered U l))
  /\ found <= length (offered U l).
Proof.
  unfold stream_links_from_url, offered, collect_links_from_page.
  destruct (safe_get l 3); [|discriminate].
  destruct (l_table l); [|discriminate].
  destruct (l_links l 0) as [els0|e]; [|discriminate].
  rewrite unseen_app, write_new_unseen. cbn [seen appended printed print].
  match goal with
  | |- context [click_more_until_stable _ _ _ ?w1] => set (w1' := w1)
  end.
  pose proof (click_more_same_file max_clicks 0 (l_button l) w1') as [Hs Ha].
  pose proof (click_more_result max_clicks 0 (l_button l) w1' (empty_world ∅))
    as Hr.
  destruct (click_more_until_stable max_clicks 0 (l_button l) w1')
    as [r w2].
  cbn [fst snd] in Hs, Ha, Hr. rewrite <- Hr. clear Hr.
  subst w1'. cbn [seen appended] in Hs, Ha.
  destruct r as [n|e]; [|discriminate].
  destruct (l_links l n) as [elsn|e]; [|discriminate].
  rewrite write_new_unseen. cbn [seen appended printed print].
  intros [= <- <- _]. rewrite Hs, !length_app. split; [reflexivity|lia].
Qed.

(** X5: on a listing that is worked through, the count of new links
    that is returned and printed is the number of lines appended to the
    file, which are the offered items not seen before; the count of
    links found is at most the number of items offered. *)
Theorem total_new_counts_the_appended_rows
        (l : listing) (w : world) (found new : nat) (w' : world) :
  stream_links_from_url U l w = (Ok (found, new), w') ->
  length (appended w') = length (appended w) + new
  /\ appended w' = appended w ++ map record_of (unseen (seen w) (offered U l))
  /\ found <= length (offered U l)
  /\ new <= length (offered U l).
Proof.
  intros H. pose proof (stream_Ok l w found new w' H) as [Hnew Hfound].
  destruct (stream_offered l w) as [Ha _]. rewrite H in Ha. cbn [snd] in Ha.
  split; [rewrite Ha, length_app, length_map, Hnew; reflexivity|].
  split; [exact Ha|]. split; [exact Hfound|].
  rewrite Hnew. apply unseen_length.
Qed.

(** X6: a listing that the browser cannot open in three attempts, or
    whose schedule table does not appear, changes neither the seen-set
    nor the file and has nothing collected or clicked; the run goes on
    with the other listings as if it had not been given. *)
Theorem unreachable_listing_leaves_no_trace
        (l : listing) (before after : list listing) (w : world) :
  (forall i, 1 <= i <= 3 -> exists e, l_get l i = Raise e)
  \/ (exists e, l_table l = Raise e) ->
  (exists e, stream_links_from_url U l w = (Raise e, w))
  /\ scrape_loop U (before ++ l :: after) w
     = scrape_loop U (before ++ after) w.
Proof.
  intros Hwhy.
  assert (Hl : forall w0, exists e,
               stream_links_from_url U l w0 = (Raise e, w0)).
  { intros w0. unfold stream_links_from_url.
    destruct (safe_get l 3) as [[]|e] eqn:Eget; [|eauto].
    destruct Hwhy as [Hget|[e He]]; [|rewrite He; eauto].
    exfalso. unfold safe_get in Eget. cbn [safe_get_from] in Eget.
    destruct (Hget 1) as [e1 H1]; [lia|].
    destruct (Hget 2) as [e2 H2]; [lia|].
    destruct (Hget 3) as [e3 H3]; [lia|].
    rewrite H1, H2, H3 in Eget.
    destruct (is_webdriver e1); [|discriminate].
    destruct (is_webdriver e2); [|discriminate].
    destruct (is_webdriver e3); discriminate. }
  split; [apply Hl|].
  rewrite !scrape_loop_app. simpl.
  destruct (Hl (scrape_loop U before w)) as [e ->]. reflexivity.
Qed.

Lemma load_existing_hrefs_mono (f f' : csv_file) fieldnames rows more :
  f_readable f = true -> f_readable f' = true ->
  f_records f = fieldnames :: rows ->
  f_records f' = fieldnames :: rows ++ more ->
  load_existing_hrefs U (Some f) ⊆ load_existing_hrefs U (Some f').
Proof.
  intros Hr Hr' Hf Hf' h. unfold load_existing_hrefs.
  rewrite Hr, Hr', Hf, Hf'.
  rewrite !elem_of_list_to_set, !list_elem_of_In, !filter_In, !in_map_iff.
  intros [(rec & Heq & Hin) Ht]. split; [|exact Ht].
  exists rec. split; [exact Heq|].
  apply filter_In in Hin as [Hin Hne]. apply filter_In.
  split; [|exact Hne]. apply in_or_app. left. exact Hin.
Qed.

(** A run on a readable file of stored lines, started with no more than
    the hrefs of that file in the seen-set, leaves a file on which a
    resumed run appends nothing. *)
Lemma resume_after (urls : list listing) (rows : list csv_record)
      (seen0 : gset pystr) :
  Forall (shows_urls U) urls ->
  Forall (stored U) rows ->
  seen0 ⊆ load_existing_hrefs
            U (Some {| f_readable := true; f_records := header :: rows |}) ->
  let f1 := {| f_readable := true;
               f_records :=
                 (header :: rows)
                 ++ appended (scrape_loop U urls (empty_world seen0)) |} in
  (crawl U false urls (Some f1) (Ok tt)).2 = f1.
Proof.
  intros Hurls Hrows Hseen f1.
  set (w1 := scrape_loop U urls (empty_world seen0)) in *.
  assert (Hprior : prior_output U f1).
  { split; [reflexivity|]. exists (rows ++ appended w1).
    split; [reflexivity|]. apply Forall_app. split; [exact Hrows|].
    apply scrape_loop_stored; [exact Hurls|constructor]. }
  destruct (scrape_loop_effect urls (empty_world seen0))
    as (new & Ha & Hs & Hall).
  fold w1 in Ha, Hs, Hall. cbn [appended seen empty_world app] in Ha, Hs.
  assert (Hknown : forall l it, l ∈ urls -> it ∈ offered U l ->
             item_href it ∈ load_existing_hrefs U (Some f1)).
  { intros l it Hl Hit. pose proof (Hall l it Hl Hit) as Hin.
    rewrite Hs in Hin. apply elem_of_union in Hin as [Hin|Hin].
    - apply (load_existing_hrefs_mono
               {| f_readable := true; f_records := header :: rows |}
               f1 header rows (appended w1));
        [reflexivity|reflexivity|reflexivity|reflexivity|].
      apply Hseen. exact Hin.
    - apply (load_existing_hrefs_complete U); [exact Hprior|].
      unfold hrefs. subst f1. cbn [f_records tail app].
      rewrite map_app, Ha. apply elem_of_app. right.
      apply elem_of_list_to_set in Hin. exact Hin. }
  unfold crawl, scrape_multiple_urls_streaming. cbn [snd].
  destruct (scrape_loop_nothing_new
              urls (empty_world (load_existing_hrefs U (Some f1))) Hknown)
    as [Hnone _].
  rewrite Hnone. subst f1. simpl. rewrite app_nil_r. reflexivity.
Qed.

(** X4: when the pages show URLs, a run resumed on the file that a
    fresh run, or a run resumed on a prior output, has just written
    appends nothing as long as the site shows the same pages: the file
    stays as it is. *)
Theorem second_run_appends_nothing
        (urls : list listing) (outfile : option csv_file) (prior : csv_file) :
  Forall (shows_urls U) urls ->
  prior_output U prior ->
  (let f1 := (crawl U true urls outfile (Ok tt)).2 in
   (crawl U false urls (Some f1) (Ok tt)).2 = f1)
  /\ (let f1 := (crawl U false urls (Some prior) (Ok tt)).2 in
      (crawl U false urls (Some f1) (Ok tt)).2 = f1).
Proof.
  intros Hurls (Hread & rows & Hrec & Hstored). split.
  - apply (resume_after urls [] ∅ Hurls); [constructor|].
    apply empty_subseteq.
  - cbn zeta.
    assert (Hp : prior = {| f_readable := true; f_records := header :: rows |}).
    { destruct prior as [r recs]. simpl in Hread, Hrec. congruence. }
    pose proof (resume_after urls rows
                  (load_existing_hrefs U (Some prior)) Hurls Hstored) as H.
    rewrite Hp in H |- *. apply H. reflexivity.
Qed.
End crawler_runs.

Section crawler_edges.
Import fminer.
Context (U : Unicode).

Lemma crawler_safe_get_from_spec (l : listing) (left i : nat) :
  (safe_get_from l left i = Ok tt <->
     left = 0
     \/ exists k, i <= k < i + left /\ l_get l k = Ok tt
          /\ forall j, i <= j < k ->
               exists e, l_get l j = Raise e /\ is_webdriver e = true)
  /\ forall e,
       safe_get_from l left i = Raise e <->
       exists k, i <= k < i + left /\ l_get l k = Raise e
         /\ (is_webdriver e = false \/ S k = i + left)
         /\ forall j, i <= j < k ->
              exists e', l_get l j = Raise e' /\ is_webdriver e' = true.
Proof.
  revert i. induction left as [|left IH]; intros i; cbn [safe_get_from].
  - split.
    + split; [auto|reflexivity].
    + intros e. split; [discriminate|]. intros (k & Hk & _). lia.
  - destruct (IH (S i)) as [IHok IHraise].
    destruct (l_get l i) as [[]|e0] eqn:E0.
    { split.
      - split; [|reflexivity]. intros _. right. exists i.
        split; [lia|]. split; [exact E0|]. intros j Hj. lia.
      - intros e. split; [discriminate|].
        intros (k & Hk & Hget & _ & Hbefore).
        destruct (decide (k = i)) as [->|Hne]; [congruence|].
        destruct (Hbefore i) as (e' & He' & _); [lia|]. congruence. }
    destruct (is_webdriver e0) eqn:Ew.
    + destruct left as [|left'].
      * split.
        -- split; [discriminate|]. intros [H|(k & Hk & Hget & _)]; [lia|].
           replace k with i in Hget by lia. congruence.
        -- intros e. split.
           ++ intros [= <-]. exists i. split; [lia|]. split; [exact E0|].
              split; [right; lia|]. intros j Hj. lia.
           ++ intros (k & Hk & Hget & _). replace k with i in Hget by lia.
              congruence.
      * split.
        -- rewrite IHok. split.
           ++ intros [H|(k & Hk & Hget & Hbefore)]; [lia|]. right. exists k.
              split; [lia|]. split; [exact Hget|]. intros j Hj.
              destruct (decide (j = i)) as [->|Hne]; [eauto|].
              apply Hbefore. lia.
           ++ intros [H|(k & Hk & Hget & Hbefore)]; [lia|]. right.
              destruct (decide (k = i)) as [->|Hne]; [congruence|].
              exists k. split; [lia|]. split; [exact Hget|].
              intros j Hj. apply Hbefore. lia.
        -- intros e. rewrite IHraise. split.
           ++ intros (k & Hk & Hget & Hlast & Hbefore). exists k.
              split; [lia|]. split; [exact Hget|].
              split; [destruct Hlast; [left; assumption|right; lia]|].
              intros j Hj.
              destruct (decide (j = i)) as [->|Hne]; [eauto|].
              apply Hbefore. lia.
           ++ intros (k & Hk & Hget & Hlast & Hbefore).
              destruct (decide (k = i)) as [->|Hne].
              { rewrite E0 in Hget. injection Hget as <-.
                destruct Hlast; [congruence|lia]. }
              exists k. split; [lia|]. split; [exact Hget|].
              split; [destruct Hlast; [left; assumption|right; lia]|].
              intros j Hj. apply Hbefore. lia.
    + split.
      * split; [discriminate|]. intros [H|(k & Hk & Hget & Hbefore)]; [lia|].
        destruct (decide (k = i)) as [->|Hne]; [congruence|].
        destruct (Hbefore i) as (e' & He' & Hw); [lia|]. congruence.
      * intros e. split.
        -- intros [= <-]. exists i. split; [lia|]. split; [exact E0|].
           split; [left; exact Ew|]. intros j Hj. lia.
        -- intros (k & Hk & Hget & _ & Hbefore).
           destruct (decide (k = i)) as [->|Hne]; [congruence|].
           destruct (Hbefore i) as (e' & He' & Hw); [lia|]. congruence.
Qed.

(** X7: [safe_get] of the crawler returns exactly when no attempt is
    allowed or one of the attempts allowed succeeds after attempts
    that all failed with a WebDriver exception; it raises exactly the
    exception of the first attempt that fails otherwise, or of the
    last attempt allowed. *)
Theorem crawler_safe_get_retries (l : listing) (attempts : nat) :
  (safe_get l attempts = Ok tt <->
     attempts = 0
     \/ exists i, 1 <= i <= attempts /\ l_get l i = Ok tt
          /\ forall j, 1 <= j < i ->
               exists e, l_get l j = Raise e /\ is_webdriver e = true)
  /\ forall e,
       safe_get l attempts = Raise e <->
       exists i, 1 <= i <= attempts /\ l_get l i = Raise e
         /\ (is_webdriver e = false \/ i = attempts)
         /\ forall j, 1 <= j < i ->
              exists e', l_get l j = Raise e' /\ is_webdriver e' = true.
Proof.
  unfold safe_get.
  destruct (crawler_safe_get_from_spec l attempts 1) as [Hok Hraise]. split.
  - rewrite Hok. split.
    + intros [H|(k & Hk & H)]; [left; exact H|right].
      exists k. split; [lia|exact H].
    + intros [H|(k & Hk & H)]; [left; exact H|right].
      exists k. split; [lia|exact H].
  - intros e. rewrite Hraise. split.
    + intros (k & Hk & Hget & Hlast & Hbefore). exists k.
      split; [lia|]. split; [exact Hget|].
      split; [destruct Hlast; [left; assumption|right; lia]|exact Hbefore].
    + intros (k & Hk & Hget & Hlast & Hbefore). exists k.
      split; [lia|]. split; [exact Hget|].
      split; [destruct Hlast; [left; assumption|right; lia]|exact Hbefore].
Qed.

(** X10: however the click loop ends, it has printed one line per
    click, numbered from the count it started with, and has changed
    neither the seen-set nor the file; a count that starts below the
    ceiling does not pass it; and the only exceptions that leave the
    loop are those of an attempt that are neither a timeout nor a stale
    element. *)
Theorem click_loop_stops_or_fails
        (max clicks : nat) (button : list (result unit)) (w : world)
        (r : result nat) (w' : world) :
  click_more_until_stable max clicks button w = (r, w') ->
  exists n,
    clicks <= n /\ (clicks <= max -> n <= max)
    /\ printed w' = printed w ++ map CLICK (seq (S clicks) (n - clicks))
    /\ seen w' = seen w /\ appended w' = appended w
    /\ match r with
       | Ok m => m = n
       | Raise e =>
         Raise e ∈ button
         /\ is_class TimeoutException e = false
         /\ is_class StaleElementReferenceException e = false
       end.
Proof.
  revert clicks w. induction button as [|a button IH]; intros clicks w;
    cbn [click_more_until_stable].
  - intros H. exists clicks.
    assert (r = Ok clicks /\ w' = w) as [-> ->]
        by (destruct (max <=? clicks); injection H as <- <-; auto).
    rewrite Nat.sub_diag, app_nil_r. repeat (split; [lia || reflexivity|]).
    reflexivity.
  - destruct (max <=? clicks) eqn:E.
    { intros [= <- <-]. exists clicks.
      rewrite Nat.sub_diag, app_nil_r.
      repeat (split; [lia || reflexivity|]). reflexivity. }
    apply Nat.leb_gt in E. destruct a as [[]|e].
    + intros H. apply IH in H
        as (n & Hle & Hmax & Hp & Hs & Ha & Hr).
      exists n. split; [lia|]. split; [intros _; apply Hmax; lia|]. split.
      { rewrite Hp. unfold print. cbn [printed].
        replace (n - clicks) with (S (n - S clicks)) by lia.
        rewrite <- app_assoc. reflexivity. }
      split; [exact Hs|]. split; [exact Ha|].
      destruct r as [m|e]; [exact Hr|].
      destruct Hr as (Hin & Hr). split; [right; exact Hin|exact Hr].
    + destruct (is_class TimeoutException e) eqn:Et.
      { intros [= <- <-]. exists clicks.
        rewrite Nat.sub_diag, app_nil_r.
        repeat (split; [lia || reflexivity|]). reflexivity. }
      destruct (is_class StaleElementReferenceException e) eqn:Es.
      * intros H. apply IH in H
          as (n & Hle & Hmax & Hp & Hs & Ha & Hr).
        exists n. do 5 (split; [assumption|]).
        destruct r as [m|e']; [exact Hr|].
        destruct Hr as (Hin & Hr). split; [right; exact Hin|exact Hr].
      * intros [= <- <-]. exists clicks.
        rewrite Nat.sub_diag, app_nil_r.
        repeat (split; [lia || reflexivity|]).
        split; [left|]. split; assumption.
Qed.

Lemma dict_get_None (fieldnames rec : csv_record) (key : pystr) :
  key ∉ fieldnames -> dict_get fieldnames rec key = None.
Proof.
  intros Hno. unfold dict_get.
  destruct (List.find _ _) as [[k v]|] eqn:E; [|reflexivity].
  exfalso. apply find_some in E as [Hin Heq].
  apply bool_decide_eq_true in Heq. simpl in Heq. subst k.
  apply in_rev, in_app_or in Hin as [Hin|Hin].
  - apply list_elem_of_In, elem_of_zip_l in Hin. contradiction.
  - apply in_map_iff in Hin as (k & [= <- _] & Hin).
    apply Hno. apply list_elem_of_In in Hin.
    rewrite <- (take_drop (length rec) fieldnames).
    apply elem_of_app. right. exact Hin.
Qed.

(** X9: a file whose first line names no column "href" gives a resumed
    run nothing to skip, whatever its lines hold. *)
Theorem missing_href_column_loads_nothing
        (f : csv_file) (fieldnames : csv_record) (rows : list csv_record) :
  f_records f = fieldnames :: rows ->
  py "href" ∉ fieldnames ->
  load_existing_hrefs U (Some f) = ∅.
Proof.
  intros Hrec Hno. unfold load_existing_hrefs. rewrite Hrec.
  destruct (f_readable f); [|reflexivity].
  apply (leibniz_equiv _ _). intros h. split; [|intros H; set_solver].
  rewrite elem_of_list_to_set, list_elem_of_In, filter_In, in_map_iff.
  intros [(rec & Heq & _) Ht]. rewrite dict_get_None in Heq by exact Hno.
  simpl in Heq. subst h. discriminate.
Qed.
End crawler_edges.

(** On the sample page with five anchors one link is left: the match
    link, once, without the path infix. *)
Lemma collected_links_pass_the_filters_witness :
  exists items,
    fminer.collect_links_from_page latin1 samples.mixed_listing 0 0
                                   (fminer.empty_world ∅)
    = (Ok items, fminer.print fminer.SCRAPE (fminer.empty_world ∅))
    /\ items = [ (py "Spiel", py "https://www.oefb.at/bewerbe/Spiel/7",
                  py "https://www.oefb.at/bewerbe/Bewerb/Spielplan/226510",
                  py "2025-08-01T10:00:00Z") ]
    /\ NoDup (map fminer.item_href items).
Proof.
  destruct (collected_links_pass_the_filters
              latin1 samples.mixed_listing 0 0 (fminer.empty_world ∅) _
              eq_refl)
    as (items & Heq & Hnd & _).
  exists items. split; [exact Heq|]. split; [|exact Hnd].
  vm_compute in Heq. injection Heq as <-. reflexivity.
Defined.

(** A run on the sample page stores the match link. *)
Lemma offered_links_are_stored_or_known_witness :
  let it := (py "Spiel", py "https://www.oefb.at/bewerbe/Spiel/7",
             py "https://www.oefb.at/bewerbe/Bewerb/Spielplan/226510",
             py "2025-08-01T10:00:00Z") in
  fminer.item_href it
  ∈ fminer.hrefs (fminer.scrape_multiple_urls_streaming
                    latin1 [samples.mixed_listing] None (Ok tt) ∅).2.
Proof.
  intros it.
  assert (Hl : samples.mixed_listing ∈ [samples.mixed_listing])
    by apply list_elem_of_here.
  assert (Hit : it ∈ fminer.offered latin1 samples.mixed_listing).
  { vm_compute. apply list_elem_of_here. }
  destruct (offered_links_are_stored_or_known
              latin1 [samples.mixed_listing] None ∅ samples.mixed_listing it
              Hl Hit)
    as [H|H].
  - exfalso. exact (not_elem_of_empty _ H).
  - exact H.
Defined.

(** The sample page shows URLs. *)
Lemma mixed_listing_shows_urls :
  fminer.shows_urls latin1 samples.mixed_listing.
Proof.
  intros n els el h Hels Hel Hh.
  cbn [fminer.l_links samples.mixed_listing] in Hels. injection Hels as <-.
  repeat (apply elem_of_cons in Hel as [->|Hel];
          [cbn [fminer.el_href samples.match_link] in Hh;
           first [ injection Hh as <-; vm_compute; reflexivity
                 | inversion Hh ]|]).
  inversion Hel.
Qed.

(** Resumed on the sample output, the crawler adds the link of the
    sample page; resumed once more, it leaves the file as it is. *)
Lemma second_run_appends_nothing_witness :
  let f1 := (fminer.crawl latin1 false [samples.mixed_listing]
                          (Some samples.prior_csv) (Ok tt)).2 in
  fminer.hrefs f1 = [ py "https://www.oefb.at/bewerbe/Spiel/0";
                      py "https://www.oefb.at/bewerbe/Spiel/7" ]
  /\ (fminer.crawl latin1 false [samples.mixed_listing] (Some f1) (Ok tt)).2
     = f1.
Proof.
  split; [vm_compute; reflexivity|].
  refine (proj2 (second_run_appends_nothing
                   latin1 [samples.mixed_listing] None samples.prior_csv
                   _ _)).
  - constructor; [exact mixed_listing_shows_urls|constructor].
  - split; [reflexivity|]. eexists. split; [reflexivity|].
    repeat constructor. eexists _, _. split; [reflexivity|].
    split; [discriminate|vm_compute; reflexivity].
Defined.

(** On the paged sample listing the run reports two new links and the
    file has two more lines. *)
Lemma total_new_counts_the_appended_rows_witness :
  exists w',
    fminer.stream_links_from_url latin1 samples.paged_listing
                                 (fminer.empty_world ∅) = (Ok (1, 2), w')
    /\ length (fminer.appended w') = 2.
Proof.
  eexists. split; [vm_compute; reflexivity|].
  refine (proj1 (total_new_counts_the_appended_rows
                   latin1 samples.paged_listing (fminer.empty_world ∅) 1 2 _
                   _)).
  vm_compute. reflexivity.
Defined.

(** A listing that cannot be opened, given before the paged sample
    listing, changes nothing of the run. *)
Lemma unreachable_listing_leaves_no_trace_witness :
  fminer.scrape_loop latin1 [samples.unreachable_listing; samples.paged_listing]
                     (fminer.empty_world ∅)
  = fminer.scrape_loop latin1 [samples.paged_listing] (fminer.empty_world ∅).
Proof.
  refine (proj2 (unreachable_listing_leaves_no_trace
                   latin1 samples.unreachable_listing [] [samples.paged_listing]
                   (fminer.empty_world ∅) _)).
  left. intros i _. eexists. reflexivity.
Defined.

(** The sample output, its column "href" renamed, gives nothing to
    skip. *)
Lemma missing_href_column_loads_nothing_witness :
  fminer.load_existing_hrefs
    latin1
    (Some {| fminer.f_readable := true;
             fminer.f_records :=
               [py "url"; py "source_url"; py "first_seen_utc"]
               :: tail (fminer.f_records samples.prior_csv) |})
  = ∅.
Proof.
  apply (missing_href_column_loads_nothing
           latin1
           {| fminer.f_readable := true;
              fminer.f_records :=
                [py "url"; py "source_url"; py "first_seen_utc"]
                :: tail (fminer.f_records samples.prior_csv) |}
           [py "url"; py "source_url"; py "first_seen_utc"]
           (tail (fminer.f_records samples.prior_csv)) eq_refl).
  apply (bool_decide_eq_false_1 _). vm_compute. reflexivity.
Defined.

(** A button that breaks at the second attempt ends the loop after one
    click. *)
Lemma click_loop_stops_or_fails_witness :
  let broken := {| exn_cls := WebDriverException; exn_msg := py "broken" |} in
  exists w',
    fminer.click_more_until_stable 3 0 [Ok tt; Raise broken; Ok tt]
                                   (fminer.empty_world ∅)
    = (Raise broken, w')
    /\ fminer.printed w' = [fminer.CLICK 1].
Proof.
  cbn zeta. eexists. split; [reflexivity|].
  destruct (click_loop_stops_or_fails
              3 0 [Ok tt; Raise {| exn_cls := WebDriverException;
                                   exn_msg := py "broken" |}; Ok tt]
              (fminer.empty_world ∅) _ _ eq_refl)
    as (n & _ & _ & Hp & _).
  reflexivity.
Defined.

(* ================================================================= *)
(** * Trimming, splitting and joining *)
(* ================================================================= *)

Section string_facts.
Context (U : Unicode).

(** [s.lstrip()] drops a prefix of white space and stops at the first
    other character. *)
Lemma lstrip_spec (s : pystr) :
  exists pre, s = pre ++ Str.lstrip U s
              /\ Forall (fun c => isspace U c = true) pre
              /\ match Str.lstrip U s with
                 | c :: _ => isspace U c = false
                 | [] => True
                 end.
Proof.
  induction s as [|c s (pre & Heq & Hpre & Hhd)]; simpl.
  - exists []. auto.
  - destruct (isspace U c) eqn:E.
    + exists (c :: pre). split; [simpl; congruence|]. split; [|exact Hhd].
      constructor; assumption.
    + exists []. split; [reflexivity|]. split; [constructor|exact E].
Qed.

Lemma lstrip_id (s : pystr) :
  match s with c :: _ => isspace U c = false | [] => True end ->
  Str.lstrip U s = s.
Proof.
  destruct s as [|c s]; [reflexivity|]. simpl. intros ->. reflexivity.
Qed.

(** [s.rstrip()] drops a suffix of white space and stops at the last
    other character. *)
Lemma rstrip_spec (s : pystr) :
  exists post, s = Str.rstrip U s ++ post
               /\ Forall (fun c => isspace U c = true) post
               /\ match rev (Str.rstrip U s) with
                  | c :: _ => isspace U c = false
                  | [] => True
                  end.
Proof.
  unfold Str.rstrip.
  destruct (lstrip_spec (rev s)) as (pre & Heq & Hpre & Hhd).
  exists (rev pre). split.
  - rewrite <- rev_app_distr, <- Heq, rev_involutive. reflexivity.
  - split; [apply Forall_rev; exact Hpre|].
    rewrite rev_involutive. exact Hhd.
Qed.

(** A string is trimmed when it neither starts nor ends with white
    space; [strip] leaves it alone. *)
Lemma strip_id (s : pystr) :
  match s with c :: _ => isspace U c = false | [] => True end ->
  match rev s with c :: _ => isspace U c = false | [] => True end ->
  Str.strip U s = s.
Proof.
  intros Hhd Hlast. unfold Str.strip, Str.rstrip.
  rewrite (lstrip_id s Hhd), (lstrip_id (rev s) Hlast).
  apply rev_involutive.
Qed.

(** [s.strip()] is [s] without a prefix and a suffix of white space, and
    is trimmed. *)
Lemma strip_spec (s : pystr) :
  exists pre post,
    s = pre ++ Str.strip U s ++ post
    /\ Forall (fun c => isspace U c = true) pre
    /\ Forall (fun c => isspace U c = true) post
    /\ match Str.strip U s with
       | c :: _ => isspace U c = false
       | [] => True
       end
    /\ match rev (Str.strip U s) with
       | c :: _ => isspace U c = false
       | [] => True
       end.
Proof.
  unfold Str.strip.
  destruct (lstrip_spec s) as (pre & Heq & Hpre & Hhd).
  destruct (rstrip_spec (Str.lstrip U s)) as (post & Heq' & Hpost & Hlast).
  exists pre, post. split; [rewrite <- Heq'; exact Heq|].
  split; [exact Hpre|]. split; [exact Hpost|]. split; [|exact Hlast].
  destruct (Str.rstrip U (Str.lstrip U s)) as [|c r] eqn:E; [exact I|].
  rewrite Heq' in Hhd. exact Hhd.
Qed.

Lemma strip_idempotent (s : pystr) :
  Str.strip U (Str.strip U s) = Str.strip U s.
Proof.
  destruct (strip_spec s) as (_ & _ & _ & _ & _ & Hhd & Hlast).
  apply strip_id; assumption.
Qed.

Lemma elem_of_strip (s : pystr) (c : N) : c ∈ Str.strip U s -> c ∈ s.
Proof.
  destruct (strip_spec s) as (pre & post & Heq & _). intros H.
  rewrite Heq. apply elem_of_app. right. apply elem_of_app. left. exact H.
Qed.

(** A leading blank is trimmed away. *)
Lemma strip_cons_space (c : N) (s : pystr) :
  isspace U c = true -> Str.strip U (c :: s) = Str.strip U s.
Proof. intros H. unfold Str.strip. simpl. rewrite H. reflexivity. Qed.
End string_facts.

Section href_column.
Import fminer.
Context (U : Unicode).

(** The bindings of the dictionary of a record, by position: the name
    at that position in the first line, bound to the field at that
    position or, beyond the end of the record, to [None]. *)
Lemma dict_bindings_lookup (fieldnames rec : csv_record) (j : nat) :
  (zip fieldnames (map Some rec)
   ++ map (fun k => (k, None)) (drop (length rec) fieldnames)) !! j
  = (fun k => (k, rec !! j)) <$> fieldnames !! j.
Proof.
  revert rec j.
  induction fieldnames as [|k fs IH]; intros [|r rs] j;
    cbn [zip_with map length drop app].
  - reflexivity.
  - reflexivity.
  - change (((fun k0 : pystr => (k0, @None pystr)) <$> (k :: fs)) !! j
            = (fun k0 => (k0, (@nil pystr) !! j)) <$> (k :: fs) !! j).
    rewrite list_lookup_fmap, lookup_nil. reflexivity.
  - destruct j as [|j]; [reflexivity|]. exact (IH rs j).
Qed.

(** [find] on the reversed list gives the last element that passes. *)
Lemma find_rev_last {A} (P : A -> bool) (l : list A) (i : nat) (x : A) :
  l !! i = Some x -> P x = true ->
  (forall j y, i < j -> l !! j = Some y -> P y = false) ->
  List.find P (rev l) = Some x.
Proof.
  induction l as [|a l IH] using rev_ind; intros Hi Hx Hlast.
  - rewrite lookup_nil in Hi. discriminate.
  - rewrite rev_unit. cbn [List.find].
    assert (Hbound : i < length (l ++ [a]))
      by (apply lookup_lt_is_Some; eauto).
    rewrite length_app in Hbound. cbn [length] in Hbound.
    destruct (decide (i = length l)) as [->|Hne].
    + rewrite list_lookup_middle in Hi by reflexivity.
      injection Hi as ->. rewrite Hx. reflexivity.
    + assert (Hlt : i < length l) by lia.
      rewrite (Hlast (length l) a Hlt)
        by (apply list_lookup_middle; reflexivity).
      rewrite lookup_app_l in Hi by exact Hlt.
      apply IH; [exact Hi|exact Hx|].
      intros j y Hj Hy. apply (Hlast j y Hj).
      rewrite lookup_app_l by (apply lookup_lt_is_Some; eauto). exact Hy.
Qed.

(** [row.get(key)] is the field under the last occurrence of the name
    in the first line; a record too short for it gives [None]. *)
Lemma dict_get_last (fieldnames rec : csv_record) (key : pystr) (i : nat) :
  fieldnames !! i = Some key ->
  (forall j, i < j -> fieldnames !! j <> Some key) ->
  dict_get fieldnames rec key = rec !! i.
Proof.
  intros Hi Hlast. unfold dict_get.
  rewrite (find_rev_last _ _ i (key, rec !! i)); [reflexivity| | |].
  - rewrite dict_bindings_lookup, Hi. reflexivity.
  - apply bool_decide_eq_true. reflexivity.
  - intros j [k v] Hj Hy. rewrite dict_bindings_lookup in Hy.
    destruct (fieldnames !! j) as [k'|] eqn:E; [|discriminate].
    injection Hy as <- <-. apply bool_decide_eq_false. cbn [fst].
    intros ->. exact (Hlast j Hj E).
Qed.

(** X8: the set that a resumed run starts from.  Under a first line
    that names a column "href", it holds the fields at the position of
    the last such name, without the white space around them and the
    empty ones left out; lines too short to reach that position and
    empty lines give nothing.  What it holds has no white space around
    it. *)
Theorem load_existing_hrefs_reads_the_href_column
        (f : csv_file) (fieldnames : csv_record) (rows : list csv_record)
        (i : nat) (h : pystr) :
  f_readable f = true ->
  f_records f = fieldnames :: rows ->
  fieldnames !! i = Some (py "href") ->
  (forall j, i < j -> fieldnames !! j <> Some (py "href")) ->
  (h ∈ load_existing_hrefs U (Some f)
   <-> h <> [] /\ exists rec cell, rec ∈ rows /\ rec !! i = Some cell
                                   /\ h = Str.strip U cell)
  /\ (h ∈ load_existing_hrefs U (Some f) -> Str.strip U h = h).
Proof.
  intros Hread Hrec Hi Hlast.
  assert (Hiff : h ∈ load_existing_hrefs U (Some f)
                 <-> h <> [] /\ exists rec cell,
                       rec ∈ rows /\ rec !! i = Some cell
                       /\ h = Str.strip U cell).
  { unfold load_existing_hrefs. rewrite Hread, Hrec.
    rewrite elem_of_list_to_set, list_elem_of_In, filter_In, in_map_iff.
    split.
    - intros [(rec & Heq & Hin) Ht]. apply filter_In in Hin as [Hin _].
      rewrite (dict_get_last fieldnames rec _ i Hi Hlast) in Heq.
      assert (Hne : h <> []) by (intros ->; discriminate).
      split; [exact Hne|].
      destruct (rec !! i) as [cell|] eqn:E.
      + exists rec, cell. split; [apply list_elem_of_In; exact Hin|].
        split; [exact E|]. symmetry. exact Heq.
      + exfalso. apply Hne. rewrite <- Heq. reflexivity.
    - intros (Hne & rec & cell & Hin & Hcell & ->). split.
      + exists rec. split.
        * rewrite (dict_get_last fieldnames rec _ i Hi Hlast), Hcell.
          reflexivity.
        * apply filter_In. split; [apply list_elem_of_In; exact Hin|].
          apply negb_true_iff, bool_decide_eq_false. intros ->.
          rewrite lookup_nil in Hcell. discriminate.
      + destruct (Str.strip U cell); [contradiction|reflexivity]. }
  split; [exact Hiff|].
  intros Hin. apply Hiff in Hin as (_ & rec & cell & _ & _ & ->).
  apply strip_idempotent.
Qed.
End href_column.

(** Under the first line href,href the second field counts: the line
    with one field gives nothing, the empty line is skipped. *)
Lemma load_existing_hrefs_reads_the_href_column_witness :
  let f := {| fminer.f_readable := true;
              fminer.f_records :=
                [ [py "href"; py "href"];
                  [py "https://www.oefb.at/bewerbe/Spiel/1"];
                  [];
                  [py "https://www.oefb.at/bewerbe/Spiel/2";
                   py " https://www.oefb.at/bewerbe/Spiel/3 "] ] |} in
  (py "https://www.oefb.at/bewerbe/Spiel/3"
   ∈ fminer.load_existing_hrefs latin1 (Some f))
  /\ Str.strip latin1 (py "https://www.oefb.at/bewerbe/Spiel/3")
     = py "https://www.oefb.at/bewerbe/Spiel/3"
  /\ fminer.load_existing_hrefs latin1 (Some f)
     = {[ py "https://www.oefb.at/bewerbe/Spiel/3" ]}.
Proof.
  intros f.
  assert (Hi : [py "href"; py "href"] !! 1 = Some (py "href"))
    by reflexivity.
  assert (Hlast : forall j, 1 < j ->
                    [py "href"; py "href"] !! j <> Some (py "href")).
  { intros j Hj. rewrite lookup_ge_None_2 by (cbn [length]; lia).
    intros H. inversion H. }
  destruct (load_existing_hrefs_reads_the_href_column
              latin1 f [py "href"; py "href"] _ 1
              (py "https://www.oefb.at/bewerbe/Spiel/3")
              eq_refl eq_refl Hi Hlast) as [Hiff Hstrip].
  assert (Hin : py "https://www.oefb.at/bewerbe/Spiel/3"
                ∈ fminer.load_existing_hrefs latin1 (Some f)).
  { apply Hiff. split; [vm_compute; discriminate|].
    exists [py "https://www.oefb.at/bewerbe/Spiel/2";
            py " https://www.oefb.at/bewerbe/Spiel/3 "],
           (py " https://www.oefb.at/bewerbe/Spiel/3 ").
    split; [do 2 apply list_elem_of_further; apply list_elem_of_here|].
    split; [reflexivity|vm_compute; reflexivity]. }
  split; [exact Hin|]. split; [exact (Hstrip Hin)|].
  vm_compute. reflexivity.
Defined.

Section split_facts.

(** The pieces of [s.split(sep)] hold no separator, and joined by it
    they give [s] back. *)
Lemma split_nonempty (sep : N) (s : pystr) : Str.split sep s <> [].
Proof.
  destruct s as [|c s]; simpl; [discriminate|].
  destruct (c =? sep)%N; [discriminate|].
  destruct (Str.split sep s); discriminate.
Qed.

Lemma split_no_separator (sep : N) (s seg : pystr) :
  seg ∈ Str.split sep s -> sep ∉ seg.
Proof.
  revert seg. induction s as [|c s IH]; simpl; intros seg.
  - intros H. apply list_elem_of_singleton in H as ->. apply not_elem_of_nil.
  - destruct (c =? sep)%N eqn:E.
    + intros H. apply elem_of_cons in H as [->|H];
        [apply not_elem_of_nil|apply IH; exact H].
    + apply N.eqb_neq in E.
      destruct (Str.split sep s) as [|h t] eqn:Es.
      { intros H. apply list_elem_of_singleton in H as ->.
        intros H. apply list_elem_of_singleton in H. congruence. }
      intros H. apply elem_of_cons in H as [->|H].
      * intros H. apply elem_of_cons in H as [H|H]; [congruence|].
        revert H. apply IH. left.
      * apply IH. right. exact H.
Qed.

Lemma split_join (sep : N) (s : pystr) :
  Str.join [sep] (Str.split sep s) = s.
Proof.
  induction s as [|c s IH]; simpl; [reflexivity|].
  pose proof (split_nonempty sep s) as Hne.
  destruct (c =? sep)%N eqn:E.
  - apply N.eqb_eq in E. subst c.
    destruct (Str.split sep s) as [|h t]; [contradiction|].
    rewrite <- IH. reflexivity.
  - destruct (Str.split sep s) as [|h t]; [contradiction|].
    rewrite <- IH. destruct t; reflexivity.
Qed.

Lemma join_infix (sep : pystr) (items : list pystr) (x : pystr) :
  x ∈ items -> exists a b, Str.join sep items = a ++ x ++ b.
Proof.
  induction items as [|y items IH]; intros H; [inversion H|].
  apply elem_of_cons in H as [->|H].
  - destruct items as [|z items].
    + exists [], []. simpl. rewrite app_nil_r. reflexivity.
    + exists [], (sep ++ Str.join sep (z :: items)). reflexivity.
  - destruct (IH H) as (a & b & Heq).
    destruct items as [|z items]; [inversion H|].
    exists (y ++ sep ++ a), b.
    change (Str.join sep (y :: z :: items))
      with (y ++ sep ++ Str.join sep (z :: items)).
    rewrite Heq, <- !app_assoc. reflexivity.
Qed.

Lemma split_infix (sep : N) (s seg : pystr) :
  seg ∈ Str.split sep s -> exists a b, s = a ++ seg ++ b.
Proof.
  intros H. destruct (join_infix [sep] _ _ H) as (a & b & Heq).
  rewrite split_join in Heq. eauto.
Qed.

(** Splitting at a separator that a first piece does not hold. *)
Lemma split_app (sep : N) (x rest : pystr) :
  sep ∉ x -> Str.split sep (x ++ sep :: rest) = x :: Str.split sep rest.
Proof.
  induction x as [|c x IH]; intros Hno; simpl.
  - rewrite N.eqb_refl. reflexivity.
  - destruct (c =? sep)%N eqn:E.
    { apply N.eqb_eq in E. subst c. exfalso. apply Hno. left. }
    rewrite IH by (intros H; apply Hno; right; exact H). reflexivity.
Qed.

Lemma split_whole (sep : N) (x : pystr) :
  sep ∉ x -> Str.split sep x = [x].
Proof.
  induction x as [|c x IH]; intros Hno; simpl; [reflexivity|].
  destruct (c =? sep)%N eqn:E.
  { apply N.eqb_eq in E. subst c. exfalso. apply Hno. left. }
  rewrite IH by (intros H; apply Hno; right; exact H). reflexivity.
Qed.
End split_facts.

(* ================================================================= *)
(** * The address parser: the shape of the three parts *)
(* ================================================================= *)

Section address_shape.
Import post_processing.
Context (U : Unicode).

Lemma Strasse_head (addr : pystr) :
  Strasse (extract_address_parts U (Some addr)) = head (parts_of U addr).
Proof. unfold extract_address_parts. repeat case_match; reflexivity. Qed.

Lemma elem_of_parts_of (addr p : pystr) :
  p ∈ parts_of U addr <->
  p <> [] /\ exists seg, seg ∈ Str.split comma addr /\ p = Str.strip U seg.
Proof.
  unfold parts_of. rewrite list_elem_of_In, filter_In, in_map_iff. split.
  - intros [(seg & <- & Hin) Ht]. split; [intros Heq; rewrite Heq in Ht|].
    + discriminate.
    + exists seg. rewrite list_elem_of_In. auto.
  - intros (Hne & seg & Hin & ->). split.
    + exists seg. rewrite <- list_elem_of_In. auto.
    + destruct (Str.strip U seg); [contradiction|reflexivity].
Qed.

Lemma head_filter_None {A} (p : A -> bool) (l : list A) :
  head (List.filter p l) = None <-> forall x, x ∈ l -> p x = false.
Proof.
  induction l as [|x l IH]; simpl.
  - split; [intros _ x H; inversion H|reflexivity].
  - destruct (p x) eqn:E; simpl.
    + split; [discriminate|]. intros H. specialize (H x). rewrite E in H.
      discriminate H. left.
    + rewrite IH. split.
      * intros H y Hy. apply elem_of_cons in Hy as [->|Hy]; auto.
      * intros H y Hy. apply H. right. exact Hy.
Qed.

(** X11: the street that the parser returns is not empty, has no
    white space around it and no comma in it, and stands in the address
    as it is; the street is null exactly when every comma segment of the
    address is blank. *)
Theorem street_is_a_trimmed_segment (addr : pystr) :
  (forall st,
     Strasse (extract_address_parts U (Some addr)) = Some st ->
     st <> [] /\ Str.strip U st = st /\ (comma ∉ st)
     /\ exists a b, addr = a ++ st ++ b)
  /\ (Strasse (extract_address_parts U (Some addr)) = None <->
      forall seg, seg ∈ Str.split comma addr -> Str.strip U seg = []).
Proof.
  rewrite Strasse_head. split.
  - intros st Hst. apply head_Some_elem_of in Hst.
    apply elem_of_parts_of in Hst as (Hne & seg & Hseg & ->).
    split; [exact Hne|]. split; [apply strip_idempotent|]. split.
    + intros H. apply elem_of_strip in H.
      exact (split_no_separator comma addr seg Hseg H).
    + destruct (split_infix comma addr seg Hseg) as (a & b & ->).
      destruct (strip_spec U seg) as (pre & post & Heq & _).
      exists (a ++ pre), (post ++ b).
      rewrite Heq at 1. rewrite <- !app_assoc. reflexivity.
  - unfold parts_of. rewrite head_filter_None. split.
    + intros H seg Hseg.
      specialize (H (Str.strip U seg)).
      destruct (Str.strip U seg) eqn:E; [reflexivity|].
      discriminate H. rewrite <- E. apply list_elem_of_fmap.
      exists seg. auto.
    + intros H p Hp. apply list_elem_of_fmap in Hp as (seg & -> & Hseg).
      rewrite (H seg Hseg). reflexivity.
Qed.

Lemma slice_all_in (cls : N -> bool) (s : pystr) (a b : nat) :
  a < b -> Re.all_in cls s a b ->
  length (Re.slice s (a, b)) = b - a
  /\ Forall (fun c => cls c = true) (Re.slice s (a, b)).
Proof.
  intros Hab Hall. unfold Re.slice. cbn [fst snd].
  assert (Hlen : b <= length s).
  { destruct (Hall (b - 1)) as (c & Hc & _); [lia|].
    apply lookup_lt_Some in Hc. lia. }
  split.
  - rewrite length_take, length_drop. lia.
  - apply Forall_lookup. intros j c Hj.
    pose proof (lookup_lt_Some _ _ _ Hj) as Hlt.
    rewrite length_take, length_drop in Hlt.
    rewrite lookup_take_lt in Hj by lia. rewrite lookup_drop in Hj.
    destruct (Hall (a + j)) as (c' & Hc' & Hcls); [lia|]. congruence.
Qed.

(** The groups of a match, trimmed: the digits as they are when no
    digit is white space, and a part of the city characters. *)
Lemma plz_ort_of_shape (s : pystr) (m : Re.match_obj) plz ort :
  (forall c, Re.digit U c = true -> isspace U c = false) ->
  Re.search U (pat U) s = Some m ->
  plz_ort_of U s m = (plz, ort) ->
  exists p o,
    plz = Some p /\ ort = Some o
    /\ 4 <= length p <= 5
    /\ Forall (fun c => Re.digit U c = true) p
    /\ Forall (fun c => city_char c = true) o
    /\ Str.strip U o = o.
Proof.
  intros Hdigit Hm. unfold plz_ort_of. intros [= <- <-].
  destruct (search_leftmost U s m Hm) as (i & b & c & e & _ & Hg & Hpm & _).
  destruct Hpm as [_ Hcount Hd _ [Hce Hc] _].
  unfold Re.group. rewrite Hg. cbn [lookup list_lookup Nat.sub].
  change ([(i, b); (c, e)] !! 0) with (Some (i, b)).
  change ([(i, b); (c, e)] !! 1) with (Some (c, e)).
  destruct (slice_all_in _ s i b ltac:(lia) Hd) as [Hlen Hall].
  destruct (slice_all_in _ s c e Hce Hc) as [_ Hall'].
  eexists _, _. split; [reflexivity|]. split; [reflexivity|].
  assert (Hid : Str.strip U (Re.slice s (i, b)) = Re.slice s (i, b)).
  { apply strip_id.
    - destruct (Re.slice s (i, b)) as [|x r]; [exact I|].
      apply Hdigit. apply Forall_cons in Hall as [Hx _]. exact Hx.
    - apply Forall_rev in Hall.
      destruct (rev (Re.slice s (i, b))) as [|x r]; [exact I|].
      apply Hdigit. apply Forall_cons in Hall as [Hx _]. exact Hx. }
  rewrite Hid. split; [lia|]. split; [exact Hall|].
  split; [|apply strip_idempotent].
  apply Forall_forall. intros x Hx. apply elem_of_strip in Hx.
  rewrite Forall_forall in Hall'. apply Hall'. exact Hx.
Qed.

(** X12: over a character table in which no decimal digit is white
    space, a postal code that the parser returns is four or five
    decimal digits, and the city returned with it is made of the
    characters of the city class only and has no white space around
    it. *)
Theorem plz_is_four_or_five_digits (addr : option pystr) (plz : pystr) :
  (forall c, Re.digit U c = true -> isspace U c = false) ->
  PLZ (extract_address_parts U addr) = Some plz ->
  4 <= length plz <= 5
  /\ Forall (fun c => Re.digit U c = true) plz
  /\ exists ort,
       Ort (extract_address_parts U addr) = Some ort
       /\ Forall (fun c => city_char c = true) ort
       /\ Str.strip U ort = ort.
Proof.
  intros Hdigit. unfold extract_address_parts.
  destruct addr as [addr|]; [|discriminate].
  destruct (Re.search U (pat U) (plz_ort_source U addr)) as [m|] eqn:E1.
  - destruct (plz_ort_of U (plz_ort_source U addr) m) as [p o] eqn:Ep.
    destruct (plz_ort_of_shape _ m p o Hdigit E1 Ep)
      as (p' & o' & -> & -> & H). simpl. intros [= <-].
    destruct H as (H1 & H2 & H3 & H4). eauto 10.
  - destruct (Re.search U (pat U) addr) as [m|] eqn:E2; [|discriminate].
    destruct (plz_ort_of U addr m) as [p o] eqn:Ep.
    destruct (plz_ort_of_shape _ m p o Hdigit E2 Ep)
      as (p' & o' & -> & -> & H). simpl. intros [= <-].
    destruct H as (H1 & H2 & H3 & H4). eauto 10.
Qed.
End address_shape.

Lemma latin1_digits_are_not_spaces (c : N) :
  Re.digit latin1 c = true -> isspace latin1 c = false.
Proof.
  unfold Re.digit. cbn [todecimal isspace latin1].
  unfold latin1_todecimal, latin1_isspace, in_range.
  intros H. apply bool_decide_eq_true in H as [d H].
  destruct ((48 <=? c)%N && (c <=? 57)%N) eqn:E; [|discriminate].
  apply andb_true_iff in E as [E1 E2].
  apply N.leb_le in E1, E2.
  repeat (apply orb_false_intro); try (apply andb_false_iff);
    try (apply N.eqb_neq; lia).
  - right. apply N.leb_gt. lia.
  - right. apply N.leb_gt. lia.
Qed.

(** The street of an address with a blank first segment. *)
Lemma street_is_a_trimmed_segment_witness :
  let addr := py " , Alszeile 19 ,1170 Wien" in
  post_processing.Strasse
    (post_processing.extract_address_parts latin1 (Some addr))
  = Some (py "Alszeile 19")
  /\ Str.strip latin1 (py "Alszeile 19") = py "Alszeile 19"
  /\ exists a b, addr = a ++ py "Alszeile 19" ++ b.
Proof.
  intros addr.
  assert (H : post_processing.Strasse
                (post_processing.extract_address_parts latin1 (Some addr))
              = Some (py "Alszeile 19")) by (vm_compute; reflexivity).
  destruct (proj1 (street_is_a_trimmed_segment latin1 addr) _ H)
    as (_ & Hstrip & _ & Hin).
  split; [exact H|]. split; [exact Hstrip|exact Hin].
Defined.

(** The postal code and the city of a sample address. *)
Lemma plz_is_four_or_five_digits_witness :
  let addr := Some (py "Alszeile 19, 1170 Wien") in
  post_processing.PLZ (post_processing.extract_address_parts latin1 addr)
  = Some (py "1170")
  /\ 4 <= length (py "1170") <= 5
  /\ Forall (fun c => Re.digit latin1 c = true) (py "1170").
Proof.
  intros addr.
  assert (H : post_processing.PLZ
                (post_processing.extract_address_parts latin1 addr)
              = Some (py "1170")) by (vm_compute; reflexivity).
  destruct (plz_is_four_or_five_digits
              latin1 addr (py "1170") latin1_digits_are_not_spaces H)
    as (Hlen & Hall & _).
  split; [exact H|]. split; [exact Hlen|exact Hall].
Defined.

(* ================================================================= *)
(** * The post-processor: what a clean row holds *)
(* ================================================================= *)

Section clean_rows.
Import post_processing.
Context (U : Unicode).
Context (to_datetime : list (option pystr) -> option pystr -> option Z).
Context (sort_values : frame out_row -> frame out_row).

(** Sorting moves rows and neither adds, drops nor changes one. *)
Hypothesis sort_values_permutation : forall l, sort_values l ≡ₚ l.

Lemma replace_cell_liga (cell : option pystr) :
  replace_cell liga_map cell
  = if decide (cell = Some (py "Österreichische Fußball-Bundesliga"))
    then Some (py "ADMIRAL Bundesliga") else cell.
Proof.
  destruct cell as [v|]; [|reflexivity].
  unfold liga_map, replace_cell, pystr_eqb.
  destruct (decide (Some v = _)) as [[= ->]|Hne].
  - rewrite bool_decide_eq_true_2 by reflexivity. reflexivity.
  - rewrite bool_decide_eq_false_2 by congruence. reflexivity.
Qed.

Lemma replace_cell_typ (cell : option pystr) :
  replace_cell typ_map cell
  = if decide (cell = Some (py "Mann")) then Some (py "Männer")
    else if decide (cell = Some (py "Frau")) then Some (py "Frauen")
    else cell.
Proof.
  destruct cell as [v|]; [|reflexivity].
  unfold typ_map, replace_cell, pystr_eqb.
  destruct (decide (Some v = Some (py "Mann"))) as [[= ->]|Hne].
  { rewrite bool_decide_eq_true_2 by reflexivity. reflexivity. }
  rewrite bool_decide_eq_false_2 by congruence.
  destruct (decide (Some v = Some (py "Frau"))) as [[= ->]|Hne'].
  { rewrite bool_decide_eq_true_2 by reflexivity. reflexivity. }
  rewrite bool_decide_eq_false_2 by congruence. reflexivity.
Qed.

(** The correction of line 107 changes the two coordinates of the rows
    of one home team and nothing else. *)
Lemma corrected_fields (ir : nat * out_row) :
  Liga (corrected ir).2 = Liga ir.2
  /\ Typ (corrected ir).2 = Typ ir.2
  /\ Runde (corrected ir).2 = Runde ir.2
  /\ Heim (corrected ir).2 = Heim ir.2
  /\ Gast (corrected ir).2 = Gast ir.2
  /\ Spielort_Name (corrected ir).2 = Spielort_Name ir.2
  /\ Quelle (corrected ir).2 = Quelle ir.2
  /\ o_Strasse (corrected ir).2 = o_Strasse ir.2
  /\ o_PLZ (corrected ir).2 = o_PLZ ir.2
  /\ o_Ort (corrected ir).2 = o_Ort ir.2
  /\ (mask_gersthof ir.2 = false ->
      Latitude (corrected ir).2 = Latitude ir.2
      /\ Longitude (corrected ir).2 = Longitude ir.2).
Proof.
  unfold corrected. destruct (mask_gersthof ir.2).
  - do 10 (split; [reflexivity|]). discriminate.
  - do 10 (split; [reflexivity|]). split; reflexivity.
Qed.

(** X13: a row of the clean output keeps the index label of the input
    row it comes from and its round, teams, venue name and source; its
    league and type are those of the input with the three labels
    replaced and every other value kept; its street, postal code and
    city are the parsed parts of the input address; and its coordinates
    are those of the input unless the home team is Gersthofer SV. *)
Theorem clean_rows_carry_the_input_fields
        (rows : list in_row) clean fails (i : nat) (r : out_row) :
  main U to_datetime sort_values rows = Ok (clean, fails) ->
  (i, r) ∈ clean ->
  exists row0,
    rows !! i = Some row0
    /\ Liga r
       = (if decide (in_Liga row0
                     = Some (py "Österreichische Fußball-Bundesliga"))
          then Some (py "ADMIRAL Bundesliga") else in_Liga row0)
    /\ Typ r
       = (if decide (in_Typ row0 = Some (py "Mann")) then Some (py "Männer")
          else if decide (in_Typ row0 = Some (py "Frau"))
               then Some (py "Frauen")
               else in_Typ row0)
    /\ Runde r = in_Runde row0 /\ Heim r = in_Heim row0
    /\ Gast r = in_Gast row0
    /\ Spielort_Name r = in_Spielort_Name row0
    /\ Quelle r = in_Quelle row0
    /\ o_Strasse r = Strasse (extract_address_parts U (in_Adresse row0))
    /\ o_PLZ r = PLZ (extract_address_parts U (in_Adresse row0))
    /\ o_Ort r = Ort (extract_address_parts U (in_Adresse row0))
    /\ (in_Heim row0 <> Some (py "Gersthofer SV") ->
        Latitude r = in_Latitude row0 /\ Longitude r = in_Longitude row0).
Proof.
  intros Hmain Hin.
  apply (elem_of_clean U to_datetime sort_values sort_values_permutation
                       rows clean fails i r Hmain) in Hin
    as (row0 & Hr & _ & Heq).
  exists row0. split; [exact Hr|].
  pose proof (corrected_fields (i, output_row U to_datetime rows row0))
    as (H1 & H2 & H3 & H4 & H5 & H6 & H7 & H8 & H9 & H10 & H11).
  rewrite <- Heq in H1, H2, H3, H4, H5, H6, H7, H8, H9, H10, H11.
  cbn [fst snd] in H1, H2, H3, H4, H5, H6, H7, H8, H9, H10, H11.
  rewrite <- replace_cell_liga, <- replace_cell_typ.
  do 10 (split; [assumption|]).
  intros Hne. apply H11. unfold mask_gersthof.
  change (Heim (output_row U to_datetime rows row0)) with (in_Heim row0).
  destruct (in_Heim row0) as [h|]; [|reflexivity].
  apply bool_decide_eq_false_2. congruence.
Qed.

Lemma NoDup_fst_filter {A} (p : nat * A -> bool) (l : list (nat * A)) :
  NoDup l.*1 -> NoDup (List.filter p l).*1.
Proof.
  induction l as [|x l IH]; simpl; [trivial|].
  intros H. apply NoDup_cons in H as [Hx Hl].
  destruct (p x); [|apply IH; exact Hl].
  simpl. apply NoDup_cons. split; [|apply IH; exact Hl].
  intros Hin. apply Hx. apply list_elem_of_fmap in Hin as (y & Hy & Hin).
  apply list_elem_of_fmap. exists y. split; [exact Hy|].
  apply list_elem_of_In. apply list_elem_of_In, filter_In in Hin as [Hin _].
  exact Hin.
Qed.

Lemma fst_read_csv (rows : list in_row) :
  (read_csv rows).*1 = seq 0 (length rows).
Proof. unfold read_csv. apply fst_zip. rewrite length_seq. reflexivity. Qed.

Lemma filter_length_le {A} (p : A -> bool) (l : list A) :
  length (List.filter p l) <= length l.
Proof.
  induction l as [|x l IH]; simpl; [lia|]. destruct (p x); simpl; lia.
Qed.

(** X14: the clean output holds at most one row for each row of the
    input, under its index label, and no more rows than the input; the
    fails output holds at most one row per label too, and no more rows
    than the clean output. *)
Theorem clean_output_has_no_duplicate_rows
        (rows : list in_row) clean fails :
  main U to_datetime sort_values rows = Ok (clean, fails) ->
  NoDup clean.*1
  /\ length clean <= length rows
  /\ (forall i, i ∈ clean.*1 -> i < length rows)
  /\ NoDup fails.*1
  /\ length fails <= length clean.
Proof.
  intros Hmain.
  pose proof (main_Ok U to_datetime sort_values rows clean fails Hmain)
    as [Hclean Hfails].
  assert (Hfst : clean.*1 ≡ₚ (wien_rows U rows).*1).
  { rewrite Hclean. rewrite <- list_fmap_compose.
    erewrite (list_fmap_ext _ fst);
      [|intros k x _; apply (proj1 (corrected_keeps x))].
    rewrite sort_values_permutation, <- list_fmap_compose. reflexivity. }
  assert (Hparsed : (parsed U rows).*1 = seq 0 (length rows)).
  { unfold parsed. rewrite <- !list_fmap_compose. apply fst_read_csv. }
  assert (Hnd : NoDup clean.*1).
  { rewrite Hfst. apply NoDup_fst_filter. rewrite Hparsed. apply NoDup_seq. }
  split; [exact Hnd|]. split.
  { rewrite <- (length_fmap fst clean), Hfst, length_fmap.
    etransitivity; [apply filter_length_le|].
    rewrite <- (length_fmap fst), Hparsed, length_seq. reflexivity. }
  split.
  { intros i Hi. rewrite Hfst in Hi.
    apply list_elem_of_fmap in Hi as (x & -> & Hx).
    apply list_elem_of_In, filter_In in Hx as [Hx _].
    assert (Hi : x.1 ∈ (parsed U rows).*1).
    { apply list_elem_of_fmap. exists x. split; [reflexivity|].
      apply list_elem_of_In. exact Hx. }
    rewrite Hparsed in Hi. apply elem_of_seq in Hi. lia. }
  rewrite Hfails. split.
  - apply NoDup_fst_filter. exact Hnd.
  - apply filter_length_le.
Qed.
End clean_rows.

(** Row 2 of the sample CSV in the clean output: its type is written
    out, its address is parsed and its missing coordinates are kept. *)
Lemma clean_rows_carry_the_input_fields_witness :
  exists clean fails r,
    post_processing.main latin1 samples.no_dates post_processing.sort_by_Datum
                         samples.detail_csv = Ok (clean, fails)
    /\ (2, r) ∈ clean
    /\ post_processing.Typ r = Some (py "Männer")
    /\ post_processing.Heim r = Some (py "Wiener Sport-Club")
    /\ post_processing.o_PLZ r = Some (py "1170").
Proof.
  assert (Hmain : exists clean fails,
             post_processing.main latin1 samples.no_dates
                                  post_processing.sort_by_Datum
                                  samples.detail_csv = Ok (clean, fails))
    by (eexists _, _; reflexivity).
  destruct Hmain as (clean & fails & Hmain).
  assert (Hin : exists r, (2, r) ∈ clean).
  { vm_compute in Hmain. injection Hmain as <- _.
    eexists. right. left. }
  destruct Hin as (r & Hin).
  destruct (clean_rows_carry_the_input_fields
              latin1 samples.no_dates post_processing.sort_by_Datum
              sort_by_Datum_permutation samples.detail_csv clean fails 2 r
              Hmain Hin)
    as (row0 & Hrow & _ & Htyp & _ & Hheim & _ & _ & _ & _ & Hplz & _).
  injection Hrow as <-.
  exists clean, fails, r. split; [exact Hmain|]. split; [exact Hin|].
  split; [rewrite Htyp; reflexivity|].
  split; [rewrite Hheim; reflexivity|].
  rewrite Hplz. vm_compute. reflexivity.
Defined.

(** The clean output of the sample CSV has three rows out of four,
    under different labels. *)
Lemma clean_output_has_no_duplicate_rows_witness :
  exists clean fails,
    post_processing.main latin1 samples.no_dates post_processing.sort_by_Datum
                         samples.detail_csv = Ok (clean, fails)
    /\ NoDup clean.*1 /\ length clean <= 4.
Proof.
  eexists _, _. split; [reflexivity|].
  destruct (clean_output_has_no_duplicate_rows
              latin1 samples.no_dates post_processing.sort_by_Datum
              sort_by_Datum_permutation samples.detail_csv _ _ eq_refl)
    as (Hnd & Hlen & _).
  split; [exact Hnd|exact Hlen].
Defined.

(* ================================================================= *)
(** * The post-processor: the columns of the output *)
(* ================================================================= *)

Section output_columns.
Import post_processing.




End output_columns.


(* ================================================================= *)
(** * The extractor: navigation, the league label, the rows *)
(* ================================================================= *)

Section extractor_session.
Import game_miner_parallel.

Lemma extractor_safe_get_from_spec (s : session) (left i : nat) :
  (safe_get_from s left i = Ok tt <->
     left = 0
     \/ exists k, i <= k < i + left /\ s_get s k = Ok tt
          /\ forall j, i <= j < k ->
               exists e, s_get s j = Raise e /\ is_webdriver e = true)
  /\ forall e,
       safe_get_from s left i = Raise e <->
       exists k, i <= k < i + left /\ s_get s k = Raise e
         /\ (is_webdriver e = false \/ S k = i + left)
         /\ forall j, i <= j < k ->
              exists e', s_get s j = Raise e' /\ is_webdriver e' = true.
Proof.
  revert i. induction left as [|left IH]; intros i; cbn [safe_get_from].
  - split.
    + split; [auto|reflexivity].
    + intros e. split; [discriminate|]. intros (k & Hk & _). lia.
  - destruct (IH (S i)) as [IHok IHraise].
    destruct (s_get s i) as [[]|e0] eqn:E0.
    { split.
      - split; [|reflexivity]. intros _. right. exists i.
        split; [lia|]. split; [exact E0|]. intros j Hj. lia.
      - intros e. split; [discriminate|].
        intros (k & Hk & Hget & _ & Hbefore).
        destruct (decide (k = i)) as [->|Hne]; [congruence|].
        destruct (Hbefore i) as (e' & He' & _); [lia|]. congruence. }
    destruct (is_webdriver e0) eqn:Ew.
    + destruct left as [|left'].
      * split.
        -- split; [discriminate|]. intros [H|(k & Hk & Hget & _)]; [lia|].
           replace k with i in Hget by lia. congruence.
        -- intros e. split.
           ++ intros [= <-]. exists i. split; [lia|]. split; [exact E0|].
              split; [right; lia|]. intros j Hj. lia.
           ++ intros (k & Hk & Hget & _). replace k with i in Hget by lia.
              congruence.
      * split.
        -- rewrite IHok. split.
           ++ intros [H|(k & Hk & Hget & Hbefore)]; [lia|]. right. exists k.
              split; [lia|]. split; [exact Hget|]. intros j Hj.
              destruct (decide (j = i)) as [->|Hne]; [eauto|].
              apply Hbefore. lia.
           ++ intros [H|(k & Hk & Hget & Hbefore)]; [lia|]. right.
              destruct (decide (k = i)) as [->|Hne]; [congruence|].
              exists k. split; [lia|]. split; [exact Hget|].
              intros j Hj. apply Hbefore. lia.
        -- intros e. rewrite IHraise. split.
           ++ intros (k & Hk & Hget & Hlast & Hbefore). exists k.
              split; [lia|]. split; [exact Hget|].
              split; [destruct Hlast; [left; assumption|right; lia]|].
              intros j Hj.
              destruct (decide (j = i)) as [->|Hne]; [eauto|].
              apply Hbefore. lia.
           ++ intros (k & Hk & Hget & Hlast & Hbefore).
              destruct (decide (k = i)) as [->|Hne].
              { rewrite E0 in Hget. injection Hget as <-.
                destruct Hlast; [congruence|lia]. }
              exists k. split; [lia|]. split; [exact Hget|].
              split; [destruct Hlast; [left; assumption|right; lia]|].
              intros j Hj. apply Hbefore. lia.
    + split.
      * split; [discriminate|]. intros [H|(k & Hk & Hget & Hbefore)]; [lia|].
        destruct (decide (k = i)) as [->|Hne]; [congruence|].
        destruct (Hbefore i) as (e' & He' & Hw); [lia|]. congruence.
      * intros e. split.
        -- intros [= <-]. exists i. split; [lia|]. split; [exact E0|].
           split; [left; exact Ew|]. intros j Hj. lia.
        -- intros (k & Hk & Hget & _ & Hbefore).
           destruct (decide (k = i)) as [->|Hne]; [congruence|].
           destruct (Hbefore i) as (e' & He' & Hw); [lia|]. congruence.
Qed.

(** X16: [safe_get] of the extractor returns exactly when no attempt
    is allowed or one of the attempts allowed succeeds after attempts
    that all failed with a WebDriver exception; it raises exactly the
    exception of the first attempt that fails otherwise, or of the
    last attempt allowed. *)
Theorem extractor_safe_get_retries (s : session) (attempts : nat) :
  (safe_get s attempts = Ok tt <->
     attempts = 0
     \/ exists i, 1 <= i <= attempts /\ s_get s i = Ok tt
          /\ forall j, 1 <= j < i ->
               exists e, s_get s j = Raise e /\ is_webdriver e = true)
  /\ forall e,
       safe_get s attempts = Raise e <->
       exists i, 1 <= i <= attempts /\ s_get s i = Raise e
         /\ (is_webdriver e = false \/ i = attempts)
         /\ forall j, 1 <= j < i ->
              exists e', s_get s j = Raise e' /\ is_webdriver e' = true.
Proof.
  unfold safe_get.
  destruct (extractor_safe_get_from_spec s attempts 1) as [Hok Hraise]. split.
  - rewrite Hok. split.
    + intros [H|(k & Hk & H)]; [left; exact H|right].
      exists k. split; [lia|exact H].
    + intros [H|(k & Hk & H)]; [left; exact H|right].
      exists k. split; [lia|exact H].
  - intros e. rewrite Hraise. split.
    + intros (k & Hk & Hget & Hlast & Hbefore). exists k.
      split; [lia|]. split; [exact Hget|].
      split; [destruct Hlast; [left; assumption|right; lia]|exact Hbefore].
    + intros (k & Hk & Hget & Hlast & Hbefore). exists k.
      split; [lia|]. split; [exact Hget|].
      split; [destruct Hlast; [left; assumption|right; lia]|exact Hbefore].
Qed.

(** A wait runs between one and [polls + 1] scripts; it returns when
    the last of them satisfies the condition, and raises a timeout
    after [polls + 1] scripts or what the last script raised. *)
Lemma until_bound (s : session) (cond : page -> bool) polls n r n1 :
  until s cond polls n = (r, n1) ->
  n < n1 <= n + polls + 1
  /\ match r with
     | Ok _ => exists p, s_script s (n1 - 1) = Ok p /\ cond p = true
     | Raise e =>
       (e = timeout /\ n1 = n + polls + 1)
       \/ (s_script s (n1 - 1) = Raise e
           /\ is_class NoSuchElementException e = false)
     end.
Proof.
  revert n. induction polls as [|polls IH]; intros n; cbn [until].
  - destruct (s_script s n) as [p|e] eqn:E.
    + destruct (cond p) eqn:Ec; intros [= <- <-].
      * split; [lia|]. replace (S n - 1) with n by lia. eauto.
      * split; [lia|]. left. split; [reflexivity|lia].
    + destruct (is_class NoSuchElementException e) eqn:Ee; intros [= <- <-].
      * split; [lia|]. left. split; [reflexivity|lia].
      * split; [lia|]. right. replace (S n - 1) with n by lia. auto.
  - assert (Hagain : until s cond polls (S n) = (r, n1) ->
              n < n1 <= n + S polls + 1
              /\ match r with
                 | Ok _ => exists p, s_script s (n1 - 1) = Ok p
                                     /\ cond p = true
                 | Raise e =>
                   (e = timeout /\ n1 = n + S polls + 1)
                   \/ (s_script s (n1 - 1) = Raise e
                       /\ is_class NoSuchElementException e = false)
                 end).
    { intros H. apply IH in H as [Hn Hr]. split; [lia|].
      destruct r as [u|e]; [exact Hr|].
      destruct Hr as [[-> ->]|Hr]; [left; split; [reflexivity|lia]|].
      right. exact Hr. }
    destruct (s_script s n) as [p|e] eqn:E.
    + destruct (cond p) eqn:Ec; [|exact Hagain]. intros [= <- <-].
      split; [lia|]. replace (S n - 1) with n by lia. eauto.
    + destruct (is_class NoSuchElementException e) eqn:Ee; [exact Hagain|].
      intros [= <- <-]. split; [lia|]. right.
      replace (S n - 1) with n by lia. auto.
Qed.

Lemma first_some_None {A B} (f : A -> option B) (l : list A) :
  first_some f l = None <-> forall x, x ∈ l -> f x = None.
Proof.
  induction l as [|x l IH]; simpl.
  - split; [intros _ x H; inversion H|reflexivity].
  - destruct (f x) eqn:E.
    + split; [discriminate|]. intros H. rewrite <- E. apply H. left.
    + rewrite IH. split.
      * intros H y Hy. apply elem_of_cons in Hy as [->|Hy]; auto.
      * intros H y Hy. apply H. right. exact Hy.
Qed.

Lemma bewerb_of_Some (obj : jsval) (b : pystr) :
  bewerb_of obj = Some b <->
  js_truthy obj = true /\ prop (py "bewerb") obj = JString b
  /\ exists c, c ∈ b /\ js_space c = false.
Proof.
  unfold bewerb_of. destruct (js_truthy obj); [|split; [discriminate|]].
  2: { intros [H _]. discriminate. }
  destruct (prop (py "bewerb") obj) as [| | | |b0| |];
    try (split; [discriminate|intros (_ & H & _); discriminate]).
  destruct (forallb js_space b0) eqn:E.
  - split; [discriminate|]. intros (_ & [= ->] & c & Hc & Hs).
    rewrite forallb_forall in E. apply list_elem_of_In, E in Hc. congruence.
  - split.
    + intros [= ->]. split; [reflexivity|]. split; [reflexivity|].
      apply not_true_iff_false in E.
      destruct (existsb (fun c => negb (js_space c)) b) eqn:Ex.
      * apply existsb_exists in Ex as (c & Hc & Hs).
        exists c. rewrite list_elem_of_In. apply negb_true_iff in Hs. auto.
      * exfalso. apply E. apply forallb_forall. intros c Hc.
        destruct (js_space c) eqn:Hs; [reflexivity|].
        assert (existsb (fun c => negb (js_space c)) b = true).
        { apply existsb_exists. exists c. rewrite Hs. auto. }
        congruence.
    + intros (_ & [= ->] & _). reflexivity.
Qed.

(** X17: when [get_bewerb] returns, the wait has seen [appPreloads]
    and the script after it has read them; between two and
    [polls + 2] scripts have run.  A label returned is the [bewerb]
    string of an object that the script visits and holds a character
    that is not white space; [None] is returned only if no object
    visited has such a string. *)
Theorem get_bewerb_reads_a_label_with_text
        (s : session) (n : nat) (r : option pystr) (n1 : nat) :
  get_bewerb s n = (Ok r, n1) ->
  n + 2 <= n1 <= n + s_polls_bewerb s + 2
  /\ exists ap,
       s_script s (n1 - 1) = Ok (Some ap)
       /\ match r with
          | Some b =>
            (exists c, c ∈ b /\ js_space c = false)
            /\ exists v obj, v ∈ for_in ap /\ obj ∈ as_array v
                 /\ js_truthy obj = true
                 /\ prop (py "bewerb") obj = JString b
          | None =>
            forall v obj b,
              v ∈ for_in ap -> obj ∈ as_array v -> js_truthy obj = true ->
              prop (py "bewerb") obj = JString b ->
              forallb js_space b = true
          end.
Proof.
  unfold get_bewerb.
  destruct (until s _ (s_polls_bewerb s) n) as [[u|e] n0] eqn:E;
    [|discriminate].
  apply until_bound in E as [Hn0 _].
  destruct (s_script s n0) as [[ap|]|e] eqn:Es; try discriminate.
  intros [= <- <-]. split; [lia|].
  exists ap. replace (S n0 - 1) with n0 by lia. split; [exact Es|].
  assert (Hfor : for_in (if js_truthy ap then ap else JObject [])
                 = for_in ap).
  { destruct ap as [| |[]|f|[]| |]; try reflexivity.
    simpl. destruct (negb _); reflexivity. }
  rewrite Hfor.
  destruct (first_some _ (for_in ap)) as [b|] eqn:Ef.
  - apply first_some_Some in Ef as (v & Hv & Ef).
    apply first_some_Some in Ef as (obj & Hobj & Ef).
    apply bewerb_of_Some in Ef as (Ht & Hp & Hc).
    split; [exact Hc|]. exists v, obj. auto.
  - intros v obj b Hv Hobj Ht Hp.
    pose proof (proj1 (first_some_None _ _) Ef v Hv) as Hnone.
    pose proof (proj1 (first_some_None _ _) Hnone obj Hobj) as Hb.
    unfold bewerb_of in Hb. rewrite Ht, Hp in Hb.
    destruct (forallb js_space b); [reflexivity|discriminate].
Qed.

Context (U : Unicode) (to_datetime : pystr -> option Z).

(** X18: on a page on which no script ever sees [appPreloads],
    [mine_game] returns no data row: what it returns is the error
    record of the link, and the league wait alone ends with a timeout
    after [polls + 1] scripts. *)
Theorem no_preloads_no_data_row
        (weblink : pystr) (s : session) :
  (forall k, exists p, s_script s k = Ok p
                       /\ js_truthy (optional_chain p) = false) ->
  get_bewerb s 0 = (Raise timeout, s_polls_bewerb s + 1)
  /\ forall r, mine_game U to_datetime weblink s = Ok r ->
               exists e, r = error_record weblink e.
Proof.
  intros Hnever.
  assert (Hb : get_bewerb s 0 = (Raise timeout, s_polls_bewerb s + 1)).
  { unfold get_bewerb.
    destruct (until s _ (s_polls_bewerb s) 0) as [[u|e] n0] eqn:E.
    - apply until_bound in E as [_ (p & Hp & Hc)].
      destruct (Hnever (n0 - 1)) as (p' & Hp' & Hc'). congruence.
    - apply until_bound in E as [Hn [[-> ->]|[He _]]]; [reflexivity|].
      destruct (Hnever (n0 - 1)) as (p' & Hp' & _). congruence. }
  split; [exact Hb|].
  intros r. unfold mine_game. destruct (s_open s); [|discriminate]. simpl.
  destruct (read_fields U s) as [[f n]|e] eqn:E.
  - apply read_fields_counter in E as [b E]. congruence.
  - intros [= <-]. eauto.
Qed.
End extractor_session.

Section extractor_rows.
Import game_miner_parallel.
Context (U : Unicode) (to_datetime : pystr -> option Z).

(** ** The batch *)

(** X20: after any number of completed futures, the rows collected
    are the rows of the output file as last written, or none when it
    was never there, followed by the rows that completed since; these
    are fewer than [flush_every], or none when that is 0; and one row
    was collected per completed future. *)
Theorem fewer_than_flush_every_rows_are_unsaved
        (file : option (list row)) (site : nat -> session)
        (flush_every : nat) (done : list (nat * pystr)) :
  let st :=
    fold_left
      (fun st task => completed flush_every st task.2
                                (mine_game U to_datetime task.2 (site task.1)))
      done
      {| results := default [] file; have := have_of file;
         completed_since_flush := 0; out_csv := file |} in
  (exists unsaved,
     results st = default [] (out_csv st) ++ unsaved
     /\ length unsaved = completed_since_flush st
     /\ length unsaved < Nat.max 1 flush_every)
  /\ length (results st) = length (default [] file) + length done.
Proof.
  cbn zeta.
  set (step := fun (st : pool) (task : nat * pystr) =>
                 completed flush_every st task.2
                           (mine_game U to_datetime task.2 (site task.1))).
  assert (Hinv : forall tasks st,
            (exists unsaved,
               results st = default [] (out_csv st) ++ unsaved
               /\ length unsaved = completed_since_flush st
               /\ length unsaved < Nat.max 1 flush_every) ->
            (exists unsaved,
               results (fold_left step tasks st)
               = default [] (out_csv (fold_left step tasks st)) ++ unsaved
               /\ length unsaved = completed_since_flush (fold_left step tasks st)
               /\ length unsaved < Nat.max 1 flush_every)
            /\ length (results (fold_left step tasks st))
               = length (results st) + length tasks).
  { induction tasks as [|task tasks IH]; intros st Hst; simpl.
    - split; [exact Hst|lia].
    - destruct (IH (step st task)) as [H1 H2].
      + destruct Hst as (unsaved & Hres & Hlen & Hlt).
        unfold step, completed.
        destruct (flush_every <=? S (completed_since_flush st)) eqn:E;
          cbn [results out_csv completed_since_flush default].
        * exists []. rewrite app_nil_r. split; [reflexivity|].
          split; [reflexivity|]. simpl. lia.
        * apply Nat.leb_gt in E.
          exists (unsaved ++ [row_of_future
                                task.2
                                (mine_game U to_datetime task.2
                                           (site task.1))]).
          rewrite Hres, <- app_assoc, length_app. simpl.
          split; [reflexivity|]. split; [lia|lia].
      + split; [exact H1|]. rewrite H2. unfold step, completed.
        destruct (flush_every <=? _); cbn [results];
          rewrite length_app; simpl; lia. }
  apply Hinv. exists []. simpl. rewrite app_nil_r.
  split; [reflexivity|]. split; [reflexivity|]. lia.
Qed.

Lemma row_of_future_link (lnk : pystr) (s : session) :
  link (row_of_future lnk (mine_game U to_datetime lnk s)) = lnk
  \/ link (row_of_future lnk (mine_game U to_datetime lnk s))
     = normalize_link lnk.
Proof.
  unfold mine_game. destruct (s_open s); [|left; reflexivity]. simpl.
  destruct (read_fields U s) as [[f n]|e]; [|right; reflexivity].
  simpl. unfold build_row. destruct (get_coordinates s n).1.
  right. reflexivity.
Qed.

Lemma elem_of_todo_of (hrefs : list pystr) (file : option (list row)) l :
  l ∈ todo_of hrefs file <->
  (l ∉ have_of file) /\ exists h, h ∈ hrefs /\ l = normalize_link h.
Proof.
  unfold todo_of. rewrite list_elem_of_In, filter_In, in_map_iff. split.
  - intros [(h & <- & Hh) Hno]. apply bool_decide_eq_true in Hno.
    split; [exact Hno|]. exists h. rewrite list_elem_of_In. auto.
  - intros (Hno & h & Hh & ->). split.
    + exists h. rewrite <- list_elem_of_In. auto.
    + apply bool_decide_eq_true. exact Hno.
Qed.

(** A batch that has run to its end holds every link of the input
    among the links of its rows. *)
Lemma finished_batch_leaves_no_link
      (hrefs : list pystr) (file : option (list row))
      (site : nat -> session)
      (as_completed : list (nat * pystr) -> list (nat * pystr))
      (flush_every : nat) (out : list row) :
  (forall l, as_completed l ≡ₚ l) ->
  Forall (fun h => normalize_link (normalize_link h) = normalize_link h)
         hrefs ->
  run_parallel U to_datetime hrefs file (Ok tt) site as_completed flush_every
  = Ok (Some out) ->
  todo_of hrefs (Some out) = [].
Proof.
  intros Hperm Hfix Hrun.
  assert (Hhave : forall l, l ∈ todo_of hrefs file ->
                            l ∈ have_of (Some out)).
  { unfold run_parallel in Hrun.
    destruct (todo_of hrefs file) as [|l0 todo] eqn:E.
    { intros l Hl. inversion Hl. }
    rewrite <- E in *. clear E l0 todo. simpl in Hrun.
    rewrite completed_results in Hrun. cbn [results] in Hrun.
    injection Hrun as <-.
    intros l Hl. unfold have_of.
    apply elem_of_list_to_set. rewrite map_app. apply elem_of_app. right.
    assert (Htask : exists i, (i, l) ∈ as_completed
                (zip (seq 0 (length (todo_of hrefs file)))
                     (todo_of hrefs file))).
    { assert (H2 : l ∈ (as_completed
                          (zip (seq 0 (length (todo_of hrefs file)))
                               (todo_of hrefs file))).*2).
      { rewrite Hperm, snd_zip by (rewrite length_seq; reflexivity).
        exact Hl. }
      apply list_elem_of_fmap in H2 as ([i l'] & Heq & Hin).
      simpl in Heq. subst l'. eauto. }
    destruct Htask as [i Htask].
    rewrite map_map. apply list_elem_of_fmap. exists (i, l).
    split; [|exact Htask]. cbn [fst snd].
    apply elem_of_todo_of in Hl as (_ & h & Hh & ->).
    rewrite Forall_forall in Hfix. specialize (Hfix h Hh).
    destruct (row_of_future_link (normalize_link h) (site i))
      as [->| ->];
      [reflexivity|symmetry; exact Hfix]. }
  assert (Hold : have_of file ⊆ have_of (Some out)).
  { unfold run_parallel in Hrun.
    destruct (todo_of hrefs file) as [|l0 todo] eqn:E.
    - injection Hrun as <-. destruct file; simpl; set_solver.
    - rewrite <- E in *. simpl in Hrun.
      rewrite completed_results in Hrun. cbn [results] in Hrun.
      injection Hrun as <-. intros l Hl. unfold have_of in *.
      apply elem_of_list_to_set. rewrite map_app. apply elem_of_app. left.
      destruct file as [rows|]; [|set_solver].
      apply elem_of_list_to_set in Hl. exact Hl. }
  destruct (todo_of hrefs (Some out)) as [|l rest] eqn:E; [reflexivity|].
  exfalso.
  assert (Hl : l ∈ todo_of hrefs (Some out)) by (rewrite E; left).
  apply elem_of_todo_of in Hl as (Hno & h & Hh & ->). apply Hno.
  destruct (decide (normalize_link h ∈ have_of file)) as [Hin|Hnin].
  - apply Hold. exact Hin.
  - apply Hhave. apply elem_of_todo_of. eauto.
Qed.

(** A batch ends without a row only when it found neither a row nor a
    link to do. *)
Lemma run_parallel_no_rows
      (hrefs : list pystr) (file : option (list row))
      (site : nat -> session)
      (as_completed : list (nat * pystr) -> list (nat * pystr))
      (flush_every : nat) :
  (forall l, as_completed l ≡ₚ l) ->
  run_parallel U to_datetime hrefs file (Ok tt) site as_completed flush_every
  = Ok (Some []) ->
  default [] file = [] /\ todo_of hrefs file = [].
Proof.
  intros Hperm Hrun.
  destruct (run_parallel_all_links U to_datetime hrefs file site as_completed
                                   flush_every Hperm)
    as (new & Heq & Hnew).
  rewrite Heq in Hrun. injection Hrun as Hnil.
  apply app_eq_nil in Hnil as [Hfile ->]. split; [exact Hfile|].
  apply Permutation_nil. exact Hnew.
Qed.

(** With no output file every link of the input is to do. *)
Lemma todo_of_None (hrefs : list pystr) :
  todo_of hrefs None = [] -> hrefs = [].
Proof.
  unfold todo_of. destruct hrefs as [|h hrefs]; [reflexivity|].
  cbn [map List.filter have_of].
  rewrite bool_decide_eq_true_2 by set_solver. discriminate.
Qed.

(** X21: when normalising a normalised link of the input changes
    nothing, a batch that has run to its end leaves no link to do.  If
    it has left a row, then started again on its output file with the
    same input [run_parallel] mines no link, installs no driver and
    leaves the file as it is.  If it has left no row, then there was
    neither an input link nor an output file, the file it has written
    has no columns, and started again [run_parallel] raises on reading
    it. *)
Theorem second_batch_has_nothing_to_do
        (hrefs : list pystr) (on_disk : option (list row))
        (site : nat -> session)
        (as_completed : list (nat * pystr) -> list (nat * pystr))
        (flush_every : nat) (out : list row) :
  (forall l, as_completed l ≡ₚ l) ->
  Forall (fun h => normalize_link (normalize_link h) = normalize_link h)
         hrefs ->
  run_parallel_on U to_datetime hrefs on_disk (Ok tt) site as_completed
                  flush_every
  = Ok (Some out) ->
  todo_of hrefs (Some out) = []
  /\ (out <> [] ->
      forall install site' as_completed' flush_every',
        run_parallel_on U to_datetime hrefs (Some out) install site'
                        as_completed' flush_every'
        = Ok (Some out))
  /\ (out = [] ->
      on_disk = None /\ hrefs = []
      /\ forall install site' as_completed' flush_every',
           run_parallel_on U to_datetime hrefs (Some out) install site'
                           as_completed' flush_every'
           = Raise empty_data_error).
Proof.
  intros Hperm Hfix Hrun. unfold run_parallel_on, mbind, result_bind in Hrun.
  destruct (read_output on_disk) as [file|e] eqn:Eread; [|discriminate].
  assert (Htodo : todo_of hrefs (Some out) = [])
    by (eapply finished_batch_leaves_no_link; eassumption).
  split; [exact Htodo|]. split.
  - intros Hne install site' as_completed' flush_every'.
    unfold run_parallel_on, mbind, result_bind.
    destruct out as [|r out]; [contradiction|]. cbn [read_output].
    unfold run_parallel. rewrite Htodo. reflexivity.
  - intros ->.
    apply run_parallel_no_rows in Hrun as [Hfile Hnone]; [|exact Hperm].
    assert (Hdisk : on_disk = None).
    { destruct on_disk as [[|r rows]|]; [discriminate| |reflexivity].
      injection Eread as <-. discriminate. }
    subst on_disk. injection Eread as <-.
    split; [reflexivity|]. split; [apply todo_of_None; exact Hnone|].
    reflexivity.
Qed.
End extractor_rows.

(* ================================================================= *)
(** * Links and addresses between the stages *)
(* ================================================================= *)

Section replace_facts.
Context (old new : pystr).

Lemma startswith_length (p s : pystr) :
  Str.startswith p s = true -> length p <= length s.
Proof.
  revert s. induction p as [|a p IH]; intros s; simpl; [lia|].
  destruct s as [|b s]; [discriminate|]. intros H.
  apply andb_true_iff in H as [_ H]. apply IH in H. simpl. lia.
Qed.

(** Replacing all occurrences of a text that does not occur changes
    nothing. *)
Lemma replace_go_absent (s : pystr) :
  Str.contains old s = false -> Str.replace_go old new None 0 s = s.
Proof.
  induction s as [|c s IH]; [reflexivity|].
  cbn [Str.contains Str.replace_go Str.exhausted]. intros H.
  apply orb_false_elim in H as [H1 H2]. rewrite H1, IH by exact H2.
  reflexivity.
Qed.

Hypothesis shorter : length new < length old.

Lemma replace_go_length (skip : nat) (s : pystr) :
  length (Str.replace_go old new None skip s) + Nat.min skip (length s)
  <= length s.
Proof.
  revert skip. induction s as [|c s IH]; intros skip; [simpl; lia|].
  cbn [Str.replace_go Str.exhausted Str.one_less].
  destruct skip as [|k].
  - destruct (Str.startswith old (c :: s)) eqn:E.
    + apply startswith_length in E. simpl in E.
      specialize (IH (Nat.pred (length old))).
      rewrite length_app. simpl. lia.
    + specialize (IH 0). simpl. lia.
  - specialize (IH k). simpl. lia.
Qed.

(** Replacing an occurrence by a shorter text gives a shorter text. *)
Lemma replace_go_present (s : pystr) :
  Str.contains old s = true ->
  length (Str.replace_go old new None 0 s) < length s.
Proof.
  induction s as [|c s IH].
  - simpl. destruct old; [simpl in shorter; lia|discriminate].
  - cbn [Str.contains Str.replace_go Str.exhausted Str.one_less].
    destruct (Str.startswith old (c :: s)) eqn:E.
    + intros _. apply startswith_length in E. simpl in E.
      pose proof (replace_go_length (Nat.pred (length old)) s).
      rewrite length_app. simpl. lia.
    + simpl. intros H. apply IH in H. simpl. lia.
Qed.
End replace_facts.

Section links.
Import game_miner_parallel.

(** X22: [normalize_link] returns a link as it is exactly when the
    link does not hold "/Spielbericht/"; otherwise the link returned is
    shorter, hence different.  It is never longer. *)
Theorem normalize_link_changes_links_with_the_infix (u : pystr) :
  (normalize_link u = u <-> Str.contains (py "/Spielbericht/") u = false)
  /\ length (normalize_link u) <= length u
  /\ (Str.contains (py "/Spielbericht/") u = true ->
      length (normalize_link u) < length u).
Proof.
  unfold normalize_link.
  change (Str.replace (py "/Spielbericht/") (py "/") None u)
    with (Str.replace_go (py "/Spielbericht/") (py "/") None 0 u).
  assert (Hshorter : length (py "/") < length (py "/Spielbericht/"))
    by (vm_compute; lia).
  split; [|split].
  - split.
    + intros Heq.
      destruct (Str.contains (py "/Spielbericht/") u) eqn:E; [|reflexivity].
      apply (replace_go_present _ _ Hshorter) in E. rewrite Heq in E. lia.
    + apply replace_go_absent.
  - pose proof (replace_go_length _ _ Hshorter 0 u). lia.
  - apply replace_go_present. exact Hshorter.
Qed.
End links.

Section addresses.
Import post_processing.
Context (U : Unicode).

Lemma split_join_comma (x : pystr) (rest : list pystr) :
  Forall (fun l => comma ∉ l) (x :: rest) ->
  Str.split comma (Str.join (py ", ") (x :: rest))
  = x :: map (cons 32%N) rest.
Proof.
  revert x. induction rest as [|y rest IH]; intros x Hall.
  - apply Forall_cons in Hall as [Hx _]. simpl. apply split_whole. exact Hx.
  - apply Forall_cons in Hall as [Hx Hall].
    change (Str.join (py ", ") (x :: y :: rest))
      with (x ++ comma :: 32%N :: Str.join (py ", ") (y :: rest)).
    rewrite split_app by exact Hx.
    assert (Hsp : Str.split comma (32%N :: Str.join (py ", ") (y :: rest))
                  = (32%N :: y) :: map (cons 32%N) rest).
    { cbn [Str.split].
      change (32 =? comma)%N with false. cbv iota.
      rewrite (IH y Hall). reflexivity. }
    rewrite Hsp. reflexivity.
Qed.

(** Lines joined by a comma and a blank are split into the same lines
    again when no line holds a comma and the lines are trimmed and not
    empty. *)
Lemma parts_of_join (lines : list pystr) :
  isspace U 32 = true ->
  Forall (fun l => l <> [] /\ Str.strip U l = l /\ (comma ∉ l)) lines ->
  parts_of U (Str.join (py ", ") lines) = lines
  /\ Strasse (extract_address_parts U (Some (Str.join (py ", ") lines)))
     = head lines.
Proof.
  intros Hspace Hall.
  assert (Hparts : parts_of U (Str.join (py ", ") lines) = lines).
  { destruct lines as [|x rest]; [reflexivity|].
    unfold parts_of. rewrite split_join_comma.
    2: { eapply Forall_impl; [exact Hall|]. intros l (_ & _ & H). exact H. }
    apply Forall_cons in Hall as [(Hx & Hsx & _) Hall].
    cbn [map List.filter]. rewrite Hsx.
    destruct x as [|c x]; [contradiction|]. cbn [Str.truthy]. f_equal.
    induction rest as [|y rest IH]; [reflexivity|].
    apply Forall_cons in Hall as [(Hy & Hsy & _) Hall].
    cbn [map List.filter]. rewrite strip_cons_space by exact Hspace.
    rewrite Hsy. destruct y as [|d y]; [contradiction|]. cbn [Str.truthy].
    f_equal. apply IH. exact Hall. }
  split; [exact Hparts|]. rewrite Strasse_head, Hparts. reflexivity.
Qed.

Lemma splitlines_go_chars (skip_lf : bool) (cur s l : pystr) (c : N) :
  l ∈ Str.splitlines_go skip_lf cur s -> c ∈ l -> c ∈ cur \/ c ∈ s.
Proof.
  revert skip_lf cur. induction s as [|x s IH]; intros skip_lf cur;
    cbn [Str.splitlines_go].
  - destruct cur as [|y cur]; [intros H; inversion H|].
    intros H Hc. apply list_elem_of_singleton in H as ->.
    left. apply list_elem_of_In, in_rev, list_elem_of_In. exact Hc.
  - destruct (skip_lf && (x =? 10)%N).
    { intros H Hc. destruct (IH _ _ H Hc); [left|right; right]; assumption. }
    destruct (Str.linebreak x).
    + intros H Hc. apply elem_of_cons in H as [->|H].
      * left. apply list_elem_of_In, in_rev, list_elem_of_In. exact Hc.
      * destruct (IH _ _ H Hc) as [Hn|Hs]; [inversion Hn|].
        right. right. exact Hs.
    + intros H Hc. destruct (IH _ _ H Hc) as [Hn|Hs]; [|right; right; exact Hs].
      apply elem_of_cons in Hn as [->|Hn]; [right; left|left; exact Hn].
Qed.

(** The lines that [scan_place_blocks] joins are trimmed and not
    empty, and hold characters of the text of the block only. *)
Lemma block_lines (text : pystr) :
  Forall (fun l => l <> [] /\ Str.strip U l = l /\ forall c, c ∈ l -> c ∈ text)
         (List.filter Str.truthy (map (Str.strip U) (Str.splitlines text))).
Proof.
  apply Forall_forall. intros l Hl.
  apply list_elem_of_In, filter_In in Hl as [Hl Ht].
  apply in_map_iff in Hl as (l0 & <- & Hl0). split; [|split].
  - intros Heq. rewrite Heq in Ht. discriminate.
  - apply strip_idempotent.
  - intros c Hc. apply elem_of_strip in Hc.
    apply list_elem_of_In in Hl0.
    destruct (splitlines_go_chars _ _ _ _ c Hl0 Hc) as [H|H];
      [inversion H|exact H].
Qed.

(** X23: when no venue block holds a comma in its text, the address
    that the extractor makes of the page is a list of trimmed lines
    that are not empty, joined by a comma and a blank, and the
    post-processor splits it into these lines again: its street is the
    first of them. *)
Theorem venue_address_splits_into_its_lines
        (blocks : list game_miner_parallel.place_block) :
  isspace U 32 = true ->
  (forall blk text,
     blk ∈ blocks -> game_miner_parallel.b_text blk = Ok text ->
     comma ∉ text) ->
  let adresse := (game_miner_parallel.scan_place_blocks U blocks).2 in
  exists lines,
    adresse = Str.join (py ", ") lines
    /\ Forall (fun l => l <> [] /\ Str.strip U l = l) lines
    /\ parts_of U adresse = lines
    /\ Strasse (extract_address_parts U (Some adresse)) = head lines.
Proof.
  intros Hspace Hcomma. cbn zeta.
  assert (Hlines : forall lines : list pystr,
            Forall (fun l => l <> [] /\ Str.strip U l = l /\ (comma ∉ l))
                   lines ->
            exists lines0,
              Str.join (py ", ") lines = Str.join (py ", ") lines0
              /\ Forall (fun l => l <> [] /\ Str.strip U l = l) lines0
              /\ parts_of U (Str.join (py ", ") lines) = lines0
              /\ Strasse (extract_address_parts
                            U (Some (Str.join (py ", ") lines)))
                 = head lines0).
  { intros lines Hall. exists lines. split; [reflexivity|].
    destruct (parts_of_join lines Hspace Hall) as [H1 H2].
    split; [|split; assumption].
    eapply Forall_impl; [exact Hall|]. intros l (H & H' & _). auto. }
  induction blocks as [|blk blocks IH].
  - exists []. split; [reflexivity|]. split; [constructor|].
    split; reflexivity.
  - cbn [game_miner_parallel.scan_place_blocks].
    assert (Hrest : forall blk0 text,
              blk0 ∈ blocks -> game_miner_parallel.b_text blk0 = Ok text ->
              comma ∉ text).
    { intros blk0 text Hin. apply Hcomma. right. exact Hin. }
    destruct (game_miner_parallel.b_h4 blk) as [t|e]; [|exact (IH Hrest)].
    destruct (Str.contains (py "adresse") _ && Str.contains (py "anfahrt") _);
      [|exact (IH Hrest)].
    destruct (game_miner_parallel.b_text blk) as [text|e] eqn:Et.
    2: { exists []. split; [reflexivity|]. split; [constructor|].
         split; reflexivity. }
    cbn [snd].
    assert (Hall : Forall (fun l => l <> [] /\ Str.strip U l = l
                                    /\ (comma ∉ l))
                     (List.filter Str.truthy
                        (map (Str.strip U) (Str.splitlines text)))).
    { eapply Forall_impl; [apply block_lines|].
      intros l (H1 & H2 & H3). split; [exact H1|]. split; [exact H2|].
      intros Hc. apply H3 in Hc.
      exact (Hcomma blk text ltac:(left) Et Hc). }
    set (lines0 := List.filter Str.truthy
                     (map (Str.strip U) (Str.splitlines text))) in *.
    assert (Htl : forall l : list pystr,
              Forall (fun l => l <> [] /\ Str.strip U l = l /\ (comma ∉ l)) l ->
              Forall (fun l => l <> [] /\ Str.strip U l = l /\ (comma ∉ l))
                     (tail l)).
    { intros l H. destruct l; [exact H|]. apply Forall_cons in H as [_ H].
      exact H. }
    apply Hlines.
    destruct lines0 as [|l0 tl0]; [exact Hall|].
    destruct (Str.startswith (py "adresse") (lower U l0)).
    + pose proof (Htl _ Hall) as Hall1. cbn [tail] in Hall1.
      destruct tl0 as [|l1 tl1]; [exact Hall1|].
      destruct (Str.truthy _ && pystr_eqb l1 _);
        [exact (Htl _ Hall1)|exact Hall1].
    + destruct (Str.truthy _ && pystr_eqb l0 _);
        [exact (Htl _ Hall)|exact Hall].
Qed.
End addresses.

(* ================================================================= *)
(** * The JSON emitter: what becomes an integer *)
(* ================================================================= *)

Section integers.
Import create_martiball_json.
Context (U : Unicode).
Context (float_repr : float -> pystr) (timestamp_str : option Z -> pystr).

Lemma py_cons_ascii (a : ascii) (s : string) :
  (N_of_ascii a < 128)%N -> py (String a s) = N_of_ascii a :: py s.
Proof.
  intros H. unfold py, Utf8.decode.
  cbn [list_ascii_of_string map Utf8.decode_bytes].
  apply N.ltb_lt in H. rewrite H. reflexivity.
Qed.

Lemma elem_of_strip_inv (s : pystr) (c : N) :
  c ∈ s -> isspace U c = false -> c ∈ Str.strip U s.
Proof.
  intros Hc Hs. destruct (strip_spec U s) as (pre & post & Heq & Hpre & Hpost & _).
  rewrite Heq in Hc. apply elem_of_app in Hc as [Hc|Hc].
  { rewrite Forall_forall in Hpre. apply Hpre in Hc. congruence. }
  apply elem_of_app in Hc as [Hc|Hc]; [exact Hc|].
  rewrite Forall_forall in Hpost. apply Hpost in Hc. congruence.
Qed.

(** A character that is neither a digit nor an underscore stops
    [int]. *)
Lemma int_digits_foreign (acc : Z) (after_digit : bool) (s : pystr) (c : N) :
  c ∈ s -> todecimal U c = None -> c <> 95%N ->
  int_digits U acc after_digit s = None.
Proof.
  intros Hc Hd Hu. revert acc after_digit.
  induction s as [|x s IH]; intros acc after_digit; [inversion Hc|].
  cbn [int_digits].
  destruct (decide (x = c)) as [->|Hne].
  - rewrite Hd. apply N.eqb_neq in Hu. rewrite Hu. reflexivity.
  - assert (Hs : c ∈ s).
    { apply elem_of_cons in Hc as [Hc|Hc]; [congruence|exact Hc]. }
    destruct (todecimal U x); [apply IH; exact Hs|].
    destruct ((x =? 95)%N && after_digit); [|reflexivity].
    destruct s; [reflexivity|]. apply IH. exact Hs.
Qed.

(** X24: a cell whose text holds a character that is neither a
    decimal digit, an underscore, a sign nor white space gives no
    integer: the postal code of the record is null.  This is so for
    every float cell, whose text holds a point, an exponent or
    letters. *)
Theorem text_with_a_foreign_character_is_no_integer (v : pyval) (c : N) :
  c ∈ str float_repr timestamp_str v ->
  todecimal U c = None ->
  isspace U c = false ->
  c <> 43%N -> c <> 45%N -> c <> 95%N ->
  to_int_or_none U float_repr timestamp_str v = None.
Proof.
  intros Hc Hd Hs H43 H45 H95. unfold to_int_or_none.
  destruct (isna v); [reflexivity|]. unfold int_of_str.
  rewrite strip_idempotent.
  apply elem_of_strip_inv in Hc; [|exact Hs].
  destruct (Str.strip U _) as [|x ds]; [inversion Hc|].
  assert (Hds : x = 43%N \/ x = 45%N -> c ∈ ds).
  { intros Hx. apply elem_of_cons in Hc as [Hc|Hc]; [|exact Hc].
    destruct Hx; congruence. }
  assert (Hnone : forall s, c ∈ s -> int_digits U 0 false s = None).
  { intros s Hin. apply (int_digits_foreign _ _ _ c); assumption. }
  destruct (decide (x = 43%N)) as [->|Hn43].
  { apply Hnone, Hds. auto. }
  destruct (decide (x = 45%N)) as [->|Hn45].
  { rewrite Hnone by (apply Hds; auto). reflexivity. }
  transitivity (int_digits U 0 false (x :: ds)); [|apply Hnone; exact Hc].
  destruct x as [|p]; [reflexivity|].
  do 6 (destruct p as [p|p|]; try reflexivity); congruence.
Qed.

(** The tables agree with ASCII on the decimal digits and the minus
    sign. *)
Hypothesis ascii_digits :
  forall k, (48 <= k <= 57)%N -> todecimal U k = Some (Z.of_N k - 48)%Z.
Hypothesis ascii_not_space :
  forall k, (48 <= k <= 57)%N \/ k = 45%N -> isspace U k = false.

Lemma int_digits_uint (lu d : Decimal.uint) (after_digit : bool) :
  int_digits U (Z.of_N (DecimalPos.Unsigned.of_lu lu)) after_digit
             (py (NilEmpty.string_of_uint d))
  = match d with
    | Decimal.Nil =>
      if after_digit then Some (Z.of_N (DecimalPos.Unsigned.of_lu lu))
      else None
    | _ => Some (Z.of_N (DecimalPos.Unsigned.of_lu (Decimal.revapp d lu)))
    end.
Proof.
  revert lu after_digit.
  induction d as [|d IH|d IH|d IH|d IH|d IH|d IH|d IH|d IH|d IH|d IH];
    intros lu after_digit; [reflexivity|..];
    cbn [NilEmpty.string_of_uint];
    rewrite py_cons_ascii by (vm_compute; reflexivity);
    cbn [int_digits];
    rewrite ascii_digits by (vm_compute; split; discriminate);
    cbn [Decimal.revapp].
  all: match goal with
       | |- int_digits U ?a true _ = _ =>
         match goal with
         | |- context [Decimal.revapp _ ?lu'] =>
           replace a with (Z.of_N (DecimalPos.Unsigned.of_lu lu'))
         end
       end.
  all: try (rewrite IH; destruct d; reflexivity).
  all: cbn [DecimalPos.Unsigned.of_lu]; vm_compute N_of_ascii; lia.
Qed.

Lemma uint_text_digits (d : Decimal.uint) :
  Forall (fun k => (48 <= k <= 57)%N) (py (NilEmpty.string_of_uint d)).
Proof.
  induction d; cbn [NilEmpty.string_of_uint];
    [constructor|..];
    rewrite py_cons_ascii by (vm_compute; reflexivity);
    (constructor; [vm_compute; split; discriminate|assumption]).
Qed.

Lemma uint_text_nonempty (d : Decimal.uint) :
  d <> Decimal.Nil -> py (NilEmpty.string_of_uint d) <> [].
Proof.
  destruct d; [contradiction|..]; intros _; cbn [NilEmpty.string_of_uint];
    rewrite py_cons_ascii by (vm_compute; reflexivity); discriminate.
Qed.

(** A text of ASCII digits, with or without a minus sign before it, is
    left as it is by [strip]. *)
Lemma strip_digits (sign t : pystr) :
  sign = [] \/ sign = [45%N] ->
  t <> [] -> Forall (fun k => (48 <= k <= 57)%N) t ->
  Str.strip U (sign ++ t) = sign ++ t.
Proof.
  intros Hsign Hne Hall. apply strip_id.
  - destruct Hsign as [-> | ->]; simpl.
    + destruct t as [|k t]; [exact I|]. apply Forall_cons in Hall as [Hk _].
      apply ascii_not_space. auto.
    + apply ascii_not_space. auto.
  - rewrite rev_app_distr. apply Forall_rev in Hall.
    destruct (rev t) as [|k r] eqn:E.
    + exfalso. apply Hne. rewrite <- (rev_involutive t), E. reflexivity.
    + simpl. apply Forall_cons in Hall as [Hk _]. apply ascii_not_space. auto.
Qed.

(** [int] of the decimal text of a positive number. *)
Lemma int_digits_positive (p : positive) :
  int_digits U 0 false (py (NilEmpty.string_of_uint (Pos.to_uint p)))
  = Some (Z.pos p).
Proof.
  pose proof (int_digits_uint Decimal.Nil (Pos.to_uint p) false) as H.
  cbn [DecimalPos.Unsigned.of_lu Z.of_N] in H. rewrite H.
  pose proof (DecimalPos.Unsigned.to_uint_nonnil p) as Hne.
  destruct (Pos.to_uint p) eqn:E; [contradiction|..]; rewrite <- E;
    change (Decimal.revapp (Pos.to_uint p) Decimal.Nil)
      with (Decimal.rev (Pos.to_uint p));
    rewrite <- DecimalPos.Unsigned.of_uint_alt, DecimalPos.Unsigned.of_to;
    reflexivity.
Qed.

Lemma int_of_str_unsigned (t : pystr) :
  t <> [] -> Forall (fun k => (48 <= k <= 57)%N) t ->
  int_of_str U t = int_digits U 0 false t.
Proof.
  intros Hne Hall. unfold int_of_str.
  pose proof (strip_digits [] t (or_introl eq_refl) Hne Hall) as Hs.
  cbn [app] in Hs. rewrite Hs.
  destruct t as [|k t]; [contradiction|].
  apply Forall_cons in Hall as [[Hlo Hhi] _].
  destruct k as [|p]; [reflexivity|].
  do 6 (destruct p as [p|p|]; try reflexivity); exfalso; lia.
Qed.

(** X25: over a character table that agrees with ASCII on the digits
    and the minus sign, an integer cell is emitted as the same
    integer: the postal code 1190 that [read_csv] has typed as an
    integer is the integer 1190 of the record. *)
Theorem integer_cell_is_emitted_as_it_is (z : Z) :
  to_int_or_none U float_repr timestamp_str (PyInt z) = Some z.
Proof.
  unfold to_int_or_none. cbn [isna str]. destruct z as [|p|p].
  - change (py (NilZero.string_of_int (Z.to_int 0))) with [48%N].
    assert (H0 : Forall (fun k => (48 <= k <= 57)%N) [48%N])
      by (repeat constructor; lia).
    pose proof (strip_digits [] [48%N] (or_introl eq_refl)
                             ltac:(discriminate) H0) as Hs.
    cbn [app] in Hs. rewrite Hs. rewrite int_of_str_unsigned;
      [|discriminate|repeat constructor; lia].
    cbn [int_digits]. rewrite ascii_digits by lia. reflexivity.
  - pose proof (DecimalPos.Unsigned.to_uint_nonnil p) as Hne.
    assert (Htext : py (NilZero.string_of_int (Z.to_int (Z.pos p)))
                    = py (NilEmpty.string_of_uint (Pos.to_uint p))).
    { cbn [Z.to_int NilZero.string_of_int]. unfold NilZero.string_of_uint.
      destruct (Pos.to_uint p); [contradiction|..]; reflexivity. }
    rewrite Htext.
    pose proof (strip_digits [] _ (or_introl eq_refl)
                             (uint_text_nonempty _ Hne) (uint_text_digits _))
      as Hs.
    cbn [app] in Hs. rewrite Hs.
    rewrite int_of_str_unsigned
      by (apply uint_text_nonempty, Hne || apply uint_text_digits).
    apply int_digits_positive.
  - pose proof (DecimalPos.Unsigned.to_uint_nonnil p) as Hne.
    assert (Htext : py (NilZero.string_of_int (Z.to_int (Z.neg p)))
                    = [45%N] ++ py (NilEmpty.string_of_uint (Pos.to_uint p))).
    { cbn [Z.to_int NilZero.string_of_int]. unfold NilZero.string_of_uint.
      rewrite py_cons_ascii by (vm_compute; reflexivity).
      destruct (Pos.to_uint p); [contradiction|..]; reflexivity. }
    rewrite Htext.
    rewrite (strip_digits [45%N] _ (or_intror eq_refl)
                          (uint_text_nonempty _ Hne) (uint_text_digits _)).
    unfold int_of_str.
    rewrite (strip_digits [45%N] _ (or_intror eq_refl)
                          (uint_text_nonempty _ Hne) (uint_text_digits _)).
    cbn [app]. rewrite int_digits_positive. reflexivity.
Qed.
End integers.

Section parsed_plz.
Import create_martiball_json.
Context (U : Unicode).
Context (float_repr : float -> pystr) (timestamp_str : option Z -> pystr).

Lemma int_digits_all_digits (acc : Z) (after_digit : bool) (s : pystr) :
  Forall (fun c => Re.digit U c = true) s ->
  s <> [] \/ after_digit = true ->
  exists z, int_digits U acc after_digit s = Some z.
Proof.
  intros Hall. revert acc after_digit.
  induction Hall as [|c s Hc _ IH]; intros acc after_digit Hne.
  - destruct Hne as [Hne| ->]; [contradiction|]. simpl. eauto.
  - cbn [int_digits]. apply bool_decide_eq_true in Hc as [d Hd].
    rewrite Hd. apply IH. right. reflexivity.
Qed.

(** X26: over a character table in which no decimal digit is white
    space and the two signs are no digits, the postal code that the
    address parser returns, read back as text, is accepted by the JSON
    emitter: it gives an integer and not null. *)
Theorem parsed_plz_is_an_integer (addr : option pystr) (plz : pystr) :
  (forall c, Re.digit U c = true -> isspace U c = false) ->
  todecimal U 43 = None ->
  todecimal U 45 = None ->
  post_processing.PLZ (post_processing.extract_address_parts U addr)
  = Some plz ->
  exists z,
    to_int_or_none U float_repr timestamp_str (PyStr plz) = Some z.
Proof.
  intros Hdigit H43 H45 Hplz.
  assert (Hshape : 4 <= length plz
                   /\ Forall (fun c => Re.digit U c = true) plz).
  { unfold post_processing.extract_address_parts in Hplz.
    destruct addr as [addr|]; [|discriminate].
    destruct (Re.search U (post_processing.pat U)
                        (post_processing.plz_ort_source U addr))
      as [m|] eqn:E1.
    - destruct (post_processing.plz_ort_of
                  U (post_processing.plz_ort_source U addr) m)
        as [p o] eqn:Ep.
      destruct (plz_ort_of_shape U _ m p o Hdigit E1 Ep)
        as (p' & o' & -> & -> & H1 & H2 & _).
      simpl in Hplz. injection Hplz as <-. split; [lia|exact H2].
    - destruct (Re.search U (post_processing.pat U) addr) as [m|] eqn:E2;
        [|discriminate].
      destruct (post_processing.plz_ort_of U addr m) as [p o] eqn:Ep.
      destruct (plz_ort_of_shape U _ m p o Hdigit E2 Ep)
        as (p' & o' & -> & -> & H1 & H2 & _).
      simpl in Hplz. injection Hplz as <-. split; [lia|exact H2]. }
  destruct Hshape as [Hlen Hall].
  assert (Hne : plz <> []) by (intros ->; simpl in Hlen; lia).
  assert (Hid : Str.strip U plz = plz).
  { apply strip_id.
    - destruct plz as [|x r]; [exact I|].
      apply Hdigit. apply Forall_cons in Hall as [Hx _]. exact Hx.
    - pose proof Hall as Hrev. apply Forall_rev in Hrev.
      destruct (rev plz) as [|x r]; [exact I|].
      apply Hdigit. apply Forall_cons in Hrev as [Hx _]. exact Hx. }
  unfold to_int_or_none. cbn [isna str]. unfold int_of_str.
  rewrite !Hid.
  destruct (int_digits_all_digits 0 false plz Hall (or_introl Hne))
    as [z Hz].
  exists z. rewrite <- Hz.
  destruct plz as [|x ds]; [contradiction|].
  apply Forall_cons in Hall as [Hx _].
  apply bool_decide_eq_true in Hx as [d Hd].
  destruct x as [|p]; [reflexivity|].
  do 6 (destruct p as [p|p|]; try reflexivity); congruence.
Qed.
End parsed_plz.

Lemma latin1_ascii_digits (k : N) :
  (48 <= k <= 57)%N -> todecimal latin1 k = Some (Z.of_N k - 48)%Z.
Proof.
  intros [H1 H2]. cbn [todecimal latin1].
  unfold latin1_todecimal, in_range.
  apply N.leb_le in H1, H2. rewrite H1, H2. reflexivity.
Qed.

Lemma latin1_ascii_not_space (k : N) :
  (48 <= k <= 57)%N \/ k = 45%N -> isspace latin1 k = false.
Proof.
  intros [[H1 H2]| ->]; [|reflexivity].
  apply latin1_digits_are_not_spaces.
  apply bool_decide_eq_true. rewrite latin1_ascii_digits by lia. eauto.
Qed.

(** The text of the float 1190.0 holds a point: the postal code of the
    record is null. *)
Lemma text_with_a_foreign_character_is_no_integer_witness :
  create_martiball_json.to_int_or_none
    latin1 (fun _ => py "1190.0") (fun _ => py "NaT")
    (create_martiball_json.PyFloat 1190%float)
  = None.
Proof.
  apply (text_with_a_foreign_character_is_no_integer
           latin1 (fun _ => py "1190.0") (fun _ => py "NaT")
           (create_martiball_json.PyFloat 1190%float) 46%N).
  - vm_compute. do 4 right. left.
  - reflexivity.
  - reflexivity.
  - discriminate.
  - discriminate.
  - discriminate.
Defined.

(** The integers 1190 and -5 are emitted as they are. *)
Lemma integer_cell_is_emitted_as_it_is_witness :
  create_martiball_json.to_int_or_none
    latin1 (fun _ => []) (fun _ => []) (create_martiball_json.PyInt 1190)
  = Some 1190%Z
  /\ create_martiball_json.to_int_or_none
       latin1 (fun _ => []) (fun _ => []) (create_martiball_json.PyInt (-5))
     = Some (-5)%Z.
Proof.
  split;
    apply (integer_cell_is_emitted_as_it_is
             latin1 (fun _ => []) (fun _ => [])
             latin1_ascii_digits latin1_ascii_not_space).
Defined.

(** The postal code of a sample address is accepted as an integer. *)
Lemma parsed_plz_is_an_integer_witness :
  exists z,
    create_martiball_json.to_int_or_none
      latin1 (fun _ => []) (fun _ => [])
      (create_martiball_json.PyStr (py "1170"))
    = Some z.
Proof.
  apply (parsed_plz_is_an_integer
           latin1 (fun _ => []) (fun _ => [])
           (Some (py "Alszeile 19, 1170 Wien")) (py "1170")
           latin1_digits_are_not_spaces eq_refl eq_refl).
  vm_compute. reflexivity.
Defined.

(** On the sample match page the label is read by the second script. *)
Lemma get_bewerb_reads_a_label_with_text_witness :
  game_miner_parallel.get_bewerb samples.match_session 0
  = (Ok (Some (py "Wiener Stadtliga")), 2)
  /\ exists c, c ∈ py "Wiener Stadtliga"
               /\ game_miner_parallel.js_space c = false.
Proof.
  assert (H : game_miner_parallel.get_bewerb samples.match_session 0
              = (Ok (Some (py "Wiener Stadtliga")), 2))
    by (vm_compute; reflexivity).
  destruct (get_bewerb_reads_a_label_with_text samples.match_session 0 _ _ H)
    as (_ & ap & _ & Hc & _).
  split; [exact H|exact Hc].
Defined.

(** The session whose scripts see no page data gives the error
    record. *)
Lemma no_preloads_no_data_row_witness :
  let weblink := py "https://www.oefb.at/bewerbe/Spiel/3577102" in
  game_miner_parallel.get_bewerb samples.broken_session 0
  = (Raise game_miner_parallel.timeout, 1)
  /\ exists r e,
       game_miner_parallel.mine_game latin1 samples.no_date weblink
                                     samples.broken_session = Ok r
       /\ r = game_miner_parallel.error_record weblink e.
Proof.
  intros weblink.
  destruct (no_preloads_no_data_row
              latin1 samples.no_date weblink samples.broken_session)
    as [Hb Hrow].
  { intros k. exists None. split; reflexivity. }
  split; [exact Hb|].
  assert (Hm : exists r,
             game_miner_parallel.mine_game latin1 samples.no_date weblink
                                           samples.broken_session = Ok r)
    by (eexists; reflexivity).
  destruct Hm as [r Hm]. destruct (Hrow r Hm) as [e He]. eauto.
Defined.

(** A batch of two failing links, run again on its output, has nothing
    to do. *)
Lemma second_batch_has_nothing_to_do_witness :
  let weblink := py "https://www.oefb.at/bewerbe/Spiel/Spielbericht/3577102" in
  let other := py "https://www.oefb.at/bewerbe/Spiel/3577103" in
  exists out,
    game_miner_parallel.run_parallel_on
      latin1 samples.no_date [weblink; other] None (Ok tt)
      (fun _ => samples.broken_session) (@rev _) 25
    = Ok (Some out)
    /\ length out = 2
    /\ game_miner_parallel.todo_of [weblink; other] (Some out) = []
    /\ game_miner_parallel.run_parallel_on
         latin1 samples.no_date [weblink; other] (Some out)
         (Raise game_miner_parallel.timeout)
         (fun _ => samples.match_session) (fun l => l) 1
       = Ok (Some out).
Proof.
  intros weblink other.
  assert (Hrun : exists out,
             game_miner_parallel.run_parallel_on
               latin1 samples.no_date [weblink; other] None (Ok tt)
               (fun _ => samples.broken_session) (@rev _) 25
             = Ok (Some out) /\ length out = 2)
    by (eexists; split; vm_compute; reflexivity).
  destruct Hrun as (out & Hrun & Hlen).
  destruct (second_batch_has_nothing_to_do
              latin1 samples.no_date [weblink; other] None
              (fun _ => samples.broken_session) (@rev _) 25 out
              (fun l => Permutation_sym (Permutation_rev l)))
    as (Htodo & Hsame & _).
  - apply Forall_cons. split; [vm_compute; reflexivity|].
    apply Forall_cons. split; [vm_compute; reflexivity|].
    apply Forall_nil_2.
  - exact Hrun.
  - exists out. split; [exact Hrun|]. split; [exact Hlen|].
    split; [exact Htodo|]. apply Hsame.
    intros ->. discriminate Hlen.
Defined.

(** A link with the infix loses it, a link without it is kept; a link
    that holds the infix twice in a row still holds it afterwards. *)
Lemma normalize_link_changes_links_with_the_infix_witness :
  game_miner_parallel.normalize_link
    (py "https://www.oefb.at/bewerbe/Spiel/Spielbericht/3577102")
  = py "https://www.oefb.at/bewerbe/Spiel/3577102"
  /\ game_miner_parallel.normalize_link
       (py "https://www.oefb.at/bewerbe/Spiel/3577102")
     = py "https://www.oefb.at/bewerbe/Spiel/3577102"
  /\ game_miner_parallel.normalize_link (py "/Spielbericht/Spielbericht/1")
     = py "/Spielbericht/1".
Proof.
  split; [vm_compute; reflexivity|]. split; [|vm_compute; reflexivity].
  apply (proj1 (normalize_link_changes_links_with_the_infix
                  (py "https://www.oefb.at/bewerbe/Spiel/3577102"))).
  vm_compute. reflexivity.
Defined.

(** The sample venue block gives the address "Alszeile 19, 1170 Wien",
    of which the post-processor takes "Alszeile 19" for the street. *)
Lemma venue_address_splits_into_its_lines_witness :
  let adresse :=
    (game_miner_parallel.scan_place_blocks latin1 [samples.venue_block]).2 in
  adresse = py "Alszeile 19, 1170 Wien"
  /\ exists lines,
       post_processing.parts_of latin1 adresse = lines
       /\ post_processing.Strasse
            (post_processing.extract_address_parts latin1 (Some adresse))
          = head lines.
Proof.
  intros adresse. split; [vm_compute; reflexivity|].
  destruct (venue_address_splits_into_its_lines
              latin1 [samples.venue_block] eq_refl)
    as (lines & _ & _ & Hparts & Hstreet).
  - intros blk text Hblk Htext.
    apply list_elem_of_singleton in Hblk. subst blk.
    cbn [game_miner_parallel.b_text samples.venue_block] in Htext.
    injection Htext as <-.
    apply (bool_decide_eq_false_1 _). vm_compute. reflexivity.
  - exists lines. split; [exact Hparts|exact Hstreet].
Defined.

(* ================================================================= *)
(** * The extractor: which coordinates are read *)
(* ================================================================= *)

Section first_coordinates.
Import game_miner_parallel.

Lemma find_app_first {A} (q : A -> bool) (a b : list A) :
  List.find q (a ++ b)
  = match List.find q a with Some x => Some x | None => List.find q b end.
Proof.
  induction a as [|x a IH]; simpl; [reflexivity|].
  destruct (q x); [reflexivity|exact IH].
Qed.

(** The test of the scripts on one object: its numeric pair, unless
    that is (0, 0). *)
Lemma coordinates_of_numeric_pair (obj : jsval) :
  coordinates_of obj
  = match numeric_pair obj with
    | Some latlon => if origin latlon then None else Some latlon
    | None => None
    end.
Proof.
  unfold coordinates_of, numeric_pair, origin.
  destruct (js_truthy obj) eqn:Et.
  - destruct (prop (py "longitude") obj) as [| | |lon| | |],
             (prop (py "latitude") obj) as [| | |lat| | |]; try reflexivity.
    cbn [fst snd]. rewrite (andb_comm (PrimFloat.eqb lon 0)).
    destruct (PrimFloat.eqb lat 0 && PrimFloat.eqb lon 0); reflexivity.
  - assert (Hp : forall name, prop name obj = JUndefined).
    { intros name. destruct obj; try reflexivity. discriminate. }
    rewrite !Hp. reflexivity.
Qed.

Lemma first_some_find (objs : list jsval) :
  first_some coordinates_of objs
  = List.find (fun latlon => negb (origin latlon)) (omap numeric_pair objs).
Proof.
  induction objs as [|obj objs IH]; [reflexivity|].
  cbn [first_some omap list_omap]. rewrite coordinates_of_numeric_pair.
  destruct (numeric_pair obj) as [latlon|]; [|exact IH].
  cbn [List.find]. destruct (origin latlon); [exact IH|reflexivity].
Qed.

Lemma for_in_falsy (ap : jsval) :
  for_in (if js_truthy ap then ap else JObject []) = for_in ap.
Proof.
  destruct ap as [| |[]|f|[]| |]; try reflexivity.
  simpl. destruct (negb _); reflexivity.
Qed.

(** The second script returns the first coordinate entry of the page,
    in the order of enumeration, that is not (0, 0). *)
Lemma read_coordinates_find (p : page) :
  read_coordinates p
  = List.find (fun latlon => negb (origin latlon)) (coordinate_entries p).
Proof.
  unfold read_coordinates, coordinate_entries. rewrite for_in_falsy.
  induction (for_in (optional_chain p)) as [|v vs IH]; [reflexivity|].
  cbn [first_some flat_map]. rewrite find_app_first, first_some_find.
  destruct (List.find _ (omap numeric_pair (as_array v))); [reflexivity|].
  exact IH.
Qed.

(** X27: coordinates that [get_coordinates] returns are those of the
    first coordinate entry other than (0, 0), in the order in which the
    script enumerates the page data, of the page that the last script of
    the call has seen; entries (0, 0) before it are passed over. *)
Theorem get_coordinates_returns_the_first_entry
        (s : session) (n : nat) (lat lon : float) :
  (get_coordinates s n).1 = (Some lat, Some lon) ->
  exists p,
    s_script s ((get_coordinates s n).2 - 1) = Ok p
    /\ List.find (fun latlon => negb (origin latlon)) (coordinate_entries p)
       = Some (lat, lon)
    /\ n + 2 <= (get_coordinates s n).2 <= n + s_polls_coordinates s + 2.
Proof.
  unfold get_coordinates.
  destruct (until s coordinates_ready (s_polls_coordinates s) n)
    as [[u|e] n1] eqn:E; [|discriminate].
  apply until_bound in E as [Hn1 _].
  destruct (s_script s n1) as [p|e] eqn:Es; [|discriminate].
  destruct (read_coordinates p) as [[lat' lon']|] eqn:Er; [|discriminate].
  cbn [fst snd]. intros [= -> ->]. exists p.
  replace (S n1 - 1) with n1 by lia. split; [exact Es|].
  split; [rewrite <- read_coordinates_find; exact Er|lia].
Qed.
End first_coordinates.

(** On a page that shows (0, 0) first and the venue second, the venue
    is read. *)
Lemma get_coordinates_returns_the_first_entry_witness :
  let page :=
    Some (game_miner_parallel.JObject
            [ (py "a", game_miner_parallel.JObject
                         [(py "latitude", game_miner_parallel.JNumber 0%float);
                          (py "longitude", game_miner_parallel.JNumber 0%float)]);
              (py "b", game_miner_parallel.JObject
                         [(py "latitude", game_miner_parallel.JNumber 48.2%float);
                          (py "longitude", game_miner_parallel.JNumber 16.3%float)]) ]) in
  let s := game_miner_parallel.with_coordinate_scripts
             samples.match_session 0 (fun _ => Ok page) 3 in
  (game_miner_parallel.get_coordinates s 0).1
  = (Some 48.2%float, Some 16.3%float)
  /\ List.find (fun latlon => negb (game_miner_parallel.origin latlon))
               (game_miner_parallel.coordinate_entries page)
     = Some (48.2%float, 16.3%float).
Proof.
  intros page s.
  assert (H : (game_miner_parallel.get_coordinates s 0).1
              = (Some 48.2%float, Some 16.3%float))
    by (vm_compute; reflexivity).
  destruct (get_coordinates_returns_the_first_entry s 0 _ _ H)
    as (p & Hp & Hfind & _).
  split; [exact H|].
  vm_compute in Hp. injection Hp as <-. exact Hfind.
Defined.

(* ================================================================= *)
(** * The crawler: the lock file *)
(* ================================================================= *)

Section lock_file_facts.
Import fminer.

(** X28: two crawler processes that start while there is no lock file
    can both be in their guarded blocks at the same time: each looks for
    the lock file before the other has written it.  The lock file then
    names one of them only, and once the other has left its block and
    removed the file, nothing is left to keep a third process out
    while the first is still at work. *)
Theorem file_lock_does_not_exclude (a b : nat) (now : Z) :
  a <> b ->
  exists schedule,
    let w := lock_run schedule no_lock in
    procs w !! a = Some InBody
    /\ procs w !! b = Some InBody
    /\ lock_file w = Some (b, now)
    /\ let w' := lock_run [(a, now); (a, now)] w in
       procs w' !! a = Some Finished
       /\ procs w' !! b = Some InBody
       /\ lock_file w' = None.
Proof.
  intros Hab.
  exists [(a, now); (b, now); (a, now); (b, now); (a, now); (b, now)].
  unfold lock_run, no_lock. cbn [fold_left fst snd].
  repeat (unfold lock_step at 1; cbn [procs lock_file at_pc];
          rewrite ?lookup_insert_eq, ?lookup_empty;
          repeat (rewrite lookup_insert_ne by congruence;
                  rewrite ?lookup_insert_eq, ?lookup_empty)).
  cbn [procs lock_file].
  rewrite ?lookup_insert_eq.
  repeat (rewrite lookup_insert_ne by congruence; rewrite ?lookup_insert_eq).
  auto 10.
Qed.

(** A process that has left the loop does not come back to it. *)
Lemma lock_step_past (b : nat) (now : Z) (w : lock_world) pc :
  procs w !! b = Some pc -> past_the_wait pc ->
  exists pc', procs (lock_step b now w) !! b = Some pc' /\ past_the_wait pc'.
Proof.
  intros Hpc Hpast. unfold lock_step. rewrite Hpc.
  destruct pc; try contradiction; cbn [at_pc procs];
    rewrite ?lookup_insert_eq; eauto.
Qed.

Lemma lock_run_past (b : nat) (times : list Z) (w : lock_world) pc :
  procs w !! b = Some pc -> past_the_wait pc ->
  exists pc',
    procs (lock_run (map (fun t => (b, t)) times) w) !! b = Some pc'
    /\ past_the_wait pc'.
Proof.
  revert w pc. induction times as [|t times IH]; intros w pc Hpc Hpast.
  - simpl. eauto.
  - cbn [map lock_run fold_left fst snd].
    destruct (lock_step_past b t w pc Hpc Hpast) as (pc' & Hpc' & Hpast').
    exact (IH _ pc' Hpc' Hpast').
Qed.

(** X29: a process that finds the lock file of a process that does
    nothing any more stays in the loop, and leaves the file alone, as
    long as every turn of the loop comes at most [wait_secs] after its
    start or at most an hour after the last write of the file; it
    leaves the loop at the first turn that comes later than both.  A
    lock file left behind by a crawler that was killed thus holds the
    others up until it is an hour old, whatever [wait_secs] is. *)
Theorem abandoned_lock_is_taken_when_stale
        (a b : nat) (m start : Z) (others : gmap nat lock_pc)
        (times : list Z) :
  let w0 := {| lock_file := Some (a, m);
               procs := <[b := Waiting start]> others |} in
  let w := lock_run (map (fun t => (b, t)) times) w0 in
  (procs w !! b = Some (Waiting start) <->
   Forall (fun t => (t - start <= wait_secs)%Z \/ (t - m <= stale_after)%Z)
          times)
  /\ (procs w !! b = Some (Waiting start) -> w = w0).
Proof.
  cbn zeta.
  set (w0 := {| lock_file := Some (a, m);
                procs := <[b := Waiting start]> others |}).
  assert (Hb : procs w0 !! b = Some (Waiting start))
    by (subst w0; cbn [procs]; apply lookup_insert_eq).
  induction times as [|t times IH].
  - simpl. split; [|reflexivity]. split; [constructor|intros _; exact Hb].
  - cbn [map lock_run fold_left fst snd].
    destruct ((wait_secs <? t - start)%Z && (stale_after <? t - m)%Z) eqn:E.
    + assert (Hstep : lock_step b t w0 = at_pc b Writing None w0).
      { unfold lock_step. rewrite Hb. cbn [lock_file w0]. rewrite E.
        reflexivity. }
      rewrite Hstep.
      destruct (lock_run_past b times (at_pc b Writing None w0) Writing)
        as (pc' & Hpc' & Hpast); [apply lookup_insert_eq|exact I|].
      fold (lock_run (map (fun t0 => (b, t0)) times)
                     (at_pc b Writing None w0)).
      apply andb_true_iff in E as [E1 E2].
      apply Z.ltb_lt in E1, E2.
      assert (Hnot : procs (lock_run (map (fun t0 => (b, t0)) times)
                                     (at_pc b Writing None w0)) !! b
                     <> Some (Waiting start)).
      { rewrite Hpc'. intros [= ->]. exact Hpast. }
      split; [|intros H; contradiction].
      split; [intros H; contradiction|].
      intros H. apply Forall_cons in H as [[H|H] _]; lia.
    + assert (Hstep : lock_step b t w0 = w0).
      { unfold lock_step. rewrite Hb. cbn [lock_file w0]. rewrite E.
        reflexivity. }
      rewrite Hstep.
      fold (lock_run (map (fun t0 => (b, t0)) times) w0).
      destruct IH as [IH1 IH2]. split; [|exact IH2].
      rewrite IH1, Forall_cons. split; [|intros [_ H]; exact H].
      intros H. split; [|exact H].
      apply andb_false_iff in E as [E|E]; apply Z.ltb_ge in E; auto.
Qed.
End lock_file_facts.

(** Processes 1 and 2, started together. *)
Lemma file_lock_does_not_exclude_witness :
  exists schedule,
    let w := fminer.lock_run schedule fminer.no_lock in
    fminer.procs w !! 1 = Some fminer.InBody
    /\ fminer.procs w !! 2 = Some fminer.InBody.
Proof.
  destruct (file_lock_does_not_exclude 1 2 0 ltac:(discriminate))
    as (schedule & H1 & H2 & _).
  exists schedule. split; [exact H1|exact H2].
Defined.
